(** * Tamil Nadu payroll simulator: a shallow embedding of
      [services/payrollService.ts] and the properties of its month loop.

    Conventions of the embedding.
    - A JavaScript [Date] of the program is always a UTC midnight
      ([parseDateUTC], [Date.UTC], and day shifts by whole days), so a date is
      the integer number of days since 1970-01-01: [Date := Z].  The accessors
      and setters follow the ECMAScript definitions (DayFromYear, MakeDay...).
    - A date string of the input is [option Date]: [None] is the empty or
      absent string, [Some d] a well-formed [YYYY-MM-DD].
    - Money is whole rupees in [Z], and DA and contribution rates are whole
      percents: integers below 2^53, which a JavaScript number holds exactly,
      so that sums, differences and comparisons are those of [Z].  A product
      with a decimal ([x * 2.57], [x * 0.03], [x * (rate / 100)]) is computed
      as the engine computes it, in IEEE 754 binary64, and [Math.round] takes
      the result to the nearest integer, halves upwards.
    - A thrown [Error] is the [Throw] branch of the result type [res].
    - Remark texts are kept as structured values, not as formatted strings.
    - The tables of [constants.ts] are the fields of [Constants], a parameter
      of every definition; [Sample.tables] is a small instance of them. *)

From Stdlib Require Import ZArith Lia Bool Ascii Sorted.
From Stdlib Require SpecFloat.
From stdpp Require Import base option list gmap strings.

Local Open Scope Z_scope.

(** ** Errors *)

Inductive error : Type :=
  | MissingRequiredFields
  | Before1980
  | JoiningFieldsMissing (commission : Z)
  | InvalidScaleId (commission : Z)
  | InvalidLevel (level : Z)
  | InvalidLevelForIncrement (level : Z)
  | GradePayRequired
  | InvalidCommissionForIncrement (commission : Z)
  | CouldNotMapScale (fromCommission : Z)
  | NoLevelForGradePay (gradePay : option Z)
  | InvalidPromotionLevel
  | InvalidPromotionGradePay
  | TypeError
  | UndefinedPay
  | DoesNotReturn.

Inductive res (A : Type) : Type :=
  | OK (a : A)
  | Throw (e : error).
Arguments OK {A} a.
Arguments Throw {A} e.

#[global] Instance res_ret : MRet res := fun _ a => OK a.
#[global] Instance res_bind : MBind res := fun _ _ f m =>
  match m with
  | OK a => f a
  | Throw e => Throw e
  end.

Definition fromOption {A : Type} (e : error) (o : option A) : res A :=
  match o with
  | Some a => OK a
  | None => Throw e
  end.

(** ** JavaScript numbers and strings *)

Module Js.

(** A number is an IEEE 754 binary64: 53 bits of precision, exponents up
    to 1024. *)
Definition number : Type := SpecFloat.spec_float.

(** The number of an integer; exact below 2^53. *)
Definition num (z : Z) : number := SpecFloat.binary_normalize 53 1024 z 0 false.

Definition mul (x y : number) : number := SpecFloat.SFmul 53 1024 x y.
Definition div (x y : number) : number := SpecFloat.SFdiv 53 1024 x y.

(** [Math.round]: the integer [floor (x + 1/2)], for a finite [x]. *)
Definition round (x : number) : Z :=
  match x with
  | SpecFloat.S754_finite s m e =>
      let n := if s then Z.neg m else Z.pos m in
      if 0 <=? e then n * 2 ^ e else (2 * n + 2 ^ (- e)) / 2 ^ (- e + 1)
  | _ => 0
  end.

(** [Math.round(x * (n / d))] on integers.  It is also [Math.round(x * c)]
    for the decimal literal [c] written [n/d], as [2.57] is [257/100]: the
    literal denotes the binary64 nearest to the decimal, which is the
    quotient of [n] by [d] in binary64. *)
Definition round_times (x n d : Z) : Z := round (mul (num x) (div (num n) (num d))).

(** [a || b] on numbers, where [undefined] and [0] are falsy. *)
Definition or_num (a : option Z) (b : Z) : Z :=
  match a with
  | Some x => if x =? 0 then b else x
  | None => b
  end.

(** Truthiness of an optional string: [undefined] and [''] are falsy. *)
Definition truthy_str (s : option string) : bool :=
  match s with
  | Some s => negb (String.eqb s "")
  | None => false
  end.

Definition is_digit (c : ascii) : bool :=
  let n := Z.of_nat (nat_of_ascii c) in (48 <=? n) && (n <=? 57).

Definition digit_val (c : ascii) : Z := Z.of_nat (nat_of_ascii c) - 48.

(** The regular expression class [\s], on ASCII. *)
Definition is_space (c : ascii) : bool :=
  let n := Z.of_nat (nat_of_ascii c) in
  (n =? 32) || ((9 <=? n) && (n <=? 13)).

Fixpoint remove_spaces (s : string) : string :=
  match s with
  | EmptyString => EmptyString
  | String c r => if is_space c then remove_spaces r else String c (remove_spaces r)
  end.

(** [s.split('-')], with the piece being read kept in [cur] (reversed). *)
Fixpoint split_hyphen_aux (s : string) (cur : list ascii) : list (list ascii) :=
  match s with
  | EmptyString => [rev cur]
  | String c r =>
      if Ascii.eqb c "-"%char
      then rev cur :: split_hyphen_aux r []
      else split_hyphen_aux r (c :: cur)
  end.

Definition split_hyphen (s : string) : list (list ascii) := split_hyphen_aux s [].

(** [Number(piece)] for the pieces of a scale string: the empty piece is
    [0], a run of decimal digits is its value, anything else is [NaN]
    ([None]).  Scale strings hold digits, blanks and hyphens only. *)
Fixpoint digits_value (acc : Z) (l : list ascii) : option Z :=
  match l with
  | [] => Some acc
  | c :: r => if is_digit c then digits_value (10 * acc + digit_val c) r else None
  end.

Definition Number (piece : list ascii) : option Z := digits_value 0 piece.

(** [parseInt(s, 10)]: blanks, an optional sign, then the longest run of
    digits; [None] is [NaN]. *)
Fixpoint skip_spaces (s : string) : string :=
  match s with
  | String c r => if is_space c then skip_spaces r else s
  | EmptyString => EmptyString
  end.

Fixpoint digit_prefix (acc : Z) (seen : bool) (s : string) : option Z :=
  match s with
  | String c r =>
      if is_digit c then digit_prefix (10 * acc + digit_val c) true r
      else if seen then Some acc else None
  | EmptyString => if seen then Some acc else None
  end.

Definition parseInt (s : string) : option Z :=
  match skip_spaces s with
  | String c r =>
      if Ascii.eqb c "-"%char then Z.opp <$> digit_prefix 0 false r
      else if Ascii.eqb c "+"%char then digit_prefix 0 false r
      else digit_prefix 0 false (String c r)
  | EmptyString => None
  end.

(** [s.endsWith(suffix)]. *)
Definition endsWith (s suffix : string) : bool :=
  let n := String.length s in
  let k := String.length suffix in
  if (k <=? n)%nat then String.eqb (String.substring (n - k) k s) suffix else false.

(** [Array.prototype.sort] with the comparator [key a - key b]: the sort is
    stable, so the result is the arrangement by increasing key in which
    elements of equal keys keep their order.  [insert_by] puts [x], which
    came before the elements of [l], before the first of them whose key is
    not smaller. *)
Fixpoint insert_by {A : Type} (key : A -> Z) (x : A) (l : list A) : list A :=
  match l with
  | [] => [x]
  | y :: r => if key x <=? key y then x :: y :: r else y :: insert_by key x r
  end.

Definition sort_by {A : Type} (key : A -> Z) (l : list A) : list A :=
  foldr (insert_by key) [] l.

End Js.

Arguments Js.round_times : simpl never.

(** ** Dates (ECMAScript time values, in whole days) *)

Definition Date : Type := Z.

Module JsDate.

Definition DayFromYear (y : Z) : Z :=
  365 * (y - 1970) + (y - 1969) / 4 - (y - 1901) / 100 + (y - 1601) / 400.

Definition InLeapYear (y : Z) : bool :=
  (y mod 4 =? 0) && (negb (y mod 100 =? 0) || (y mod 400 =? 0)).

(** The largest year whose first day is not after [d]. *)
Definition YearFromDay (d : Z) : Z :=
  let y := 1970 + (400 * d) / 146097 in
  if DayFromYear (y + 1) <=? d then y + 1
  else if DayFromYear y <=? d then y
  else y - 1.

(** Day number, within its year, of the first day of month [m] (0-based). *)
Definition monthStart (leap : bool) (m : Z) : Z :=
  let l := if leap then 1 else 0 in
  if m <=? 0 then 0
  else if m =? 1 then 31
  else if m =? 2 then 59 + l
  else if m =? 3 then 90 + l
  else if m =? 4 then 120 + l
  else if m =? 5 then 151 + l
  else if m =? 6 then 181 + l
  else if m =? 7 then 212 + l
  else if m =? 8 then 243 + l
  else if m =? 9 then 273 + l
  else if m =? 10 then 304 + l
  else 334 + l.

Definition MonthFromDay (d : Z) : Z :=
  let y := YearFromDay d in
  let dy := d - DayFromYear y in
  let leap := InLeapYear y in
  if dy <? monthStart leap 1 then 0
  else if dy <? monthStart leap 2 then 1
  else if dy <? monthStart leap 3 then 2
  else if dy <? monthStart leap 4 then 3
  else if dy <? monthStart leap 5 then 4
  else if dy <? monthStart leap 6 then 5
  else if dy <? monthStart leap 7 then 6
  else if dy <? monthStart leap 8 then 7
  else if dy <? monthStart leap 9 then 8
  else if dy <? monthStart leap 10 then 9
  else if dy <? monthStart leap 11 then 10
  else 11.

Definition DateFromDay (d : Z) : Z :=
  let y := YearFromDay d in
  d - DayFromYear y - monthStart (InLeapYear y) (MonthFromDay d) + 1.

(** [MakeDay(year, month, date)]: months beyond the year carry over, and so
    do days beyond the month. *)
Definition MakeDay (year month date : Z) : Z :=
  let ym := year + month / 12 in
  let mn := month mod 12 in
  DayFromYear ym + monthStart (InLeapYear ym) mn + date - 1.

Definition getUTCFullYear (d : Date) : Z := YearFromDay d.
Definition getUTCMonth (d : Date) : Z := MonthFromDay d.
Definition getUTCDate (d : Date) : Z := DateFromDay d.

Definition setUTCMonth (d : Date) (m : Z) : Date :=
  MakeDay (getUTCFullYear d) m (getUTCDate d).
Definition setUTCFullYear (d : Date) (y : Z) : Date :=
  MakeDay y (getUTCMonth d) (getUTCDate d).
Definition setUTCDate (d : Date) (dt : Z) : Date :=
  MakeDay (getUTCFullYear d) (getUTCMonth d) dt.

(** [Date.UTC(year, month, date)], with its two-digit-year rule. *)
Definition UTC (year month date : Z) : Date :=
  let y := if (0 <=? year) && (year <=? 99) then 1900 + year else year in
  MakeDay y month date.

(** The date written [YYYY-MM-DD]. *)
Definition ymd (y m d : Z) : Date := MakeDay y (m - 1) d.

End JsDate.

Import JsDate.

(** ** Reference tables ([constants.ts]) and data types ([types.ts]) *)

Inductive CityClass : Type := CityA | CityB | CityC.

Inductive CityGrade : Type := GRADE_I_A | GRADE_I_B | GRADE_II | GRADE_III | GRADE_IV.

(** The string value of each member of the [CityGrade] enum. *)
Definition cityGradeKey (g : CityGrade) : string :=
  match g with
  | GRADE_I_A => "Grade I(a)"
  | GRADE_I_B => "Grade I(b)"
  | GRADE_II => "Grade II"
  | GRADE_III => "Grade III"
  | GRADE_IV => "Grade IV (Unclassified)"
  end.

Record DaRateEntry : Type := {
  da_date : Date;
  da_rate : Z;
  da_commission : Z
}.

Record HraSlab : Type := {
  payRange : Z * Z;
  rates : gmap string Z
}.

Record PayScale : Type := {
  ps_id : string;
  ps_scale : string;
  ps_payBand : string;
  ps_gradePay : Z
}.

Record LegacyPayScale : Type := {
  ls_id : string;
  ls_scale : string
}.

Record PayBandLimits : Type := {
  band_min : Z;
  band_max : Z
}.

Record GradeScales : Type := {
  gs_selection : option string;
  gs_special : option string
}.

Record PayRevision2010 : Type := {
  rev_postId : string;
  rev_revisedScaleId : string;
  rev_revisedLevel : Z;
  rev_description : string
}.

(** The reference tables of [constants.ts], with the shapes that
    [payrollService.ts] reads them in.  The engine is a function of them: they
    are a parameter of every definition below ([K : Constants]). *)
Record Constants : Type := {
  PAY_MATRIX : gmap Z (list Z);
  GRADE_PAY_TO_LEVEL : gmap Z Z;
  DA_RATES : list DaRateEntry;
  HRA_SLABS_7TH_PC : list HraSlab;
  HRA_SLABS_6TH_PC : list HraSlab;
  HRA_SLABS_6TH_PC_PRE_2009 : list HraSlab;
  HRA_SLABS_5TH_PC : list HraSlab;
  HRA_SLABS_4TH_PC : list HraSlab;
  HRA_SLABS_3RD_PC : list HraSlab;
  PAY_SCALES_6TH_PC : list PayScale;
  PAY_SCALES_5TH_PC : list LegacyPayScale;
  PAY_SCALES_4TH_PC : list LegacyPayScale;
  PAY_SCALES_3RD_PC : list LegacyPayScale;
  PAY_REVISIONS_2010 : list PayRevision2010;
  CCA_RATES : CityClass -> option Z;
  FIFTH_PC_SG_SP_GRADE_MAPPING : gmap string GradeScales;
  PAY_BAND_LIMITS_6TH_PC : gmap Z PayBandLimits
}.

Record Promotion : Type := {
  promo_date : option Date;
  promo_post : string;
  promo_gradePay : option Z;
  promo_level : option string
}.

Inductive IncrementMonth : Type := jan | apr | jul | oct.

(** The object literal [{ 'jan': 0, 'apr': 3, 'jul': 6, 'oct': 9 }]. *)
Definition incrementMonthIndex (m : IncrementMonth) : Z :=
  match m with
  | jan => 0
  | apr => 3
  | jul => 6
  | oct => 9
  end.

Record AnnualIncrementChange : Type := {
  effectiveDate : option Date;
  incrementMonth : IncrementMonth
}.

Record AccountTestPass : Type := {
  passDate : option Date;
  at_description : string
}.

Record BreakInService : Type := {
  startDate : option Date;
  endDate : option Date
}.

Inductive ProbationPeriodType : Type := OneYear | TwoYears | Custom.

Inductive TestStatus : Type := NotAppeared | Pending | Passed | Failed | Exempted.

(** The fields of [EmployeeInput] that the engine computes with; the identity
    fields and the advances, which are only echoed, are left out. *)
Record EmployeeInput : Type := {
  dateOfJoining : option Date;
  dateOfRelief : option Date;
  annualIncrementChanges : list AnnualIncrementChange;
  joiningPostId : option string;
  joiningBasicPay3rdPC : option Z;
  joiningScaleId3rdPC : option string;
  joiningBasicPay4thPC : option Z;
  joiningScaleId4thPC : option string;
  joiningBasicPay5thPC : option Z;
  joiningScaleId5thPC : option string;
  joiningPayInPayBand : option Z;
  joiningScaleId6thPC : option string;
  joiningLevel : option string;
  selectionGradeDate : option Date;
  selectionGradeTwoIncrements : bool;
  specialGradeDate : option Date;
  specialGradeTwoIncrements : bool;
  promotions : list Promotion;
  breaksInService : list BreakInService;
  accountTestPasses : list AccountTestPass;
  incrementEligibilityMonths : option Z;
  cityClass : CityClass;
  daOverride : option Z;
  calculationStartDate : option Date;
  calculationEndDate : option Date;
  medicalAllowance : Z;
  cpsGpfContributionRate : Z;
  professionalTax : Z;
  gisContribution : Z;
  probationPeriodType : ProbationPeriodType;
  probationPeriodMonths : option Z;
  probationStartDate : option Date;
  hasTestRequirement : bool;
  testStatus : option TestStatus;
  testPassedDate : option Date
}.

(** The sentence carried by an [EligibilityResult]. *)
Inductive EligibilityRemark : Type :=
  | ProbationTerminated
  | EligibleNormalRules
  | NoTestRequirement
  | FirstSanctionedAfterTest (effective : Date)
  | FirstWithheld
  | TestAppliesToFirstOnly (n : Z)
  | FirstGrantedTwoYear
  | SecondSanctionedAfterTest (effective : Date)
  | SecondWithheld
  | TestAppliesToSecondOnly (n : Z).

(** The sentences pushed on a month's [remarks]. *)
Inductive Remark : Type :=
  | PayFixedInCommission (commission : Z)
  | CcaAbolished
  | DaOverrideApplied
  | AccountTestPassedOn (d : Date)
  | GradeScaleMoved (selection : bool) (oldScale : option string) (newScale : string)
      (oldPay newPay : Z)
  | GradeOneIncrementNoMapping (selection : bool) (ordinaryScale : string)
  | GradeOneIncrement (selection : bool)
  | GradeIncrements (selection : bool) (steps oldPay newPay : Z)
  | PromotionTo (post : string)
  | PromotionFixedInLevel (notional newLevel pay : Z)
  | PromotionFixedInGradePay (notional gradePay pay : Z)
  | PromotionSimplified
  | AnnualIncrementApplied (n : Z) (why : EligibilityRemark)
  | AccountTestIncrementApplied
  | AnnualIncrementWithheld (n : Z) (why : EligibilityRemark).

Inductive DeductionName : Type := CPS_GPF | ProfessionalTax | GIS.

Record Deduction : Type := {
  ded_name : DeductionName;
  ded_amount : Z
}.

(** [period] is kept as the date whose month and year the source formats. *)
Record PayrollPeriod : Type := {
  period : Date;
  basicPay : Z;
  daRate : Z;
  daAmount : Z;
  hra : Z;
  cca : Z;
  pp_medicalAllowance : Z;
  grossPay : Z;
  deductions : list Deduction;
  totalDeductions : Z;
  netPay : Z;
  pp_remarks : list Remark;
  commission : Z;
  payInPayBand : option Z;
  gradePay : option Z
}.

Record PayrollYear : Type := {
  year : Z;
  periods : list PayrollPeriod
}.

Record Fixation4thPC : Type := {
  f4_basicPay1986 : Z;
  f4_daPortion : Z;
  f4_totalPay : Z;
  f4_initialRevisedPay : Z
}.

Record Fixation5thPC : Type := {
  f5_basicPay1995 : Z;
  f5_daPortion : Z;
  f5_totalPay : Z;
  f5_interimRelief : Z;
  f5_initialRevisedPay : Z
}.

Record Fixation6thPC : Type := {
  f6_basicPay2005 : Z;
  f6_multipliedPay : Z;
  f6_initialPayInPayBand : Z;
  f6_initialGradePay : Z;
  f6_initialRevisedBasicPay : Z
}.

Record Fixation7thPC : Type := {
  f7_oldBasicPay : Z;
  f7_multipliedPay : Z;
  f7_initialRevisedPay : Z;
  f7_level : Z
}.

Record IncrementAnalysis : Type := {
  regular : Z;
  selectionGrade : Z;
  specialGrade : Z;
  promotion : Z;
  accountTest : Z;
  total : Z
}.

Record Fixations : Type := {
  fixation4thPC : option Fixation4thPC;
  fixation5thPC : option Fixation5thPC;
  fixation6thPC : option Fixation6thPC;
  fixation7thPC : option Fixation7thPC
}.

(** The part of [PayrollResult] that the simulation computes: the four
    fixation snapshots, the yearly groups and the increment counters. *)
Record PayrollResult : Type := {
  fixations : Fixations;
  yearlyCalculations : list PayrollYear;
  incrementAnalysis : IncrementAnalysis
}.

(** ** Pay calculation helpers *)

Definition mapCityClassToGrade (c : CityClass) : CityGrade :=
  match c with
  | CityA => GRADE_I_A
  | CityB => GRADE_I_B
  | CityC => GRADE_II
  end.

Record Stage : Type := {
  st_from : Z;
  st_to : Z;
  st_inc : Z
}.

Record Scale : Type := {
  stages : list Stage;
  sc_start : Z;
  sc_max : Z
}.

(** The loop [for (i = 0; i < parts.length - 2; i += 2)] of [parseScale]. *)
Fixpoint mkStages (parts : list Z) : list Stage :=
  match parts with
  | a :: b :: ((c :: _) as rest) =>
      {| st_from := a; st_to := c; st_inc := b |} :: mkStages rest
  | _ => []
  end.

Definition parseScale (scale : string) : Scale :=
  match mapM Js.Number (Js.split_hyphen (Js.remove_spaces scale)) with
  | None => {| stages := []; sc_start := 0; sc_max := 0 |}
  | Some parts =>
      {| stages := mkStages parts;
         sc_start := default 0 (head parts);
         sc_max := default 0 (last parts) |}
  end.

(** One pass of the inner [for (const stage of scale.stages)] loop: the
    increment of the first stage whose [to] is above the pay, else that of
    the last stage. *)
Definition scaleStep (sc : Scale) (pay : Z) : Z :=
  match List.find (fun st => pay <? st_to st) (stages sc) with
  | Some st => pay + st_inc st
  | None =>
      match last (stages sc) with
      | Some st => pay + st_inc st
      | None => pay
      end
  end.

(** The [while (pay <= currentPay && pay < scale.max)] loop.  Parsed
    increments are not negative, so the loop either ends within
    [currentPay - start + 1] rounds or adds a zero increment for ever. *)
Fixpoint nextHigherLoop (fuel : nat) (sc : Scale) (currentPay pay : Z) : res Z :=
  if (pay <=? currentPay) && (pay <? sc_max sc) then
    match fuel with
    | O => Throw DoesNotReturn
    | S fuel' => nextHigherLoop fuel' sc currentPay (scaleStep sc pay)
    end
  else OK pay.

Definition findNextHigherStageInScale (currentPay : Z) (newScaleString : string) : res Z :=
  let scale := parseScale newScaleString in
  if bool_decide (stages scale = []) then OK currentPay
  else if sc_max scale <=? currentPay then OK (sc_max scale)
  else if currentPay <? sc_start scale then OK (sc_start scale)
  else
    pay ← nextHigherLoop (Z.to_nat (currentPay - sc_start scale + 1)) scale currentPay
          (sc_start scale);
    OK (Z.min pay (sc_max scale)).

Fixpoint incrementInScaleLoop (steps : nat) (sc : Scale) (newPay : Z) : Z :=
  match steps with
  | O => newPay
  | S steps' =>
      if sc_max sc <=? newPay then sc_max sc
      else
        let p := scaleStep sc newPay in
        incrementInScaleLoop steps' sc (if sc_max sc <? p then sc_max sc else p)
  end.

Definition getIncrementInScale (currentPay : Z) (scaleString : string) (steps : Z) : Z :=
  let scale := parseScale scaleString in
  if bool_decide (stages scale = []) then currentPay
  else incrementInScaleLoop (Z.to_nat steps) scale currentPay.

(** A call [getIncrementInScale(pay, currentScaleString!, steps)]: on an
    undefined scale string [parseScale] fails on [undefined.replace]. *)
Definition getIncrementInScale_opt (currentPay : Z) (scaleString : option string)
    (steps : Z) : res Z :=
  s ← fromOption TypeError scaleString;
  OK (getIncrementInScale currentPay s steps).

Fixpoint findIndex {A : Type} (f : A -> bool) (l : list A) : option nat :=
  match l with
  | [] => None
  | x :: r => if f x then Some O else S <$> findIndex f r
  end.

(** [arr[i]] for a numeric index. *)
Definition at_index {A : Type} (l : list A) (i : Z) : option A :=
  if i <? 0 then None else l !! Z.to_nat i.

(** The loop of the 6th-commission branch of [getIncrement]. *)
Fixpoint increment6Loop (steps : nat) (limits : option PayBandLimits) (gradePay : Z)
    (payInPayBand : Z) : Z :=
  match steps with
  | O => payInPayBand
  | S steps' =>
      let atMax :=
        match limits with
        | Some l => band_max l <=? payInPayBand
        | None => false
        end in
      if atMax then payInPayBand
      else
        let incrementAmount := Js.round_times (payInPayBand + gradePay) 3 100 in
        increment6Loop steps' limits gradePay (payInPayBand + incrementAmount)
  end.

Record EligibilityResult : Type := {
  eligible : bool;
  er_effectiveDate : Date;
  er_remarks : EligibilityRemark
}.

Record ProbationEligibilityCheck : Type := {
  incrementNumber : Z;
  pc_probationPeriodType : ProbationPeriodType;
  pc_probationPeriodMonths : option Z;
  pc_hasTestRequirement : bool;
  pc_testStatus : option TestStatus;
  pc_testPassedDate : option Date;
  normalIncrementDate : Date;
  pc_probationStartDate : option Date
}.

Definition notPassedNorExempted (s : option TestStatus) : bool :=
  match s with
  | Some Passed | Some Exempted => false
  | _ => true
  end.

Definition probationYearsOf (t : ProbationPeriodType) (months : option Z) : Z :=
  match t with
  | OneYear => 1
  | TwoYears => 2
  | Custom => if Js.or_num months 24 <=? 18 then 1 else 2
  end.

(** Five years are [5 * 365.25] days: a gap of [g] days exceeds them when
    [4 * g > 7305]. *)
Definition moreThanFiveYears (gapDays : Z) : bool := 7305 <? 4 * gapDays.

Definition testGatedIncrement (params : ProbationEligibilityCheck)
    (sanctioned : Date -> EligibilityRemark) (withheld : EligibilityRemark)
    : EligibilityResult :=
  match pc_testStatus params, pc_testPassedDate params with
  | Some Passed, Some passed =>
      let eff := Z.max (normalIncrementDate params) passed in
      {| eligible := true; er_effectiveDate := eff; er_remarks := sanctioned eff |}
  | _, _ =>
      {| eligible := false; er_effectiveDate := normalIncrementDate params;
         er_remarks := withheld |}
  end.

Definition calculateProbationIncrementEligibility (params : ProbationEligibilityCheck)
    : res EligibilityResult :=
  terminated ←
    (if pc_hasTestRequirement params && notPassedNorExempted (pc_testStatus params) then
       start ← fromOption TypeError (pc_probationStartDate params);
       OK (moreThanFiveYears (normalIncrementDate params - start))
     else OK false);
  if terminated : bool then
    OK {| eligible := false; er_effectiveDate := normalIncrementDate params;
          er_remarks := ProbationTerminated |}
  else
    let normal (r : EligibilityRemark) :=
      {| eligible := true; er_effectiveDate := normalIncrementDate params;
         er_remarks := r |} in
    if negb (pc_hasTestRequirement params) then OK (normal NoTestRequirement)
    else
      let probationYears :=
        probationYearsOf (pc_probationPeriodType params) (pc_probationPeriodMonths params) in
      let n := incrementNumber params in
      if probationYears =? 1 then
        if n =? 1 then OK (testGatedIncrement params FirstSanctionedAfterTest FirstWithheld)
        else OK (normal (TestAppliesToFirstOnly n))
      else
        if n =? 1 then OK (normal FirstGrantedTwoYear)
        else if n =? 2 then
          OK (testGatedIncrement params SecondSanctionedAfterTest SecondWithheld)
        else OK (normal (TestAppliesToSecondOnly n)).

Section Engine.

Variable K : Constants.

Definition findPayInMatrix (pay level : Z) : res Z :=
  levelPayScale ← fromOption (InvalidLevel level) (PAY_MATRIX K !! level);
  let lastStage := fromOption UndefinedPay (last levelPayScale) in
  match List.find (fun p => pay <=? p) levelPayScale with
  | Some newPay => if newPay =? 0 then lastStage else OK newPay
  | None => lastStage
  end.

(** [getIncrement]: the new pay and, for the 6th commission, the new pay in
    pay band. *)
Definition getIncrement (currentPay level steps commission : Z) (gradePay : option Z)
    : res (Z * option Z) :=
  if commission =? 7 then
    levelPayScale ← fromOption (InvalidLevelForIncrement level) (PAY_MATRIX K !! level);
    let lastIndex := Z.of_nat (length levelPayScale) - 1 in
    match findIndex (Z.eqb currentPay) levelPayScale with
    | None =>
        match findIndex (fun p => currentPay <? p) levelPayScale with
        | None => OK (currentPay, None)
        | Some nextStepIndex =>
            let newIndex := Z.min (Z.of_nat nextStepIndex + steps - 1) lastIndex in
            newPay ← fromOption UndefinedPay (at_index levelPayScale newIndex);
            OK (newPay, None)
        end
    | Some currentIndex =>
        let newIndex := Z.min (Z.of_nat currentIndex + steps) lastIndex in
        newPay ← fromOption UndefinedPay (at_index levelPayScale newIndex);
        OK (newPay, None)
    end
  else if commission =? 6 then
    gp ← fromOption GradePayRequired gradePay;
    let payBandLimits := PAY_BAND_LIMITS_6TH_PC K !! gp in
    let payInPayBand := increment6Loop (Z.to_nat steps) payBandLimits gp (currentPay - gp) in
    let payInPayBand :=
      match payBandLimits with
      | Some l => if band_max l <? payInPayBand then band_max l else payInPayBand
      | None => payInPayBand
      end in
    OK (payInPayBand + gp, Some payInPayBand)
  else Throw (InvalidCommissionForIncrement commission).

Definition fixedDate1986 : Date := ymd 1986 1 1.
Definition fixedDate1996 : Date := ymd 1996 1 1.
Definition fixedDate2006 : Date := ymd 2006 1 1.
Definition fixedDate2016 : Date := ymd 2016 1 1.

Definition getHra (basicPay : Z) (cityGrade : CityGrade) (date : Date) : Z :=
  let slabs :=
    if fixedDate2016 <=? date then HRA_SLABS_7TH_PC K
    else if fixedDate2006 <=? date then
      (if date <? ymd 2009 6 1 then HRA_SLABS_6TH_PC_PRE_2009 K else HRA_SLABS_6TH_PC K)
    else if fixedDate1996 <=? date then HRA_SLABS_5TH_PC K
    else if fixedDate1986 <=? date then HRA_SLABS_4TH_PC K
    else HRA_SLABS_3RD_PC K in
  match List.find (fun s => (fst (payRange s) <=? basicPay) && (basicPay <=? snd (payRange s)))
          slabs with
  | None => 0
  | Some slab =>
      Js.or_num (rates slab !! cityGradeKey cityGrade)
        (Js.or_num (rates slab !! "Unclassified"%string) 0)
  end.

End Engine.

(** ** The simulation state *)

(** The pay structure variables of [calculateFullPayroll]. *)
Record PayState : Type := {
  currentPay : Z;
  currentCommission : Z;
  currentLevel : Z;
  currentPipb : option Z;
  currentGradePay : option Z;
  currentScaleString : option string;
  currentOrdinaryScaleString : option string
}.

(** The remaining [let] variables of the function, with the two locals of
    the loop body, [remarks] and [didIncrementThisMonth]. *)
Record State : Type := {
  pay : PayState;
  snapshots : Fixations;
  counters : IncrementAnalysis;
  accountTestIncrementPending : bool;
  currentDate : Date;
  currentDaRate : Z;
  incrementsGranted : Z;
  nextScheduledIncrementDate : option Date;
  remarks : list Remark;
  didIncrementThisMonth : bool
}.

Definition with_pay (st : State) (p : PayState) : State :=
  {| pay := p; snapshots := snapshots st; counters := counters st;
     accountTestIncrementPending := accountTestIncrementPending st;
     currentDate := currentDate st; currentDaRate := currentDaRate st;
     incrementsGranted := incrementsGranted st;
     nextScheduledIncrementDate := nextScheduledIncrementDate st;
     remarks := remarks st; didIncrementThisMonth := didIncrementThisMonth st |}.

Definition with_snapshots (st : State) (f : Fixations) : State :=
  {| pay := pay st; snapshots := f; counters := counters st;
     accountTestIncrementPending := accountTestIncrementPending st;
     currentDate := currentDate st; currentDaRate := currentDaRate st;
     incrementsGranted := incrementsGranted st;
     nextScheduledIncrementDate := nextScheduledIncrementDate st;
     remarks := remarks st; didIncrementThisMonth := didIncrementThisMonth st |}.

Definition with_counters (st : State) (c : IncrementAnalysis) : State :=
  {| pay := pay st; snapshots := snapshots st; counters := c;
     accountTestIncrementPending := accountTestIncrementPending st;
     currentDate := currentDate st; currentDaRate := currentDaRate st;
     incrementsGranted := incrementsGranted st;
     nextScheduledIncrementDate := nextScheduledIncrementDate st;
     remarks := remarks st; didIncrementThisMonth := didIncrementThisMonth st |}.

Definition with_pending (st : State) (b : bool) : State :=
  {| pay := pay st; snapshots := snapshots st; counters := counters st;
     accountTestIncrementPending := b;
     currentDate := currentDate st; currentDaRate := currentDaRate st;
     incrementsGranted := incrementsGranted st;
     nextScheduledIncrementDate := nextScheduledIncrementDate st;
     remarks := remarks st; didIncrementThisMonth := didIncrementThisMonth st |}.

Definition with_date (st : State) (d : Date) : State :=
  {| pay := pay st; snapshots := snapshots st; counters := counters st;
     accountTestIncrementPending := accountTestIncrementPending st;
     currentDate := d; currentDaRate := currentDaRate st;
     incrementsGranted := incrementsGranted st;
     nextScheduledIncrementDate := nextScheduledIncrementDate st;
     remarks := remarks st; didIncrementThisMonth := didIncrementThisMonth st |}.

Definition with_daRate (st : State) (r : Z) : State :=
  {| pay := pay st; snapshots := snapshots st; counters := counters st;
     accountTestIncrementPending := accountTestIncrementPending st;
     currentDate := currentDate st; currentDaRate := r;
     incrementsGranted := incrementsGranted st;
     nextScheduledIncrementDate := nextScheduledIncrementDate st;
     remarks := remarks st; didIncrementThisMonth := didIncrementThisMonth st |}.

Definition with_schedule (st : State) (granted : Z) (next : option Date) : State :=
  {| pay := pay st; snapshots := snapshots st; counters := counters st;
     accountTestIncrementPending := accountTestIncrementPending st;
     currentDate := currentDate st; currentDaRate := currentDaRate st;
     incrementsGranted := granted;
     nextScheduledIncrementDate := next;
     remarks := remarks st; didIncrementThisMonth := didIncrementThisMonth st |}.

Definition with_month_locals (st : State) (rs : list Remark) (did : bool) : State :=
  {| pay := pay st; snapshots := snapshots st; counters := counters st;
     accountTestIncrementPending := accountTestIncrementPending st;
     currentDate := currentDate st; currentDaRate := currentDaRate st;
     incrementsGranted := incrementsGranted st;
     nextScheduledIncrementDate := nextScheduledIncrementDate st;
     remarks := rs; didIncrementThisMonth := did |}.

(** [remarks.push(r)]. *)
Definition push_remark (st : State) (r : Remark) : State :=
  with_month_locals st (remarks st ++ [r]) (didIncrementThisMonth st).

Definition set_did (st : State) : State := with_month_locals st (remarks st) true.

(** [currentPay = newPay; if (newPipb !== undefined) currentPipb = newPipb]. *)
Definition take_increment (p : PayState) (newPay : Z) (newPipb : option Z) : PayState :=
  {| currentPay := newPay; currentCommission := currentCommission p;
     currentLevel := currentLevel p;
     currentPipb := match newPipb with Some x => Some x | None => currentPipb p end;
     currentGradePay := currentGradePay p;
     currentScaleString := currentScaleString p;
     currentOrdinaryScaleString := currentOrdinaryScaleString p |}.

Definition set_currentPay (p : PayState) (newPay : Z) : PayState :=
  take_increment p newPay None.

(** The counters [incrementAnalysis.x++; incrementAnalysis.total++]. *)
Inductive Counter : Type := CRegular | CSelectionGrade | CSpecialGrade | CPromotion | CAccountTest.

Definition count (a : IncrementAnalysis) (c : Counter) : IncrementAnalysis :=
  let bump (k : Counter) (v : Z) :=
    match c, k with
    | CRegular, CRegular | CSelectionGrade, CSelectionGrade
    | CSpecialGrade, CSpecialGrade | CPromotion, CPromotion
    | CAccountTest, CAccountTest => v + 1
    | _, _ => v
    end in
  {| regular := bump CRegular (regular a);
     selectionGrade := bump CSelectionGrade (selectionGrade a);
     specialGrade := bump CSpecialGrade (specialGrade a);
     promotion := bump CPromotion (promotion a);
     accountTest := bump CAccountTest (accountTest a);
     total := total a + 1 |}.

(** ** Events *)

Inductive EventType : Type :=
  | DA_CHANGE (da : DaRateEntry)
  | PAY_COMMISSION_4
  | PAY_COMMISSION_5
  | PAY_COMMISSION_6
  | PAY_COMMISSION_7
  | SELECTION_GRADE (applyFixation : bool)
  | SPECIAL_GRADE (applyFixation : bool)
  | PROMOTION (p : Promotion)
  | ACCOUNT_TEST_PASS (a : AccountTestPass)
  | PAY_REVISION_2010 (rev : PayRevision2010).

Record Event : Type := {
  ev_date : Date;
  ev_type : EventType;
  ev_priority : Z
}.

(** ** The simulator *)

Section Simulator.

Variable K : Constants.
Variable data : EmployeeInput.

(** *** Initial pay fixation, at the date of joining *)

Definition joinInScale (commission : Z) (basic : option Z) (scaleId : option string)
    (table : list LegacyPayScale) (keepOrdinary : bool) : res PayState :=
  match basic, scaleId with
  | Some joiningBasicPay, Some joiningScaleId =>
      if String.eqb joiningScaleId "" then Throw (JoiningFieldsMissing commission)
      else
        scaleInfo ← fromOption (InvalidScaleId commission)
                      (List.find (fun s => String.eqb (ls_id s) joiningScaleId) table);
        OK {| currentPay := joiningBasicPay; currentCommission := commission;
              currentLevel := 0; currentPipb := None; currentGradePay := None;
              currentScaleString := Some (ls_scale scaleInfo);
              currentOrdinaryScaleString :=
                if keepOrdinary then Some (ls_scale scaleInfo) else None |}
  | _, _ => Throw (JoiningFieldsMissing commission)
  end.

Definition initialFixation (doj : Date) : res PayState :=
  if doj <? fixedDate1986 then
    joinInScale 3 (joiningBasicPay3rdPC data) (joiningScaleId3rdPC data)
      (PAY_SCALES_3RD_PC K) false
  else if doj <? fixedDate1996 then
    joinInScale 4 (joiningBasicPay4thPC data) (joiningScaleId4thPC data)
      (PAY_SCALES_4TH_PC K) false
  else if doj <? fixedDate2006 then
    joinInScale 5 (joiningBasicPay5thPC data) (joiningScaleId5thPC data)
      (PAY_SCALES_5TH_PC K) true
  else if doj <? fixedDate2016 then
    match joiningPayInPayBand data, joiningScaleId6thPC data with
    | Some pipb, Some scaleId =>
        if String.eqb scaleId "" then Throw (JoiningFieldsMissing 6)
        else
          scaleInfo ← fromOption (InvalidScaleId 6)
                        (List.find (fun s => String.eqb (ps_id s) scaleId) (PAY_SCALES_6TH_PC K));
          OK {| currentPay := pipb + ps_gradePay scaleInfo; currentCommission := 6;
                currentLevel := 0; currentPipb := Some pipb;
                currentGradePay := Some (ps_gradePay scaleInfo);
                currentScaleString := None; currentOrdinaryScaleString := None |}
    | _, _ => Throw (JoiningFieldsMissing 6)
    end
  else
    if Js.truthy_str (joiningLevel data) then
      level ← fromOption TypeError (joiningLevel data ≫= Js.parseInt);
      row ← fromOption TypeError (PAY_MATRIX K !! level);
      first ← fromOption UndefinedPay (head row);
      OK {| currentPay := first; currentCommission := 7; currentLevel := level;
            currentPipb := None; currentGradePay := None;
            currentScaleString := None; currentOrdinaryScaleString := None |}
    else Throw (JoiningFieldsMissing 7).

(** *** Breaks in service, events and the increment schedule *)

Definition totalBreakDays : Z :=
  fold_left
    (fun total b =>
       match startDate b, endDate b with
       | Some s, Some e => if s <? e then total + (e - s) else total
       | _, _ => total
       end)
    (breaksInService data) 0.

Definition fixedEvent (d : Date) (t : EventType) : Event :=
  {| ev_date := d; ev_type := t; ev_priority := 2 |}.

Definition datedEvent (d : option Date) (t : EventType) : list Event :=
  match d with
  | Some d => [ {| ev_date := d; ev_type := t; ev_priority := 3 |} ]
  | None => []
  end.

Definition events : list Event :=
  map (fun da => {| ev_date := da_date da; ev_type := DA_CHANGE da; ev_priority := 1 |})
    (DA_RATES K)
  ++ [ fixedEvent fixedDate1986 PAY_COMMISSION_4;
       fixedEvent fixedDate1996 PAY_COMMISSION_5;
       fixedEvent fixedDate2006 PAY_COMMISSION_6;
       fixedEvent fixedDate2016 PAY_COMMISSION_7 ]
  ++ datedEvent (selectionGradeDate data) (SELECTION_GRADE (selectionGradeTwoIncrements data))
  ++ datedEvent (specialGradeDate data) (SPECIAL_GRADE (specialGradeTwoIncrements data))
  ++ concat (map (fun p => datedEvent (promo_date p) (PROMOTION p)) (promotions data))
  ++ concat (map (fun a => datedEvent (passDate a) (ACCOUNT_TEST_PASS a))
               (accountTestPasses data))
  ++ map (fun rev => {| ev_date := ymd 2010 8 1; ev_type := PAY_REVISION_2010 rev;
                        ev_priority := 3 |})
       (PAY_REVISIONS_2010 K).

Definition hasEffectiveDate (c : AnnualIncrementChange) : bool :=
  match effectiveDate c with
  | Some _ => true
  | None => false
  end.

Definition effectiveTime (c : AnnualIncrementChange) : Z := default 0 (effectiveDate c).

Definition sortedIncrementChanges : list AnnualIncrementChange :=
  Js.sort_by effectiveTime (List.filter hasEffectiveDate (annualIncrementChanges data)).

(** The first [nextScheduledIncrementDate], computed before the loop. *)
Definition firstScheduledIncrementDate (doj : Date) : option Date :=
  match sortedIncrementChanges with
  | [] => None
  | first :: _ =>
      let firstEligibleDate :=
        setUTCMonth doj (getUTCMonth doj + default 6 (incrementEligibilityMonths data)) in
      let firstIncrementMonth := incrementMonthIndex (incrementMonth first) in
      let year := getUTCFullYear firstEligibleDate in
      let year :=
        if firstIncrementMonth <? getUTCMonth firstEligibleDate then year + 1 else year in
      let next := UTC year firstIncrementMonth 1 in
      Some (if 0 <? totalBreakDays
            then setUTCDate next (getUTCDate next + totalBreakDays)
            else next)
  end.

Definition sameMonth (currentDate : Date) (e : Event) : bool :=
  (getUTCFullYear (ev_date e) =? getUTCFullYear currentDate)
  && (getUTCMonth (ev_date e) =? getUTCMonth currentDate).

Definition monthEvents (currentDate : Date) : list Event :=
  Js.sort_by ev_priority (List.filter (sameMonth currentDate) events).

(** *** Pay commission fixation *)

Definition scaleKey (s : option string) : string := default "undefined"%string s.

Definition fixInScale (from : Z) (table : list LegacyPayScale) (totalPay : Z)
    (p : PayState) : res (Z * string) :=
  corresponding ← fromOption (CouldNotMapScale from)
    (List.find (fun s => Js.endsWith (ls_id s) (scaleKey (currentScaleString p))) table);
  newPay ← findNextHigherStageInScale totalPay (ls_scale corresponding);
  OK (newPay, ls_scale corresponding).

Definition payCommission4 (st : State) : res State :=
  let p := pay st in
  if currentCommission p =? 3 then
    let basicPay1986 := currentPay p in
    let daPortion := 0 in
    let totalPay := basicPay1986 + daPortion in
    '(newPay, newScale) ← fixInScale 3 (PAY_SCALES_4TH_PC K) totalPay p;
    let p' :=
      {| currentPay := newPay; currentCommission := 4; currentLevel := currentLevel p;
         currentPipb := currentPipb p; currentGradePay := currentGradePay p;
         currentScaleString := Some newScale;
         currentOrdinaryScaleString := currentOrdinaryScaleString p |} in
    let f := snapshots st in
    let f' :=
      {| fixation4thPC :=
           Some {| f4_basicPay1986 := basicPay1986; f4_daPortion := daPortion;
                   f4_totalPay := totalPay; f4_initialRevisedPay := newPay |};
         fixation5thPC := fixation5thPC f; fixation6thPC := fixation6thPC f;
         fixation7thPC := fixation7thPC f |} in
    OK (push_remark (with_snapshots (with_pay st p') f') (PayFixedInCommission 4))
  else OK st.

Definition payCommission5 (st : State) : res State :=
  let p := pay st in
  if currentCommission p =? 4 then
    let basicPay1995 := currentPay p in
    let daPortion := 958 in
    let interimRelief := 100 in
    let totalPay := basicPay1995 + daPortion + interimRelief in
    '(newPay, newScale) ← fixInScale 4 (PAY_SCALES_5TH_PC K) totalPay p;
    let p' :=
      {| currentPay := newPay; currentCommission := 5; currentLevel := currentLevel p;
         currentPipb := currentPipb p; currentGradePay := currentGradePay p;
         currentScaleString := Some newScale;
         currentOrdinaryScaleString := Some newScale |} in
    let f := snapshots st in
    let f' :=
      {| fixation4thPC := fixation4thPC f;
         fixation5thPC :=
           Some {| f5_basicPay1995 := basicPay1995; f5_daPortion := daPortion;
                   f5_totalPay := totalPay; f5_interimRelief := interimRelief;
                   f5_initialRevisedPay := newPay |};
         fixation6thPC := fixation6thPC f; fixation7thPC := fixation7thPC f |} in
    OK (push_remark (with_snapshots (with_pay st p') f') (PayFixedInCommission 5))
  else OK st.

(** [Math.round(basicPay2005 * 1.86)]. *)
Definition fitment6 (basicPay2005 : Z) : Z := Js.round_times basicPay2005 186 100.

(** [Math.round(oldBasicPay * 2.57)]. *)
Definition fitment7 (oldBasicPay : Z) : Z := Js.round_times oldBasicPay 257 100.

Definition sameScale (s : option string) (ps : PayScale) : bool :=
  match s with
  | Some s => String.eqb (ps_scale ps) s
  | None => false
  end.

Definition payCommission6 (st : State) : res State :=
  let p := pay st in
  if currentCommission p =? 5 then
    let basicPay2005 := currentPay p in
    let multipliedPay := fitment6 basicPay2005 in
    scaleInfo ← fromOption (CouldNotMapScale 5)
      (List.find (sameScale (currentScaleString p)) (PAY_SCALES_6TH_PC K));
    let pipb := multipliedPay in
    let gp := ps_gradePay scaleInfo in
    let p' :=
      {| currentPay := pipb + gp; currentCommission := 6; currentLevel := currentLevel p;
         currentPipb := Some pipb; currentGradePay := Some gp;
         currentScaleString := currentScaleString p;
         currentOrdinaryScaleString := currentOrdinaryScaleString p |} in
    let f := snapshots st in
    let f' :=
      {| fixation4thPC := fixation4thPC f; fixation5thPC := fixation5thPC f;
         fixation6thPC :=
           Some {| f6_basicPay2005 := basicPay2005; f6_multipliedPay := multipliedPay;
                   f6_initialPayInPayBand := pipb; f6_initialGradePay := gp;
                   f6_initialRevisedBasicPay := pipb + gp |};
         fixation7thPC := fixation7thPC f |} in
    OK (push_remark (with_snapshots (with_pay st p') f') (PayFixedInCommission 6))
  else OK st.

(** [GRADE_PAY_TO_LEVEL[currentGradePay!]], thrown away when falsy. *)
Definition levelForGradePay (gp : option Z) : res Z :=
  match gp ≫= (fun g => GRADE_PAY_TO_LEVEL K !! g) with
  | Some l => if l =? 0 then Throw (NoLevelForGradePay gp) else OK l
  | None => Throw (NoLevelForGradePay gp)
  end.

Definition payCommission7 (st : State) : res State :=
  let p := pay st in
  if currentCommission p =? 6 then
    let oldBasicPay := currentPay p in
    let multipliedPay := fitment7 oldBasicPay in
    levelFor7PC ← levelForGradePay (currentGradePay p);
    newPay ← findPayInMatrix K multipliedPay levelFor7PC;
    let p' :=
      {| currentPay := newPay; currentCommission := 7; currentLevel := levelFor7PC;
         currentPipb := None; currentGradePay := None;
         currentScaleString := currentScaleString p;
         currentOrdinaryScaleString := currentOrdinaryScaleString p |} in
    let f := snapshots st in
    let f' :=
      {| fixation4thPC := fixation4thPC f; fixation5thPC := fixation5thPC f;
         fixation6thPC := fixation6thPC f;
         fixation7thPC :=
           Some {| f7_oldBasicPay := oldBasicPay; f7_multipliedPay := multipliedPay;
                   f7_initialRevisedPay := newPay; f7_level := levelFor7PC |} |} in
    OK (push_remark
          (push_remark (with_snapshots (with_pay st p') f') (PayFixedInCommission 7))
          CcaAbolished)
  else OK st.

(** *** The other events *)

Definition daApplies (da : DaRateEntry) (p : PayState) : bool :=
  (da_commission da =? currentCommission p)
  || ((currentCommission p <? 6) && (da_commission da =? 5)).

Definition daChange (daData : DaRateEntry) (st : State) : State :=
  if daApplies daData (pay st) then
    let st := with_daRate st (default (da_rate daData) (daOverride data)) in
    if negb (Js.or_num (daOverride data) 0 =? 0) then push_remark st DaOverrideApplied
    else st
  else st.

Definition accountTestPass (d : Date) (st : State) : State :=
  push_remark (with_pending st true) (AccountTestPassedOn d).

Definition with_scale (p : PayState) (newPay : Z) (newScale : string) : PayState :=
  {| currentPay := newPay; currentCommission := currentCommission p;
     currentLevel := currentLevel p; currentPipb := currentPipb p;
     currentGradePay := currentGradePay p; currentScaleString := Some newScale;
     currentOrdinaryScaleString := currentOrdinaryScaleString p |}.

(** [SELECTION_GRADE] ([selection = true]) and [SPECIAL_GRADE]. *)
Definition gradeEvent (selection applyFixation : bool) (st : State) : res State :=
  if didIncrementThisMonth st then OK st
  else
    let p := pay st in
    let oldPay := currentPay p in
    st1 ←
      (if currentCommission p <? 6 then
         if (currentCommission p =? 5) && applyFixation
            && Js.truthy_str (currentOrdinaryScaleString p) then
           let ordinary := default ""%string (currentOrdinaryScaleString p) in
           let scaleMapping := FIFTH_PC_SG_SP_GRADE_MAPPING K !! ordinary in
           let newScaleString :=
             scaleMapping ≫= (if selection then gs_selection else gs_special) in
           if Js.truthy_str newScaleString then
             let newScale := default ""%string newScaleString in
             newPay ← findNextHigherStageInScale oldPay newScale;
             OK (with_pay
                   (push_remark st
                      (GradeScaleMoved selection (currentScaleString p) newScale oldPay newPay))
                   (with_scale p newPay newScale))
           else
             newPay ← getIncrementInScale_opt oldPay (currentScaleString p) 1;
             OK (push_remark (with_pay st (set_currentPay p newPay))
                   (GradeOneIncrementNoMapping selection ordinary))
         else if Js.truthy_str (currentScaleString p) then
           newPay ← getIncrementInScale_opt oldPay (currentScaleString p) 1;
           OK (push_remark (with_pay st (set_currentPay p newPay))
                 (GradeOneIncrement selection))
         else OK st
       else
         let steps := if applyFixation then 2 else 1 in
         '(newPay, newPipb) ← getIncrement K oldPay (currentLevel p) steps
                                (currentCommission p) (currentGradePay p);
         OK (push_remark (with_pay st (take_increment p newPay newPipb))
               (GradeIncrements selection steps oldPay newPay)));
    let st2 := set_did st1 in
    OK (with_counters st2
          (count (counters st2) (if selection then CSelectionGrade else CSpecialGrade))).

Definition promotionEvent (promoData : Promotion) (st : State) : res State :=
  if didIncrementThisMonth st then OK st
  else
    let p := pay st in
    let oldPay := currentPay p in
    let st := push_remark st (PromotionTo (promo_post promoData)) in
    let st := with_counters st (count (counters st) CPromotion) in
    st1 ←
      (if currentCommission p =? 7 then
         '(notionallyIncrementedPay, _) ← getIncrement K oldPay (currentLevel p) 1 7 None;
         newLevel ← fromOption InvalidPromotionLevel (promo_level promoData ≫= Js.parseInt);
         _ ← fromOption InvalidPromotionLevel (PAY_MATRIX K !! newLevel);
         newPay ← findPayInMatrix K notionallyIncrementedPay newLevel;
         let p' :=
           {| currentPay := newPay; currentCommission := currentCommission p;
              currentLevel := newLevel; currentPipb := currentPipb p;
              currentGradePay := currentGradePay p;
              currentScaleString := currentScaleString p;
              currentOrdinaryScaleString := currentOrdinaryScaleString p |} in
         OK (push_remark (with_pay st p')
               (PromotionFixedInLevel notionallyIncrementedPay newLevel newPay))
       else if currentCommission p =? 6 then
         '(notionallyIncrementedPay, notionallyIncrementedPipb) ←
            getIncrement K oldPay 0 1 6 (currentGradePay p);
         newScaleInfo ← fromOption InvalidPromotionGradePay
           (promo_gradePay promoData ≫=
              (fun g => List.find (fun s => ps_gradePay s =? g) (PAY_SCALES_6TH_PC K)));
         let gp := ps_gradePay newScaleInfo in
         limits ← fromOption TypeError (PAY_BAND_LIMITS_6TH_PC K !! gp);
         notionalPipb ← fromOption UndefinedPay notionallyIncrementedPipb;
         let pipb := Z.max notionalPipb (band_min limits) in
         let p' :=
           {| currentPay := pipb + gp; currentCommission := currentCommission p;
              currentLevel := currentLevel p; currentPipb := Some pipb;
              currentGradePay := Some gp;
              currentScaleString := currentScaleString p;
              currentOrdinaryScaleString := currentOrdinaryScaleString p |} in
         OK (push_remark (with_pay st p')
               (PromotionFixedInGradePay notionallyIncrementedPay gp (pipb + gp)))
       else
         notionallyIncrementedPay ← getIncrementInScale_opt oldPay (currentScaleString p) 1;
         OK (with_pay (push_remark st PromotionSimplified)
               (set_currentPay p notionallyIncrementedPay)));
    OK (set_did st1).

(** The body of [for (const event of monthEvents)]. *)
Definition applyEvent (event : Event) (st : State) : res State :=
  match ev_type event with
  | PAY_COMMISSION_4 => payCommission4 st
  | PAY_COMMISSION_5 => payCommission5 st
  | PAY_COMMISSION_6 => payCommission6 st
  | PAY_COMMISSION_7 => payCommission7 st
  | DA_CHANGE daData => OK (daChange daData st)
  | ACCOUNT_TEST_PASS _ => OK (accountTestPass (ev_date event) st)
  | PAY_REVISION_2010 _ => OK st
  | SELECTION_GRADE applyFixation => gradeEvent true applyFixation st
  | SPECIAL_GRADE applyFixation => gradeEvent false applyFixation st
  | PROMOTION promoData => promotionEvent promoData st
  end.

Fixpoint applyEvents (evs : list Event) (st : State) : res State :=
  match evs with
  | [] => OK st
  | e :: r => st' ← applyEvent e st; applyEvents r st'
  end.

(** *** Annual increment *)

(** One increment by the operator of the current commission. *)
Definition regularIncrement (p : PayState) : res PayState :=
  if currentCommission p <? 6 then
    newPay ← getIncrementInScale_opt (currentPay p) (currentScaleString p) 1;
    OK (set_currentPay p newPay)
  else
    '(newPay, newPipb) ← getIncrement K (currentPay p) (currentLevel p) 1
                           (currentCommission p) (currentGradePay p);
    OK (take_increment p newPay newPipb).

Definition eligibilityCheck (n : Z) (normal : Date) : ProbationEligibilityCheck :=
  {| incrementNumber := n;
     pc_probationPeriodType := probationPeriodType data;
     pc_probationPeriodMonths := probationPeriodMonths data;
     pc_hasTestRequirement := hasTestRequirement data;
     pc_testStatus := testStatus data;
     pc_testPassedDate := testPassedDate data;
     normalIncrementDate := normal;
     pc_probationStartDate := probationStartDate data |}.

(** The month of the last schedule change in force at [currentDate], else
    of the last change of all. *)
Definition applicableChange (currentDate : Date) : option AnnualIncrementChange :=
  match last (List.filter (fun c => effectiveTime c <=? currentDate) sortedIncrementChanges) with
  | Some c => Some c
  | None => last sortedIncrementChanges
  end.

Definition accountTestIncrement (st : State) : res State :=
  if accountTestIncrementPending st then
    p ← regularIncrement (pay st);
    let st := with_pending (push_remark (with_pay st p) AccountTestIncrementApplied) false in
    OK (with_counters st (count (counters st) CAccountTest))
  else OK st.

Definition annualIncrement (st : State) : res State :=
  match nextScheduledIncrementDate st with
  | None => OK st
  | Some next =>
      if (next <=? currentDate st) && negb (didIncrementThisMonth st) then
        let n := incrementsGranted st + 1 in
        eligibility ← calculateProbationIncrementEligibility (eligibilityCheck n next);
        if eligible eligibility && (er_effectiveDate eligibility <=? currentDate st) then
          p ← regularIncrement (pay st);
          let st := push_remark (with_pay st p)
                      (AnnualIncrementApplied n (er_remarks eligibility)) in
          let st := with_counters st (count (counters st) CRegular) in
          st ← accountTestIncrement st;
          let st := set_did st in
          change ← fromOption TypeError (applicableChange (currentDate st));
          let nextMonth := incrementMonthIndex (incrementMonth change) in
          let nextDate :=
            setUTCMonth (setUTCFullYear next (getUTCFullYear next + 1)) nextMonth in
          OK (with_schedule st n (Some nextDate))
        else if negb (eligible eligibility) then
          OK (push_remark st (AnnualIncrementWithheld n (er_remarks eligibility)))
        else OK st
      else OK st
  end.

(** *** The monthly record *)

Definition deductionsOf (cpsGpfAmount : Z) : list Deduction :=
  [ {| ded_name := CPS_GPF; ded_amount := cpsGpfAmount |} ]
  ++ (if 0 <? professionalTax data
      then [ {| ded_name := ProfessionalTax; ded_amount := professionalTax data |} ]
      else [])
  ++ (if 0 <? gisContribution data
      then [ {| ded_name := GIS; ded_amount := gisContribution data |} ]
      else []).

(** [deductions.reduce((sum, d) => sum + d.amount, 0)]. *)
Definition sumDeductions (ds : list Deduction) : Z :=
  fold_left (fun sum d => sum + ded_amount d) ds 0.

Definition monthlyPeriod (st : State) : PayrollPeriod :=
  let p := pay st in
  let daAmount := Js.round_times (currentPay p) (currentDaRate st) 100 in
  let hra := getHra K (currentPay p) (mapCityClassToGrade (cityClass data)) (currentDate st) in
  let cca :=
    if 7 <=? currentCommission p then 0 else Js.or_num (CCA_RATES K (cityClass data)) 0 in
  let medical := medicalAllowance data in
  let grossPay := currentPay p + daAmount + hra + cca + medical in
  let cpsGpfAmount :=
    Js.round_times (currentPay p + daAmount) (cpsGpfContributionRate data) 100 in
  let deductions := deductionsOf cpsGpfAmount in
  let totalDeductions := sumDeductions deductions in
  {| period := currentDate st;
     basicPay := currentPay p;
     daRate := currentDaRate st;
     daAmount := daAmount;
     hra := hra;
     cca := cca;
     pp_medicalAllowance := medical;
     grossPay := grossPay;
     deductions := deductions;
     totalDeductions := totalDeductions;
     netPay := grossPay - totalDeductions;
     pp_remarks := remarks st;
     commission := currentCommission p;
     payInPayBand := currentPipb p;
     gradePay := currentGradePay p |}.

(** *** The loop *)

Definition nextMonthOf (d : Date) : Date := setUTCMonth d (getUTCMonth d + 1).

(** One round of [while (currentDate <= calcEndDate)]: the state after it
    and the record stored for the month, if any. *)
Definition step (calcStartDate : Date) (st : State) : res (State * option PayrollPeriod) :=
  let st := with_month_locals st [] false in
  st ← applyEvents (monthEvents (currentDate st)) st;
  st ← annualIncrement st;
  let stored :=
    if calcStartDate <=? currentDate st then Some (monthlyPeriod st) else None in
  OK (with_date st (nextMonthOf (currentDate st)), stored).

Definition stored_list (o : option PayrollPeriod) : list PayrollPeriod :=
  match o with
  | Some p => [p]
  | None => []
  end.

(** The loop, with the stored records in the order they are stored.  The
    rounds are counted down from [fuel]; [None] means that the count ran
    out before the loop ended. *)
Fixpoint loop (fuel : nat) (calcStartDate calcEndDate : Date) (st : State)
    : option (res (list PayrollPeriod * State)) :=
  if currentDate st <=? calcEndDate then
    match fuel with
    | O => None
    | S fuel' =>
        match step calcStartDate st with
        | Throw err => Some (Throw err)
        | OK (st', stored) =>
            match loop fuel' calcStartDate calcEndDate st' with
            | Some (OK (rest, final)) => Some (OK (stored_list stored ++ rest, final))
            | other => other
            end
        end
    end
  else Some (OK ([], st)).

(** [yearlyCalculationsMap]: a [Map] keeps its keys in insertion order. *)
Fixpoint pushPeriod (m : list PayrollYear) (y : Z) (p : PayrollPeriod) : list PayrollYear :=
  match m with
  | [] => [ {| year := y; periods := [p] |} ]
  | g :: r =>
      if year g =? y then {| year := y; periods := periods g ++ [p] |} :: r
      else g :: pushPeriod r y p
  end.

Definition groupByYear (ps : list PayrollPeriod) : list PayrollYear :=
  fold_left (fun m p => pushPeriod m (getUTCFullYear (period p)) p) ps [].

Definition effectiveEndDate (calcEndDate : Date) : Date :=
  match dateOfRelief data with
  | Some reliefDate => if reliefDate <? calcEndDate then reliefDate else calcEndDate
  | None => calcEndDate
  end.

Definition initialState (doj : Date) (p : PayState) : State :=
  {| pay := p;
     snapshots := {| fixation4thPC := None; fixation5thPC := None;
                     fixation6thPC := None; fixation7thPC := None |};
     counters := {| regular := 0; selectionGrade := 0; specialGrade := 0;
                    promotion := 0; accountTest := 0; total := 0 |};
     accountTestIncrementPending := false;
     currentDate := doj;
     currentDaRate := 0;
     incrementsGranted := 0;
     nextScheduledIncrementDate := firstScheduledIncrementDate doj;
     remarks := [];
     didIncrementThisMonth := false |}.

(** The months run from the date of joining; a round moves the date on by
    at least one day, so the days up to the end date bound the rounds and
    the loop below never runs out of them ([loop_rounds_enough]). *)
Definition roundsBound (doj calcEndDate : Date) : nat := Z.to_nat (calcEndDate - doj + 1).

(** The simulation: the stored records in order, and the final state. *)
Definition simulate : res (list PayrollPeriod * State) :=
  match dateOfJoining data, calculationStartDate data, calculationEndDate data with
  | Some doj, Some calcStartDate, Some calcEndDate =>
      if doj <? ymd 1980 1 1 then Throw Before1980
      else
        let calcEndDate := effectiveEndDate calcEndDate in
        p ← initialFixation doj;
        default (Throw DoesNotReturn)
          (loop (roundsBound doj calcEndDate) calcStartDate calcEndDate
             (initialState doj p))
  | _, _, _ => Throw MissingRequiredFields
  end.

Definition calculateFullPayroll : res PayrollResult :=
  '(stored, final) ← simulate;
  OK {| fixations := snapshots final;
        yearlyCalculations := groupByYear stored;
        incrementAnalysis := counters final |}.

End Simulator.

(** The monthly records of a result, in the order of the yearly groups. *)
Definition periodsOf (r : PayrollResult) : list PayrollPeriod :=
  concat (map periods (yearlyCalculations r)).

(** The input with another requested end date. *)
Definition withCalculationEndDate (data : EmployeeInput) (e : Date) : EmployeeInput :=
  {| dateOfJoining := dateOfJoining data; dateOfRelief := dateOfRelief data;
     annualIncrementChanges := annualIncrementChanges data;
     joiningPostId := joiningPostId data;
     joiningBasicPay3rdPC := joiningBasicPay3rdPC data;
     joiningScaleId3rdPC := joiningScaleId3rdPC data;
     joiningBasicPay4thPC := joiningBasicPay4thPC data;
     joiningScaleId4thPC := joiningScaleId4thPC data;
     joiningBasicPay5thPC := joiningBasicPay5thPC data;
     joiningScaleId5thPC := joiningScaleId5thPC data;
     joiningPayInPayBand := joiningPayInPayBand data;
     joiningScaleId6thPC := joiningScaleId6thPC data;
     joiningLevel := joiningLevel data;
     selectionGradeDate := selectionGradeDate data;
     selectionGradeTwoIncrements := selectionGradeTwoIncrements data;
     specialGradeDate := specialGradeDate data;
     specialGradeTwoIncrements := specialGradeTwoIncrements data;
     promotions := promotions data; breaksInService := breaksInService data;
     accountTestPasses := accountTestPasses data;
     incrementEligibilityMonths := incrementEligibilityMonths data;
     cityClass := cityClass data; daOverride := daOverride data;
     calculationStartDate := calculationStartDate data;
     calculationEndDate := Some e;
     medicalAllowance := medicalAllowance data;
     cpsGpfContributionRate := cpsGpfContributionRate data;
     professionalTax := professionalTax data; gisContribution := gisContribution data;
     probationPeriodType := probationPeriodType data;
     probationPeriodMonths := probationPeriodMonths data;
     probationStartDate := probationStartDate data;
     hasTestRequirement := hasTestRequirement data;
     testStatus := testStatus data; testPassedDate := testPassedDate data |}.

(** ** Properties, as the specification words them *)

(** The DA rate of section 4.4: the rate of the most recent entry of the
    table whose date is not after [date] and whose commission matches, the
    commissions before the 6th sharing the series of the 5th; [None] when
    there is no such entry. *)
Definition daMatches (commission : Z) (da : DaRateEntry) : bool :=
  (da_commission da =? commission) || ((commission <? 6) && (da_commission da =? 5)).

Definition mostRecentDa (table : list DaRateEntry) (commission : Z) (date : Date)
    : option DaRateEntry :=
  foldl
    (fun best da =>
       if daMatches commission da && (da_date da <=? date) then
         match best with
         | Some b => if da_date b <=? da_date da then Some da else Some b
         | None => Some da
         end
       else best)
    None table.

(** The first scheduled increment date in the words of section 4.8: the
    month of the date of joining plus the eligibility months, counted in
    calendar months; the year bumped by one when that month lies past the
    increment month; the first day of the increment month; then [B] days on. *)
Definition firstScheduledDate_spec (doj : Date) (eligibilityMonths : option Z)
    (m : IncrementMonth) (B : Z) : Date :=
  let months := 12 * getUTCFullYear doj + getUTCMonth doj + default 6 eligibilityMonths in
  let bump := if incrementMonthIndex m <? months mod 12 then 1 else 0 in
  ymd (months / 12 + bump) (incrementMonthIndex m + 1) 1 + B.

(** The [round] of the specification (section 9): the rational [n/d], [d]
    positive, to the nearest integer, halves away from zero. *)
Definition roundHalfAway (n d : Z) : Z :=
  if 0 <=? n then (2 * n + d) / (2 * d) else - ((2 * - n + d) / (2 * d)).

(** The multiplied pay of the fixation in the 7th commission in the words of
    section 4.5, [round(basicPay × 2.57)], the product taken exactly. *)
Definition multipliedPay_spec (oldBasicPay : Z) : Z :=
  roundHalfAway (oldBasicPay * 257) 100.

(** [incrementAnalysis.total] is the sum of the five tallies. *)
Definition balanced (a : IncrementAnalysis) : Prop :=
  total a = regular a + selectionGrade a + specialGrade a + promotion a + accountTest a.

(** Section 4.2, [fitIntoLevel]: [x] is the least stage of the row that is at
    least [pay], or the greatest stage when no stage is. *)
Definition leastStageAtLeast (row : list Z) (pay x : Z) : Prop :=
  x ∈ row /\ pay <= x /\ forall q, q ∈ row -> pay <= q -> x <= q.

Definition greatestStage (row : list Z) (x : Z) : Prop :=
  x ∈ row /\ forall q, q ∈ row -> q <= x.

Definition fitsIntoLevel (row : list Z) (pay x : Z) : Prop :=
  leastStageAtLeast row pay x
  \/ ((forall q, q ∈ row -> q < pay) /\ greatestStage row x).

(** The sum of the amounts of a list of deductions. *)
Definition sumOfAmounts (ds : list Deduction) : Z := foldr Z.add 0 (map ded_amount ds).

Definition hasDeduction (n : DeductionName) (ds : list Deduction) : Prop :=
  exists d, d ∈ ds /\ ded_name d = n.

(** The events that may change the basic pay. *)
Definition isPayEvent (t : EventType) : bool :=
  match t with
  | PAY_COMMISSION_4 | PAY_COMMISSION_5 | PAY_COMMISSION_6 | PAY_COMMISSION_7
  | SELECTION_GRADE _ | SPECIAL_GRADE _ | PROMOTION _ => true
  | DA_CHANGE _ | ACCOUNT_TEST_PASS _ | PAY_REVISION_2010 _ => false
  end.

Definition isCommissionTransition (t : EventType) : bool :=
  match t with
  | PAY_COMMISSION_4 | PAY_COMMISSION_5 | PAY_COMMISSION_6 | PAY_COMMISSION_7 => true
  | _ => false
  end.

Definition isDaChange (t : EventType) : bool :=
  match t with
  | DA_CHANGE _ => true
  | _ => false
  end.

(** There is an event in the month of [d] that may change the basic pay. *)
Definition payEventIn (K : Constants) (data : EmployeeInput) (d : Date) : Prop :=
  exists e, e ∈ events K data /\ sameMonth d e = true /\ isPayEvent (ev_type e) = true.

(** The states the simulation passes through: the initial state, and every
    state that the loop body makes out of one of them, by resetting the
    locals of the round, applying an event, running the annual increment or
    moving the date. *)
Inductive Visited (K : Constants) (data : EmployeeInput) : State -> Prop :=
  | visited_start doj p :
      dateOfJoining data = Some doj ->
      initialFixation K data doj = OK p ->
      Visited K data (initialState data doj p)
  | visited_round st rs did :
      Visited K data st -> Visited K data (with_month_locals st rs did)
  | visited_event st e st' :
      Visited K data st -> applyEvent K data e st = OK st' -> Visited K data st'
  | visited_increment st st' :
      Visited K data st -> annualIncrement K data st = OK st' -> Visited K data st'
  | visited_advance st d :
      Visited K data st -> Visited K data (with_date st d).

(** What a state transformer of the loop body leaves alone: the date; the
    commission, which does not go down; the balance of the counters. *)
Record frame (st st' : State) : Prop := {
  frame_date : currentDate st' = currentDate st;
  frame_commission : currentCommission (pay st) <= currentCommission (pay st');
  frame_balanced : balanced (counters st) -> balanced (counters st')
}.

(** What an event leaves alone besides: the increment schedule and the
    tallies of annual and account test increments. *)
Record eventFrame (st st' : State) : Prop := {
  ef_schedule : nextScheduledIncrementDate st' = nextScheduledIncrementDate st;
  ef_regular : regular (counters st') = regular (counters st);
  ef_accountTest : accountTest (counters st') = accountTest (counters st)
}.

(** [f] does not decrease along [l]. *)
Definition nondecreasing {A : Type} (f : A -> Z) (l : list A) : Prop :=
  forall (i j : nat) (x y : A),
    (i <= j)%nat -> l !! i = Some x -> l !! j = Some y -> f x <= f y.

(** A state without a scheduled increment date, in a run that has granted no
    annual and no account test increment. *)
Definition unscheduled (st : State) : Prop :=
  nextScheduledIncrementDate st = None
  /\ regular (counters st) = 0
  /\ accountTest (counters st) = 0.

(** Consecutive records differ in basic pay only when the later one is of a
    month with an event that may change the pay. *)
Definition payChangesExplained (K : Constants) (data : EmployeeInput)
    (ps : list PayrollPeriod) : Prop :=
  forall (i : nat) (p q : PayrollPeriod),
    ps !! i = Some p -> ps !! S i = Some q ->
    basicPay p <> basicPay q -> payEventIn K data (period q).

(** ** Sample tables and inputs

    A small instance of the reference tables, of the shapes the engine
    expects, on which the simulator is run below.  The figures are
    illustrative; the entry [4200 -> 8] of the grade pay table is the one
    quoted in the specification. *)

Module Sample.

Definition slab (lo hi a b c : Z) : HraSlab :=
  {| payRange := (lo, hi);
     rates := {[ "Grade I(a)"%string := a; "Grade I(b)"%string := b;
                 "Grade II"%string := c ]} |}.

Definition tables : Constants :=
  {| PAY_MATRIX :=
       {[ 7 := [20600; 21200; 21800; 22500; 23200; 23900];
          8 := [35400; 36500; 37600; 38700; 39900; 41100; 42300] ]};
     GRADE_PAY_TO_LEVEL := {[ 4200 := 8 ]};
     DA_RATES :=
       [ {| da_date := ymd 2015 1 1; da_rate := 113; da_commission := 6 |};
         {| da_date := ymd 2015 7 1; da_rate := 119; da_commission := 6 |};
         {| da_date := ymd 2016 1 1; da_rate := 0; da_commission := 7 |};
         {| da_date := ymd 2016 7 1; da_rate := 2; da_commission := 7 |};
         {| da_date := ymd 2018 7 1; da_rate := 9; da_commission := 7 |};
         {| da_date := ymd 2019 1 1; da_rate := 12; da_commission := 7 |} ];
     HRA_SLABS_7TH_PC := [ slab 0 30000 1300 900 600; slab 30001 100000 2600 1800 1200 ];
     HRA_SLABS_6TH_PC := [ slab 0 100000 1200 800 500 ];
     HRA_SLABS_6TH_PC_PRE_2009 := [ slab 0 100000 600 400 250 ];
     HRA_SLABS_5TH_PC := [ slab 0 100000 300 200 120 ];
     HRA_SLABS_4TH_PC := [ slab 0 100000 150 100 60 ];
     HRA_SLABS_3RD_PC := [ slab 0 100000 50 30 20 ];
     PAY_SCALES_6TH_PC :=
       [ {| ps_id := "pb2-4200"; ps_scale := "5000-150-8000";
            ps_payBand := "9300-34800"; ps_gradePay := 4200 |} ];
     PAY_SCALES_5TH_PC := [ {| ls_id := "5pc-1400-40-2600"; ls_scale := "5000-150-8000" |} ];
     PAY_SCALES_4TH_PC := [ {| ls_id := "4pc-610-20-1010"; ls_scale := "1400-40-2600" |} ];
     PAY_SCALES_3RD_PC := [ {| ls_id := "3pc-610"; ls_scale := "610-20-1010" |} ];
     PAY_REVISIONS_2010 := [];
     CCA_RATES := fun c => match c with CityA => Some 300 | CityB => Some 180 | CityC => None end;
     FIFTH_PC_SG_SP_GRADE_MAPPING := ∅;
     PAY_BAND_LIMITS_6TH_PC := {[ 4200 := {| band_min := 9300; band_max := 34800 |} ]} |}.

(** A joiner with the given dates and joining pay, no career events. *)
Definition joiner (doj calcStart calcEnd : Date) (level : option string)
    (pipb : option Z) (scale6 : option string)
    (changes : list AnnualIncrementChange) (breaks : list BreakInService)
    : EmployeeInput :=
  {| dateOfJoining := Some doj; dateOfRelief := None; annualIncrementChanges := changes;
     joiningPostId := None;
     joiningBasicPay3rdPC := None; joiningScaleId3rdPC := None;
     joiningBasicPay4thPC := None; joiningScaleId4thPC := None;
     joiningBasicPay5thPC := None; joiningScaleId5thPC := None;
     joiningPayInPayBand := pipb; joiningScaleId6thPC := scale6;
     joiningLevel := level;
     selectionGradeDate := None; selectionGradeTwoIncrements := true;
     specialGradeDate := None; specialGradeTwoIncrements := true;
     promotions := []; breaksInService := breaks; accountTestPasses := [];
     incrementEligibilityMonths := Some 6;
     cityClass := CityC; daOverride := None;
     calculationStartDate := Some calcStart; calculationEndDate := Some calcEnd;
     medicalAllowance := 300; cpsGpfContributionRate := 10;
     professionalTax := 200; gisContribution := 60;
     probationPeriodType := TwoYears; probationPeriodMonths := None;
     probationStartDate := Some doj; hasTestRequirement := false;
     testStatus := Some NotAppeared; testPassedDate := None |}.

Definition july : AnnualIncrementChange :=
  {| effectiveDate := Some (ymd 2010 1 1); incrementMonth := jul |}.

(** Joined under the 6th commission in July 2015, paid until March 2017. *)
Definition across2016 : EmployeeInput :=
  joiner (ymd 2015 7 1) (ymd 2015 7 1) (ymd 2017 3 1) None (Some 9300)
    (Some "pb2-4200"%string) [july] [].

(** The same joiner without an increment schedule, paid until March 2016. *)
Definition across2016_unscheduled : EmployeeInput :=
  joiner (ymd 2015 7 1) (ymd 2015 7 1) (ymd 2016 3 1) None (Some 9300)
    (Some "pb2-4200"%string) [] [].

(** Joined at level 7 on 1 August 2018. *)
Definition august2018 : EmployeeInput :=
  joiner (ymd 2018 8 1) (ymd 2018 8 1) (ymd 2018 12 1) (Some "7"%string) None None [] [].

(** Joined on 1 July 2020, July increments, a break of sixty days. *)
Definition withBreak : EmployeeInput :=
  joiner (ymd 2020 7 1) (ymd 2020 7 1) (ymd 2021 12 1) (Some "7"%string) None None
    [ {| effectiveDate := Some (ymd 2020 7 1); incrementMonth := jul |} ]
    [ {| startDate := Some (ymd 2020 9 1); endDate := Some (ymd 2020 10 31) |} ].

(** A schedule list whose only entry has no effective date. *)
Definition undatedSchedule : EmployeeInput :=
  joiner (ymd 2020 7 1) (ymd 2020 7 1) (ymd 2021 12 1) (Some "7"%string) None None
    [ {| effectiveDate := None; incrementMonth := jul |} ] [].

End Sample.

(** * Further parts of the program *)

(** ** The calendar *)

Definition daysInYear (y : Z) : Z := if InLeapYear y then 366 else 365.

(** Number of days of month [m] (0-based) in a leap or common year. *)
Definition daysInMonth (leap : bool) (m : Z) : Z :=
  if m =? 1 then (if leap then 29 else 28)
  else if (m =? 3) || (m =? 5) || (m =? 8) || (m =? 10) then 30
  else 31.

(** Months since the year 0. *)
Definition monthIndex (d : Date) : Z := 12 * getUTCFullYear d + getUTCMonth d.

(** The month after the month of [d], as a year and a month of the year. *)
Definition monthAfter (d : Date) : Z * Z :=
  ((monthIndex d + 1) / 12, (monthIndex d + 1) mod 12).

Definition daysInMonthAfter (d : Date) : Z :=
  daysInMonth (InLeapYear (fst (monthAfter d))) (snd (monthAfter d)).

(** ** Orders on lists *)

(** [f] goes up along [l]. *)
Definition increasing {A : Type} (f : A -> Z) (l : list A) : Prop :=
  forall (i j : nat) (x y : A),
    (i < j)%nat -> l !! i = Some x -> l !! j = Some y -> f x < f y.

(** ** Yearly totals ([components/YearlyPayrollAccordion.tsx]) *)

Record YearlyTotals : Type := {
  gross : Z;
  net : Z
}.

(** [year.periods.reduce((acc, period) => ..., { gross: 0, net: 0 })]. *)
Definition getYearlyTotals (year : PayrollYear) : YearlyTotals :=
  fold_left
    (fun acc period =>
       {| gross := gross acc + grossPay period; net := net acc + netPay period |})
    (periods year) {| gross := 0; net := 0 |}.

(** The sum of [f] over a list. *)
Definition sumOver {A : Type} (f : A -> Z) (l : list A) : Z := foldr Z.add 0 (map f l).

(** A yearly group holds records, all of its year. *)
Definition groupOfItsYear (g : PayrollYear) : Prop :=
  periods g <> [] /\ Forall (fun p => getUTCFullYear (period p) = year g) (periods g).

(** ** The calculation window *)

(** The input with another calculation start date. *)
Definition withCalculationStartDate (data : EmployeeInput) (s : Date) : EmployeeInput :=
  {| dateOfJoining := dateOfJoining data; dateOfRelief := dateOfRelief data;
     annualIncrementChanges := annualIncrementChanges data;
     joiningPostId := joiningPostId data;
     joiningBasicPay3rdPC := joiningBasicPay3rdPC data;
     joiningScaleId3rdPC := joiningScaleId3rdPC data;
     joiningBasicPay4thPC := joiningBasicPay4thPC data;
     joiningScaleId4thPC := joiningScaleId4thPC data;
     joiningBasicPay5thPC := joiningBasicPay5thPC data;
     joiningScaleId5thPC := joiningScaleId5thPC data;
     joiningPayInPayBand := joiningPayInPayBand data;
     joiningScaleId6thPC := joiningScaleId6thPC data;
     joiningLevel := joiningLevel data;
     selectionGradeDate := selectionGradeDate data;
     selectionGradeTwoIncrements := selectionGradeTwoIncrements data;
     specialGradeDate := specialGradeDate data;
     specialGradeTwoIncrements := specialGradeTwoIncrements data;
     promotions := promotions data; breaksInService := breaksInService data;
     accountTestPasses := accountTestPasses data;
     incrementEligibilityMonths := incrementEligibilityMonths data;
     cityClass := cityClass data; daOverride := daOverride data;
     calculationStartDate := Some s;
     calculationEndDate := calculationEndDate data;
     medicalAllowance := medicalAllowance data;
     cpsGpfContributionRate := cpsGpfContributionRate data;
     professionalTax := professionalTax data; gisContribution := gisContribution data;
     probationPeriodType := probationPeriodType data;
     probationPeriodMonths := probationPeriodMonths data;
     probationStartDate := probationStartDate data;
     hasTestRequirement := hasTestRequirement data;
     testStatus := testStatus data; testPassedDate := testPassedDate data |}.

Definition noFixations : Fixations :=
  {| fixation4thPC := None; fixation5thPC := None;
     fixation6thPC := None; fixation7thPC := None |}.

Definition noIncrements : IncrementAnalysis :=
  {| regular := 0; selectionGrade := 0; specialGrade := 0;
     promotion := 0; accountTest := 0; total := 0 |}.

(** ** The counters of a round *)

(** The increments that set [didIncrementThisMonth]: selection and special
    grades, promotions and annual increments. *)
Definition payMoves (a : IncrementAnalysis) : Z :=
  selectionGrade a + specialGrade a + promotion a + regular a.

(** What the events of a month may count: nothing, or one grade or one
    promotion, which sets [didIncrementThisMonth]; nothing more once it is set. *)
Record eventCounts (st st' : State) : Prop := {
  ec_selectionGrade : selectionGrade (counters st) <= selectionGrade (counters st');
  ec_specialGrade : specialGrade (counters st) <= specialGrade (counters st');
  ec_promotion : promotion (counters st) <= promotion (counters st');
  ec_moves :
    (didIncrementThisMonth st' = didIncrementThisMonth st
     /\ payMoves (counters st') = payMoves (counters st))
    \/ (didIncrementThisMonth st = false /\ didIncrementThisMonth st' = true
        /\ payMoves (counters st') = payMoves (counters st) + 1)
}.

(** ** Stages of a row of the pay matrix *)

(** The stage [steps] stages above [pay] in a row of stages, the last stage
    when fewer are above; [pay] itself when no stage is above it. *)
Definition stageAbove (row : list Z) (pay steps : Z) : Z :=
  let above := List.filter (fun q => pay <? q) row in
  default pay (above !! Z.to_nat (Z.min steps (Z.of_nat (length above)) - 1)).

(** ** The test that sanctions an increment *)

(** The test status and pass date that sanction a gated increment. *)
Definition passedWithDate (params : ProbationEligibilityCheck) : Prop :=
  pc_testStatus params = Some Passed /\ is_Some (pc_testPassedDate params).

(** ** Pay band and DA rate of a record *)

(** In the 6th commission the basic pay is the pay in pay band plus the grade
    pay; outside it there is neither. *)
Definition payBandConsistent (p : PayState) : Prop :=
  if currentCommission p =? 6 then
    exists pipb gp,
      currentPipb p = Some pipb /\ currentGradePay p = Some gp
      /\ currentPay p = pipb + gp
  else currentPipb p = None /\ currentGradePay p = None.

Definition payBandShown (p : PayrollPeriod) : Prop :=
  if commission p =? 6 then
    exists pipb gp,
      payInPayBand p = Some pipb /\ gradePay p = Some gp /\ basicPay p = pipb + gp
  else payInPayBand p = None /\ gradePay p = None.

(** The DA rate is 0, the rate the loop starts from, or comes from an entry of
    the DA table: the override when there is one, else the rate of the entry. *)
Definition daRateFromTable (K : Constants) (data : EmployeeInput) (rate : Z) : Prop :=
  rate = 0
  \/ exists da, da ∈ DA_RATES K /\ rate = default (da_rate da) (daOverride data).

(** ** The commission in force *)

(** The commission in force at a date. *)
Definition commissionAt (d : Date) : Z :=
  if d <? fixedDate1986 then 3
  else if d <? fixedDate1996 then 4
  else if d <? fixedDate2006 then 5
  else if d <? fixedDate2016 then 6
  else 7.

(** The commission a transition event leaves. *)
Definition transitionFrom (t : EventType) : option Z :=
  match t with
  | PAY_COMMISSION_4 => Some 3
  | PAY_COMMISSION_5 => Some 4
  | PAY_COMMISSION_6 => Some 5
  | PAY_COMMISSION_7 => Some 6
  | _ => None
  end.

Definition commissionOfMonth (M : Z) : Z :=
  if M <? 12 * 1986 then 3
  else if M <? 12 * 1996 then 4
  else if M <? 12 * 2006 then 5
  else if M <? 12 * 2016 then 6
  else 7.

Definition transitionIn (M : Z) : option Z :=
  if M =? 12 * 1986 then Some 3
  else if M =? 12 * 1996 then Some 4
  else if M =? 12 * 2006 then Some 5
  else if M =? 12 * 2016 then Some 6
  else None.

(** The commission a round starts with is that of the month of the round, or
    of the month of the round before, one or two months back; two only over a
    month that is no January. *)
Definition commissionLags (st : State) : Prop :=
  exists M0,
    currentCommission (pay st) = commissionOfMonth M0
    /\ M0 <= monthIndex (currentDate st) <= M0 + 2
    /\ (monthIndex (currentDate st) = M0 + 2 -> (M0 + 1) mod 12 <> 0).

(** ** Selection and special grade *)

(** The selection grade ([sel = true]) or the special grade: its counter,
    its events and its date in the input. *)
Definition gradeCount (sel : bool) (a : IncrementAnalysis) : Z :=
  if sel then selectionGrade a else specialGrade a.

Definition isGrade (sel : bool) (t : EventType) : bool :=
  match t with
  | SELECTION_GRADE _ => sel
  | SPECIAL_GRADE _ => negb sel
  | _ => false
  end.

Definition gradeDate (sel : bool) (data : EmployeeInput) : option Date :=
  if sel then selectionGradeDate data else specialGradeDate data.

(** ** The final output ([calculateFullPayroll], part 5)

    The dates of the employee details are kept as dates, as [period] is; the
    texts that are only echoed are left out. *)

Record Post : Type := {
  post_id : string;
  post_name : string;
  post_scaleId : string;
  post_level : Z
}.

(** The fields of [EmployeeInput] that only the final output reads. *)
Record EmployeeIdentity : Type := {
  dateOfBirth : option Date;
  retirementAge : string;
  dateOfJoiningInOffice : option Date;
  joiningPostCustomName : option string;
  testType : option string;
  testName : option string
}.

(** [retirementDateStr]: ['N/A'], ['Invalid Date'] or a date. *)
Inductive RetirementDate : Type :=
  | RetirementNotAvailable
  | RetirementInvalidDate
  | RetirementOn (d : Date).

(** [probationPeriod]: the period type, or [`${months} Months (Custom)`]. *)
Inductive ProbationPeriodLabel : Type :=
  | PeriodOfType (t : ProbationPeriodType)
  | CustomMonths (months : option Z).

(** [testDetails]: ['Not Required'], or the type, the name and the status of
    the test, followed for a passed test by [' on '] and the pass date
    ([undefined] when it is not given). *)
Inductive TestDetails : Type :=
  | TestNotRequired
  | TestDescribed (type name : string) (status : option TestStatus)
      (passedOn : option (option Date)).

Record EmployeeDetails : Type := {
  ed_dateOfBirth : Date;
  ed_dateOfJoining : Date;
  ed_dateOfJoiningInOffice : Date;
  ed_dateOfRelief : option Date;
  ed_retirementDate : RetirementDate;
  ed_joiningPost : string;
  ed_promotions : list (string * Date);
  ed_selectionGradeDate : option Date;
  ed_specialGradeDate : option Date;
  ed_accountTestPasses : list (Date * string);
  ed_probationPeriod : ProbationPeriodLabel;
  ed_probationEndsOn : option Date;
  ed_hasTestRequirement : bool;
  ed_testDetails : TestDetails
}.

(** [a || b] on strings, where [undefined] and [''] are falsy. *)
Definition or_str (a : option string) (b : string) : string :=
  match a with
  | Some s => if String.eqb s "" then b else s
  | None => b
  end.

Section Output.

Variable POSTS : list Post.
Variable K : Constants.
Variable data : EmployeeInput.
Variable identity : EmployeeIdentity.

(** The months that the probation lasts, for its end date. *)
Definition monthsToAdd : Z :=
  match probationPeriodType data with
  | OneYear => 12
  | TwoYears => 24
  | Custom => Js.or_num (probationPeriodMonths data) 0
  end.

Definition probationPeriod : ProbationPeriodLabel :=
  match probationStartDate data, probationPeriodType data with
  | Some _, Custom => CustomMonths (probationPeriodMonths data)
  | _, t => PeriodOfType t
  end.

Definition probationEndsOn : option Date :=
  match probationStartDate data with
  | Some probationStartDate =>
      let endDate := setUTCMonth probationStartDate
                       (getUTCMonth probationStartDate + monthsToAdd) in
      Some (setUTCDate endDate (getUTCDate endDate - 1))
  | None => None
  end.

Definition testDetails : TestDetails :=
  if hasTestRequirement data then
    TestDescribed (or_str (testType identity) "") (or_str (testName identity) "N/A")
      (testStatus data)
      (match testStatus data with
       | Some Passed => Some (testPassedDate data)
       | _ => None
       end)
  else TestNotRequired.

(** [Date.UTC(birth year + retirement age, birth month + 1, 0)]. *)
Definition retirementDateStr : RetirementDate :=
  match dateOfBirth identity with
  | Some dob =>
      match Js.parseInt (retirementAge identity) with
      | Some age => RetirementOn (UTC (getUTCFullYear dob + age) (getUTCMonth dob + 1) 0)
      | None => RetirementInvalidDate
      end
  | None => RetirementNotAvailable
  end.

Definition joiningPostName : option string :=
  match joiningPostId data with
  | Some id =>
      if String.eqb id "custom" then joiningPostCustomName identity
      else post_name <$> List.find (fun p => String.eqb (post_id p) id) POSTS
  | None => None
  end.

(** The [employeeDetails] of the returned object.  A date that is read with
    [parseDateUTC(...)!] and is not given fails on [undefined]. *)
Definition employeeDetails (doj : Date) : res EmployeeDetails :=
  dob ← fromOption TypeError (dateOfBirth identity);
  inOffice ← fromOption TypeError (dateOfJoiningInOffice identity);
  promos ← fromOption TypeError
    (mapM (fun p => d ← promo_date p; Some (promo_post p, d)) (promotions data));
  passes ← fromOption TypeError
    (mapM (fun a => d ← passDate a; Some (d, at_description a)) (accountTestPasses data));
  OK {| ed_dateOfBirth := dob;
        ed_dateOfJoining := doj;
        ed_dateOfJoiningInOffice := inOffice;
        ed_dateOfRelief := dateOfRelief data;
        ed_retirementDate := retirementDateStr;
        ed_joiningPost := or_str joiningPostName "N/A";
        ed_promotions := promos;
        ed_selectionGradeDate := selectionGradeDate data;
        ed_specialGradeDate := specialGradeDate data;
        ed_accountTestPasses := passes;
        ed_probationPeriod := probationPeriod;
        ed_probationEndsOn := probationEndsOn;
        ed_hasTestRequirement := hasTestRequirement data;
        ed_testDetails := testDetails |}.

(** The whole function: the simulation, then the final output. *)
Definition calculateFullPayrollOutput : res (PayrollResult * EmployeeDetails) :=
  r ← calculateFullPayroll K data;
  doj ← fromOption MissingRequiredFields (dateOfJoining data);
  details ← employeeDetails doj;
  OK (r, details).

End Output.

(** The last day of the month of a date. *)
Definition lastDayOfMonth (y m : Z) : Z := daysInMonth (InLeapYear y) m.

(** ** The form ([components/PayrollForm.tsx])

    An entry of a list of the form is the pair of its [id] and of the fields
    that the service reads. *)

Inductive JoiningPeriod : Type :=
  | pre1986 | period4thPC | period5thPC | period6thPC | period7thPC.

(** [joiningPeriod], from [formData.dateOfJoining]. *)
Definition joiningPeriod (dateOfJoining : option Date) : option JoiningPeriod :=
  match dateOfJoining with
  | Some joiningDate =>
      Some (if joiningDate <? ymd 1986 1 1 then pre1986
            else if joiningDate <? ymd 1996 1 1 then period4thPC
            else if joiningDate <? ymd 2006 1 1 then period5thPC
            else if joiningDate <? ymd 2016 1 1 then period6thPC
            else period7thPC)
  | None => None
  end.

(** The required inputs of the card shown for a joining period are filled. *)
Definition joiningCardFilled (p : JoiningPeriod) (formData : EmployeeInput) : bool :=
  match p with
  | pre1986 =>
      Js.truthy_str (joiningScaleId3rdPC formData)
      && bool_decide (is_Some (joiningBasicPay3rdPC formData))
  | period4thPC =>
      Js.truthy_str (joiningScaleId4thPC formData)
      && bool_decide (is_Some (joiningBasicPay4thPC formData))
  | period5thPC =>
      Js.truthy_str (joiningScaleId5thPC formData)
      && bool_decide (is_Some (joiningBasicPay5thPC formData))
  | period6thPC =>
      Js.truthy_str (joiningScaleId6thPC formData)
      && bool_decide (is_Some (joiningPayInPayBand formData))
  | period7thPC => Js.truthy_str (joiningLevel formData)
  end.

(** The commission that the service starts in, for a joining period. *)
Definition commissionOfPeriod (p : JoiningPeriod) : Z :=
  match p with
  | pre1986 => 3
  | period4thPC => 4
  | period5thPC => 5
  | period6thPC => 6
  | period7thPC => 7
  end.

(** The effect on [formData.dateOfJoining]: the state update of
    [annualIncrementChanges]; [now] is [Date.now().toString()]. *)
Definition syncFirstChange (dateOfJoining : option Date) (now : string)
    (prev : list (string * AnnualIncrementChange)) : list (string * AnnualIncrementChange) :=
  match prev with
  | (id, c) :: rest =>
      (id, {| effectiveDate := dateOfJoining; incrementMonth := incrementMonth c |}) :: rest
  | [] => [(now, {| effectiveDate := dateOfJoining; incrementMonth := jul |})]
  end.

Definition addIncrementChange (now : string) (prev : list (string * AnnualIncrementChange)) :
    list (string * AnnualIncrementChange) :=
  prev ++ [(now, {| effectiveDate := None; incrementMonth := jul |})].

(** [removeIncrementChange]: the length is read from the rendered state
    [annualIncrementChanges], the filter is applied to the state [prev]. *)
Definition removeIncrementChange (id : string)
    (annualIncrementChanges prev : list (string * AnnualIncrementChange)) :
    list (string * AnnualIncrementChange) :=
  if (1 <? length annualIncrementChanges)%nat
  then List.filter (fun c => negb (String.eqb (fst c) id)) prev
  else prev.

(** The fields that the form changes with [handleIncrementChange]. *)
Inductive IncrementChangeField : Type :=
  | FieldEffectiveDate (value : option Date)
  | FieldIncrementMonth (value : IncrementMonth).

Definition handleIncrementChange (id : string) (field : IncrementChangeField)
    (prev : list (string * AnnualIncrementChange)) : list (string * AnnualIncrementChange) :=
  map (fun c =>
         if String.eqb (fst c) id then
           (fst c,
            match field with
            | FieldEffectiveDate value =>
                {| effectiveDate := value; incrementMonth := incrementMonth (snd c) |}
            | FieldIncrementMonth value =>
                {| effectiveDate := effectiveDate (snd c); incrementMonth := value |}
            end)
         else c)
      prev.

(** [handleSubmit]: what the service receives of the schedule. *)
Definition submittedChanges (rows : list (string * AnnualIncrementChange)) :
    list AnnualIncrementChange := map snd rows.

(** What the form does to the schedule. *)
Inductive ScheduleAction : Type :=
  | SyncDateOfJoining (dateOfJoining : option Date)
  | AddIncrementChange
  | RemoveIncrementChange (id : string)
  | HandleIncrementChange (id : string) (field : IncrementChangeField).

(** The schedule after an action, from the rendered state [rows]; [now] is
    [Date.now().toString()]. *)
Definition scheduleAfter (a : ScheduleAction) (now : string)
    (rows : list (string * AnnualIncrementChange)) : list (string * AnnualIncrementChange) :=
  match a with
  | SyncDateOfJoining dateOfJoining => syncFirstChange dateOfJoining now rows
  | AddIncrementChange => addIncrementChange now rows
  | RemoveIncrementChange id => removeIncrementChange id rows rows
  | HandleIncrementChange id field => handleIncrementChange id field rows
  end.

(** ** Further inputs *)

Module Cases.

(** Joined at level 7 on 31 January 2019, paid until June 2019. *)
Definition joinedOn31 : EmployeeInput :=
  Sample.joiner (ymd 2019 1 31) (ymd 2019 1 31) (ymd 2019 6 30) (Some "7"%string) None None [] [].

(** Joined under the 6th commission in July 2015, with an account test passed
    in May 2016 and the selection grade in September 2016. *)
Definition withGradeAndTest : EmployeeInput :=
  {| dateOfJoining := Some (ymd 2015 7 1); dateOfRelief := None;
     annualIncrementChanges := [Sample.july];
     joiningPostId := Some "custom"%string;
     joiningBasicPay3rdPC := None; joiningScaleId3rdPC := None;
     joiningBasicPay4thPC := None; joiningScaleId4thPC := None;
     joiningBasicPay5thPC := None; joiningScaleId5thPC := None;
     joiningPayInPayBand := Some 9300;
     joiningScaleId6thPC := Some "pb2-4200"%string;
     joiningLevel := None;
     selectionGradeDate := Some (ymd 2016 9 1); selectionGradeTwoIncrements := true;
     specialGradeDate := None; specialGradeTwoIncrements := true;
     promotions := []; breaksInService := [];
     accountTestPasses :=
       [ {| passDate := Some (ymd 2016 5 1); at_description := "Account Test" |} ];
     incrementEligibilityMonths := Some 6;
     cityClass := CityC; daOverride := None;
     calculationStartDate := Some (ymd 2015 7 1);
     calculationEndDate := Some (ymd 2017 3 1);
     medicalAllowance := 300; cpsGpfContributionRate := 10;
     professionalTax := 200; gisContribution := 60;
     probationPeriodType := TwoYears; probationPeriodMonths := None;
     probationStartDate := Some (ymd 2015 7 1); hasTestRequirement := false;
     testStatus := Some NotAppeared; testPassedDate := None |}.

Definition identity : EmployeeIdentity :=
  {| dateOfBirth := Some (ymd 1990 2 10); retirementAge := "60";
     dateOfJoiningInOffice := Some (ymd 2015 7 1);
     joiningPostCustomName := Some "Assistant"%string;
     testType := None; testName := None |}.

Definition rows : list (string * AnnualIncrementChange) :=
  [ ("1"%string, {| effectiveDate := None; incrementMonth := jul |});
    ("2"%string, {| effectiveDate := Some (ymd 2021 1 1); incrementMonth := jan |}) ].

(** Joined under the 6th commission in July 2015 with a pay in pay band of
    18650 and a grade pay of 4200: a basic pay of 22850 at the end of 2015. *)
Definition payInPayBand18650 : EmployeeInput :=
  Sample.joiner (ymd 2015 7 1) (ymd 2015 7 1) (ymd 2016 3 1) None (Some 18650)
    (Some "pb2-4200"%string) [Sample.july] [].

(** Joined at level 7 on 31 October 2019, April increments. *)
Definition joinedOn31October : EmployeeInput :=
  Sample.joiner (ymd 2019 10 31) (ymd 2019 10 31) (ymd 2021 12 1) (Some "7"%string)
    None None [ {| effectiveDate := Some (ymd 2019 10 31); incrementMonth := apr |} ] [].

End Cases.

(** * Checks of the embedding on concrete values *)

Example ymd_epoch : ymd 1970 1 1 = 0. Proof. reflexivity. Qed.
Example ymd_2016 : ymd 2016 1 1 = 16801. Proof. reflexivity. Qed.
Example fields_2021_08_30 :
  (getUTCFullYear (ymd 2021 8 30), getUTCMonth (ymd 2021 8 30), getUTCDate (ymd 2021 8 30))
  = (2021, 7, 30).
Proof. reflexivity. Qed.
Example month_overflow : setUTCMonth (ymd 2021 1 31) 1 = ymd 2021 3 3.
Proof. reflexivity. Qed.
Example leap_day_2000 :
  (getUTCFullYear 11016, getUTCMonth 11016, getUTCDate 11016) = (2000, 1, 29).
Proof. reflexivity. Qed.
Example no_leap_day_2100 : ymd 2100 3 1 = 47541 /\ ymd 2100 2 29 = ymd 2100 3 1.
Proof. split; reflexivity. Qed.
(** From mid 1999 to mid 2003 each day follows the day before in the
    calendar: the next day of the month, or the first of the next month, or
    of January. *)
Example calendar_1999_2003 :
  forallb
    (fun d =>
       let '(y, m, dt) := (getUTCFullYear d, getUTCMonth d, getUTCDate d) in
       let '(y', m', dt') :=
         (getUTCFullYear (d + 1), getUTCMonth (d + 1), getUTCDate (d + 1)) in
       (1 <=? dt) && (dt <=? 31)
       && (((y' =? y) && (m' =? m) && (dt' =? dt + 1))
           || ((y' =? y) && (m' =? m + 1) && (dt' =? 1) && (28 <=? dt))
           || ((y' =? y + 1) && (m =? 11) && (m' =? 0) && (dt' =? 1) && (dt =? 31))))
    (seqZ 10800 1500) = true.
Proof. vm_compute. reflexivity. Qed.

(** [Math.round(x * (n / d))] in binary64.  The products 750 * 2.57 and
    22850 * 2.57 fall just short of the halves 1927.5 and 58724.5. *)
Example round_times_values :
  map (fun '(x, n, d) => Js.round_times x n d)
    [ (750, 257, 100); (22850, 257, 100); (13500, 257, 100); (5850, 186, 100);
      (13350, 3, 100); (13500, 119, 100); (20600, 10, 100); (47650, 17, 100);
      (1, 1, 2); (3, 1, 2); (250, 1, 100); (0, 257, 100) ]
  = [ 1927; 58724; 34695; 10881; 401; 16065; 2060; 8101; 1; 2; 3; 0 ].
Proof. vm_compute. reflexivity. Qed.
Example literal_2_57 :
  Js.div (Js.num 257) (Js.num 100) = SpecFloat.S754_finite false 5787125521171087 (-51).
Proof. vm_compute. reflexivity. Qed.
Example parseScale_example :
  parseScale "1200-30-1440-40-1800" =
  {| stages := [ {| st_from := 1200; st_to := 1440; st_inc := 30 |};
                 {| st_from := 1440; st_to := 1800; st_inc := 40 |} ];
     sc_start := 1200; sc_max := 1800 |}.
Proof. reflexivity. Qed.
Example increment_example : getIncrementInScale 1410 "1200-30-1440-40-1800" 2 = 1480.
Proof. reflexivity. Qed.
Example nextHigher_example :
  findNextHigherStageInScale 1445 "1200-30-1440-40-1800" = OK 1480.
Proof. reflexivity. Qed.
Example nextHigher_zero_increment :
  findNextHigherStageInScale 1300 "1200--1440-40-1800" = Throw DoesNotReturn.
Proof. vm_compute. reflexivity. Qed.
Example endsWith_example : Js.endsWith "4pc-1200-30-1440" "1200-30-1440" = true.
Proof. reflexivity. Qed.
Example parseInt_example : Js.parseInt " 12abc" = Some 12.
Proof. reflexivity. Qed.
Example sort_by_stable :
  Js.sort_by fst [(3, "a"); (1, "b"); (3, "c"); (1, "d")]
  = [(1, "b"); (1, "d"); (3, "a"); (3, "c")].
Proof. reflexivity. Qed.

(** * Properties *)

(** ** Dates *)

Lemma DayFromYear_succ_lower (y : Z) : DayFromYear y + 365 <= DayFromYear (y + 1).
Proof. unfold DayFromYear. Z.div_mod_to_equations. lia. Qed.

Lemma DayFromYear_mono (y y' : Z) : y <= y' -> DayFromYear y <= DayFromYear y'.
Proof. unfold DayFromYear. Z.div_mod_to_equations. lia. Qed.

(** [YearFromDay] is the year of the day: the day lies between the first day
    of that year and the first day of the next. *)
Lemma YearFromDay_spec (d : Z) :
  DayFromYear (YearFromDay d) <= d < DayFromYear (YearFromDay d + 1).
Proof.
  unfold YearFromDay.
  set (y := 1970 + 400 * d / 146097).
  assert (Hlo : DayFromYear (y - 1) <= d)
    by (unfold DayFromYear, y; Z.div_mod_to_equations; lia).
  assert (Hhi : d < DayFromYear (y + 2))
    by (unfold DayFromYear, y; Z.div_mod_to_equations; lia).
  destruct (Z.leb_spec (DayFromYear (y + 1)) d).
  - replace (y + 1 + 1) with (y + 2) by lia. lia.
  - destruct (Z.leb_spec (DayFromYear y) d).
    + lia.
    + replace (y - 1 + 1) with y by lia. lia.
Qed.

Lemma YearFromDay_mono (d d' : Z) : d <= d' -> YearFromDay d <= YearFromDay d'.
Proof.
  intros H.
  pose proof (YearFromDay_spec d) as [H1 _].
  pose proof (YearFromDay_spec d') as [_ H2].
  destruct (Z.le_gt_cases (YearFromDay d) (YearFromDay d')) as [|Hgt]; [done|].
  pose proof (DayFromYear_mono (YearFromDay d' + 1) (YearFromDay d)). lia.
Qed.

Lemma MonthFromDay_range (d : Z) : 0 <= MonthFromDay d <= 11.
Proof. unfold MonthFromDay. repeat case_match; lia. Qed.

Lemma monthStart_next (l : bool) (m : Z) :
  0 <= m <= 10 -> monthStart l m < monthStart l (m + 1).
Proof.
  intros H.
  assert (m = 0 \/ m = 1 \/ m = 2 \/ m = 3 \/ m = 4 \/ m = 5 \/ m = 6 \/ m = 7
          \/ m = 8 \/ m = 9 \/ m = 10) as Hm by lia.
  destruct l; repeat (destruct Hm as [-> | Hm]; [vm_compute; reflexivity|]);
    subst; vm_compute; reflexivity.
Qed.

Lemma monthStart_december (l : bool) : monthStart l 11 <= 335.
Proof. destruct l; vm_compute; discriminate. Qed.

(** Moving a date to the next month moves it forward. *)
Lemma setUTCMonth_next (d : Date) : d < setUTCMonth d (getUTCMonth d + 1).
Proof.
  unfold setUTCMonth, getUTCMonth, getUTCDate, getUTCFullYear, MakeDay, DateFromDay.
  pose proof (MonthFromDay_range d) as Hm.
  set (m := MonthFromDay d) in *. set (y := YearFromDay d).
  destruct (Z.eq_dec m 11) as [->|Hne].
  - change ((11 + 1) / 12) with 1. change ((11 + 1) mod 12) with 0.
    pose proof (DayFromYear_succ_lower y). pose proof (monthStart_december (InLeapYear y)).
    change (monthStart (InLeapYear (y + 1)) 0) with 0. lia.
  - rewrite (Z.div_small (m + 1) 12) by lia. rewrite (Z.mod_small (m + 1) 12) by lia.
    rewrite Z.add_0_r. pose proof (monthStart_next (InLeapYear y) m). lia.
Qed.

(** [setUTCDate(getUTCDate() + n)] is the date [n] days on. *)
Lemma setUTCDate_shift (d : Date) (n : Z) : setUTCDate d (getUTCDate d + n) = d + n.
Proof.
  unfold setUTCDate, getUTCDate, getUTCMonth, getUTCFullYear, MakeDay, DateFromDay.
  pose proof (MonthFromDay_range d) as Hm.
  rewrite (Z.div_small (MonthFromDay d) 12) by lia.
  rewrite (Z.mod_small (MonthFromDay d) 12) by lia.
  rewrite Z.add_0_r. lia.
Qed.

(** ** The result monad *)

Lemma bind_OK {A B : Type} (m : res A) (k : A -> res B) (b : B) :
  (m ≫= k) = OK b -> exists a, m = OK a /\ k a = OK b.
Proof. destruct m as [a|e]; simpl; [eauto | discriminate]. Qed.

(** Takes apart a hypothesis saying that a computation returned. *)
Ltac res_inv :=
  repeat match goal with
    | H : (_ ≫= _) = OK _ |- _ =>
        let a := fresh "a" in
        let Ha := fresh "Ha" in
        apply bind_OK in H as (a & Ha & H)
    | H : OK _ = OK _ |- _ => injection H as H; try subst
    | H : Throw _ = OK _ |- _ => discriminate H
    | H : (if ?b then _ else _) = OK _ |- _ => destruct b eqn:?
    | H : (let '(_, _) := ?p in _) = OK _ |- _ => destruct p
    | H : match ?x with _ => _ end = OK _ |- _ => destruct x eqn:?
    end.

(** ** Sorting and sequences *)

Section Sequences.

Context {A : Type}.

Lemma nondecreasing_nil (f : A -> Z) : nondecreasing f [].
Proof. intros i j x y _ H. rewrite lookup_nil in H. discriminate. Qed.

Lemma nondecreasing_cons (f : A -> Z) (x : A) (l : list A) :
  Forall (fun y => f x <= f y) l -> nondecreasing f l -> nondecreasing f (x :: l).
Proof.
  intros Hx Hl i j a b Hij Ha Hb.
  destruct i as [|i], j as [|j]; simpl in *; simplify_eq; try lia.
  - rewrite Forall_forall in Hx. apply Hx. eapply list_elem_of_lookup_2. exact Hb.
  - eapply Hl; [|exact Ha|exact Hb]. lia.
Qed.

Lemma nondecreasing_tail (f : A -> Z) (x : A) (l : list A) :
  nondecreasing f (x :: l) -> nondecreasing f l.
Proof. intros H i j a b Hij Ha Hb. apply (H (S i) (S j)); simpl; [lia|done|done]. Qed.

Lemma nondecreasing_head (f : A -> Z) (x : A) (l : list A) :
  nondecreasing f (x :: l) -> Forall (fun y => f x <= f y) l.
Proof.
  intros H. apply Forall_forall. intros y Hy.
  apply list_elem_of_lookup_1 in Hy as [j Hj].
  apply (H O (S j)); simpl; [lia|done|done].
Qed.

Lemma nondecreasing_compose (f g : A -> Z) (l : list A) :
  (forall x y, f x <= f y -> g x <= g y) -> nondecreasing f l -> nondecreasing g l.
Proof. intros Hfg H i j x y Hij Hx Hy. apply Hfg. eapply H; eauto. Qed.

Variable key : A -> Z.

Lemma insert_by_elem (x y : A) (l : list A) :
  y ∈ Js.insert_by key x l <-> y = x \/ y ∈ l.
Proof.
  induction l as [|z l IH]; simpl.
  - rewrite list_elem_of_singleton, elem_of_nil. tauto.
  - destruct (key x <=? key z); rewrite !elem_of_cons; [tauto|].
    rewrite IH. tauto.
Qed.

Lemma sort_by_elem (y : A) (l : list A) : y ∈ Js.sort_by key l <-> y ∈ l.
Proof.
  unfold Js.sort_by. induction l as [|x l IH]; simpl; [done|].
  rewrite insert_by_elem, IH, elem_of_cons. tauto.
Qed.

Lemma insert_by_head (x : A) (l : list A) (m : A) :
  (forall y, y ∈ l -> key m <= key y) ->
  head l = Some m \/ l = [] ->
  exists h, head (Js.insert_by key x l) = Some h /\ key h <= key x
            /\ (forall y, y ∈ l -> key h <= key y).
Proof.
  intros Hmin [Hh | ->]; simpl.
  - destruct l as [|z l]; simplify_eq/=.
    destruct (Z.leb_spec (key x) (key m)); simpl.
    + exists x. split; [done|]. split; [lia|]. intros y Hy. specialize (Hmin y Hy). lia.
    + exists m. split; [done|]. split; [lia|]. done.
  - exists x. split; [done|]. split; [lia|]. intros y Hy. inversion Hy.
Qed.

(** The head of a sorted list is a least element of the list. *)
Lemma sort_by_head (l : list A) :
  l <> [] ->
  exists h, head (Js.sort_by key l) = Some h /\ h ∈ l /\ forall y, y ∈ l -> key h <= key y.
Proof.
  induction l as [|x l IH]; [done|]. intros _.
  destruct l as [|z l].
  - exists x. simpl. split; [done|]. split; [by left|].
    intros y Hy. apply list_elem_of_singleton in Hy as ->. lia.
  - destruct IH as (m & Hm & Hin & Hmin); [done|].
    change (Js.sort_by key (x :: z :: l))
      with (Js.insert_by key x (Js.sort_by key (z :: l))).
    destruct (insert_by_head x (Js.sort_by key (z :: l)) m) as (h & Hh & Hhx & Hhl).
    + intros y Hy. apply Hmin. by apply sort_by_elem.
    + by left.
    + exists h. split; [done|]. split.
      * apply (sort_by_elem h (x :: z :: l)).
        change (Js.sort_by key (x :: z :: l))
          with (Js.insert_by key x (Js.sort_by key (z :: l))).
        destruct (Js.insert_by key x (Js.sort_by key (z :: l))); simplify_eq/=.
        by left.
      * intros y Hy. apply elem_of_cons in Hy as [->|Hy]; [done|].
        apply Hhl. by apply sort_by_elem.
Qed.

Lemma insert_by_sorted (x : A) (l : list A) :
  StronglySorted (fun a b => key a <= key b) l ->
  StronglySorted (fun a b => key a <= key b) (Js.insert_by key x l).
Proof.
  induction l as [|y r IH]; cbn [Js.insert_by]; intros Hs.
  - repeat constructor.
  - inversion Hs as [|? ? Hr Hy]; subst.
    destruct (Z.leb_spec (key x) (key y)).
    + constructor; [done|]. constructor; [done|].
      eapply Forall_impl; [exact Hy|]. simpl. intros; lia.
    + constructor; [by apply IH|].
      apply Forall_forall. intros z Hz. apply insert_by_elem in Hz as [->|Hz]; [lia|].
      rewrite Forall_forall in Hy. by apply Hy.
Qed.

(** A sorted list is in the order of its keys. *)
Lemma sort_by_sorted (l : list A) : nondecreasing key (Js.sort_by key l).
Proof.
  assert (Hs : StronglySorted (fun a b => key a <= key b) (Js.sort_by key l)).
  { unfold Js.sort_by. induction l as [|x l IH]; cbn [foldr]; [constructor|].
    by apply insert_by_sorted. }
  induction Hs as [|x r _ IH Hx]; [apply nondecreasing_nil|].
  by apply nondecreasing_cons.
Qed.

End Sequences.

(** ** Scales *)

Lemma scaleStep_increases (sc : Scale) (pay : Z) :
  stages sc <> [] -> Forall (fun st => 0 < st_inc st) (stages sc) ->
  pay < scaleStep sc pay.
Proof.
  intros Hne Hpos. rewrite Forall_forall in Hpos. unfold scaleStep.
  destruct (List.find _ (stages sc)) as [st|] eqn:Hf.
  - apply List.find_some in Hf as [Hin _]. apply list_elem_of_In in Hin.
    specialize (Hpos st Hin). lia.
  - destruct (last (stages sc)) as [st|] eqn:Hl; [|by apply last_None in Hl].
    apply last_Some_elem_of in Hl. specialize (Hpos st Hl). lia.
Qed.

(** With positive increments the search for the next higher stage ends
    within the rounds it is given. *)
Lemma nextHigherLoop_returns (fuel : nat) (sc : Scale) (currentPay pay : Z) :
  stages sc <> [] -> Forall (fun st => 0 < st_inc st) (stages sc) ->
  (Z.to_nat (currentPay - pay + 1) <= fuel)%nat ->
  exists x, nextHigherLoop fuel sc currentPay pay = OK x.
Proof.
  intros Hne Hpos. revert pay. induction fuel as [|fuel IH]; intros pay Hf; simpl.
  - destruct (Z.leb_spec pay currentPay); [lia|]. simpl. eauto.
  - destruct (Z.leb_spec pay currentPay); simpl; [|eauto].
    destruct (pay <? sc_max sc); [|eauto].
    apply IH. pose proof (scaleStep_increases sc pay Hne Hpos). lia.
Qed.

Lemma findNextHigherStageInScale_returns (currentPay : Z) (newScaleString : string) :
  Forall (fun st => 0 < st_inc st) (stages (parseScale newScaleString)) ->
  exists x, findNextHigherStageInScale currentPay newScaleString = OK x.
Proof.
  intros Hpos. unfold findNextHigherStageInScale.
  case_bool_decide as Hne; [eauto|].
  destruct (_ <=? _); [eauto|]. destruct (_ <? _); [eauto|].
  destruct (nextHigherLoop_returns
              (Z.to_nat (currentPay - sc_start (parseScale newScaleString) + 1))
              (parseScale newScaleString) currentPay
              (sc_start (parseScale newScaleString)) Hne Hpos (le_n _)) as [x ->].
  simpl. eauto.
Qed.

(** ** The state transformers of the loop body *)

Section Frames.

Variable K : Constants.
Variable data : EmployeeInput.

(** The events applied in a month are the events of that month. *)
Lemma monthEvents_elem (d : Date) (e : Event) :
  e ∈ monthEvents K data d <-> e ∈ events K data /\ sameMonth d e = true.
Proof.
  unfold monthEvents. rewrite sort_by_elem, !list_elem_of_In, List.filter_In. done.
Qed.

(** The priorities of the events: 1 for a DA change, 2 for a commission
    transition. *)
Lemma events_priority (e : Event) :
  e ∈ events K data ->
  (isDaChange (ev_type e) = true -> ev_priority e = 1)
  /\ (isCommissionTransition (ev_type e) = true -> ev_priority e = 2).
Proof.
  unfold events, datedEvent, fixedEvent. rewrite !elem_of_app, !elem_of_cons, elem_of_nil.
  rewrite !list_elem_of_fmap.
  intros [(da & -> & _) | [ [-> | [-> | [-> | [-> | []]]]] | [H | [H | [H | [H | H]]]]]];
    cbn; try done.
  - destruct (selectionGradeDate data); [|inversion H].
    apply list_elem_of_singleton in H as ->. done.
  - destruct (specialGradeDate data); [|inversion H].
    apply list_elem_of_singleton in H as ->. done.
  - apply list_elem_of_In, in_concat in H as (l & Hl & He).
    apply list_elem_of_In, list_elem_of_fmap in Hl as (pr & -> & _).
    destruct (promo_date pr); [|inversion He]. destruct He as [<-|[]]. done.
  - apply list_elem_of_In, in_concat in H as (l & Hl & He).
    apply list_elem_of_In, list_elem_of_fmap in Hl as (pr & -> & _).
    destruct (passDate pr); [|inversion He]. destruct He as [<-|[]]. done.
  - destruct H as (rev & -> & _). done.
Qed.

(** In every month the DA changes come before the commission transitions in
    the order the events are applied in. *)
Lemma monthEvents_da_first (d : Date) (i j : nat) (e1 e2 : Event) :
  monthEvents K data d !! i = Some e1 ->
  monthEvents K data d !! j = Some e2 ->
  isDaChange (ev_type e1) = true ->
  isCommissionTransition (ev_type e2) = true ->
  (i < j)%nat.
Proof.
  intros H1 H2 Hda Hpc.
  assert (Hp1 : ev_priority e1 = 1).
  { apply list_elem_of_lookup_2, monthEvents_elem in H1 as [H1 _].
    by apply events_priority in H1 as [-> _]. }
  assert (Hp2 : ev_priority e2 = 2).
  { apply list_elem_of_lookup_2, monthEvents_elem in H2 as [H2 _].
    by apply events_priority in H2 as [_ ->]. }
  destruct (Nat.lt_ge_cases i j) as [|Hge]; [done|].
  pose proof (sort_by_sorted ev_priority _ j i e2 e1 Hge H2 H1). lia.
Qed.

(** A DA entry made for another commission leaves the state as it is. *)
Lemma daChange_other_commission (da : DaRateEntry) (st : State) :
  da_commission da <> currentCommission (pay st) ->
  da_commission da <> 5 ->
  daChange data da st = st.
Proof.
  intros Hc H5. unfold daChange, daApplies.
  destruct (Z.eqb_spec (da_commission da) (currentCommission (pay st))); [done|].
  destruct (Z.eqb_spec (da_commission da) 5); [done|].
  by rewrite andb_false_r.
Qed.

Lemma frame_refl (st : State) : frame st st.
Proof. split; [done|lia|done]. Qed.

Lemma frame_trans (st1 st2 st3 : State) : frame st1 st2 -> frame st2 st3 -> frame st1 st3.
Proof. intros [? ? ?] [? ? ?]. split; [congruence|lia|auto]. Qed.

Lemma eventFrame_refl (st : State) : eventFrame st st.
Proof. by split. Qed.

Lemma eventFrame_trans (st1 st2 st3 : State) :
  eventFrame st1 st2 -> eventFrame st2 st3 -> eventFrame st1 st3.
Proof. intros [? ? ?] [? ? ?]. split; congruence. Qed.

Lemma count_balanced (a : IncrementAnalysis) (c : Counter) :
  balanced a -> balanced (count a c).
Proof. unfold balanced. destruct c; simpl; lia. Qed.

Ltac frame_cases :=
  res_inv; repeat split; simpl; intros;
  repeat match goal with
    | E : (_ =? _) = true |- _ => apply Z.eqb_eq in E
    end;
  try done; try lia; try (apply count_balanced; assumption).

Lemma payCommission4_frame st st' :
  payCommission4 K st = OK st' -> frame st st' /\ eventFrame st st'.
Proof. unfold payCommission4. intros H. frame_cases. Qed.

Lemma payCommission5_frame st st' :
  payCommission5 K st = OK st' -> frame st st' /\ eventFrame st st'.
Proof. unfold payCommission5. intros H. frame_cases. Qed.

Lemma payCommission6_frame st st' :
  payCommission6 K st = OK st' -> frame st st' /\ eventFrame st st'.
Proof. unfold payCommission6. intros H. frame_cases. Qed.

Lemma payCommission7_frame st st' :
  payCommission7 K st = OK st' -> frame st st' /\ eventFrame st st'.
Proof. unfold payCommission7. intros H. frame_cases. Qed.

Lemma daChange_frame da st :
  frame st (daChange data da st) /\ eventFrame st (daChange data da st)
  /\ pay (daChange data da st) = pay st.
Proof. unfold daChange. repeat case_match; repeat split; simpl; try done; lia. Qed.

Lemma gradeEvent_frame sel fx st st' :
  gradeEvent K sel fx st = OK st' -> frame st st' /\ eventFrame st st'.
Proof. unfold gradeEvent. intros H. frame_cases; destruct sel; simpl; lia. Qed.

Lemma promotionEvent_frame pd st st' :
  promotionEvent K pd st = OK st' -> frame st st' /\ eventFrame st st'.
Proof. unfold promotionEvent. intros H. frame_cases. Qed.

Lemma applyEvent_frame e st st' :
  applyEvent K data e st = OK st' -> frame st st' /\ eventFrame st st'.
Proof.
  unfold applyEvent. intros H. destruct (ev_type e).
  - injection H as <-. pose proof (daChange_frame da st). tauto.
  - by apply payCommission4_frame.
  - by apply payCommission5_frame.
  - by apply payCommission6_frame.
  - by apply payCommission7_frame.
  - by apply gradeEvent_frame in H.
  - by apply gradeEvent_frame in H.
  - by apply promotionEvent_frame in H.
  - injection H as <-. unfold accountTestPass. repeat split; simpl; try done; lia.
  - injection H as <-. split; [apply frame_refl | apply eventFrame_refl].
Qed.

(** An event that is no fixation, grade or promotion leaves the pay
    structure as it is. *)
Lemma applyEvent_pay e st st' :
  applyEvent K data e st = OK st' -> isPayEvent (ev_type e) = false -> pay st' = pay st.
Proof.
  unfold applyEvent. intros H Hn. destruct (ev_type e); try discriminate Hn.
  - injection H as <-. apply daChange_frame.
  - injection H as <-. done.
  - injection H as <-. done.
Qed.

Lemma applyEvents_frame evs st st' :
  applyEvents K data evs st = OK st' -> frame st st' /\ eventFrame st st'.
Proof.
  revert st. induction evs as [|e evs IH]; simpl; intros st H.
  - injection H as <-. split; [apply frame_refl | apply eventFrame_refl].
  - apply bind_OK in H as (st1 & H1 & H2).
    apply applyEvent_frame in H1 as [? ?]. apply IH in H2 as [? ?].
    split; [eapply frame_trans | eapply eventFrame_trans]; eauto.
Qed.

Lemma applyEvents_pay evs st st' :
  applyEvents K data evs st = OK st' ->
  Forall (fun e => isPayEvent (ev_type e) = false) evs -> pay st' = pay st.
Proof.
  revert st. induction evs as [|e evs IH]; simpl; intros st H Hall.
  - by injection H as <-.
  - apply bind_OK in H as (st1 & H1 & H2). inversion Hall; subst.
    rewrite (IH _ H2) by done. by eapply applyEvent_pay.
Qed.

Lemma accountTestIncrement_frame st st' :
  accountTestIncrement K st = OK st' -> frame st st'.
Proof. unfold accountTestIncrement, regularIncrement. intros H. frame_cases. Qed.

Lemma annualIncrement_frame st st' : annualIncrement K data st = OK st' -> frame st st'.
Proof.
  unfold annualIncrement. intros H.
  destruct (nextScheduledIncrementDate st) as [next|]; [|injection H as <-; apply frame_refl].
  destruct (_ && _); [|injection H as <-; apply frame_refl].
  apply bind_OK in H as (el & _ & H).
  destruct (_ && _).
  - apply bind_OK in H as (p & Hp & H).
    apply bind_OK in H as (st1 & H1 & H).
    apply bind_OK in H as (ch & _ & H). injection H as <-.
    apply accountTestIncrement_frame in H1 as [Hd Hc Hb].
    unfold regularIncrement in Hp.
    split; simpl in *.
    + done.
    + etrans; [|exact Hc]. res_inv; simpl; lia.
    + intros Hbal. apply Hb. by apply count_balanced.
  - destruct (negb _); injection H as <-; split; simpl; try done; lia.
Qed.

(** Without a scheduled date the annual increment does nothing. *)
Lemma annualIncrement_unscheduled st :
  nextScheduledIncrementDate st = None -> annualIncrement K data st = OK st.
Proof. unfold annualIncrement. by intros ->. Qed.

(** The parts of one round of the loop. *)
Lemma step_parts calcStartDate st st' stored :
  step K data calcStartDate st = OK (st', stored) ->
  exists st1 st2,
    applyEvents K data (monthEvents K data (currentDate st))
      (with_month_locals st [] false) = OK st1
    /\ annualIncrement K data st1 = OK st2
    /\ currentDate st2 = currentDate st
    /\ st' = with_date st2 (nextMonthOf (currentDate st))
    /\ stored = (if calcStartDate <=? currentDate st
                 then Some (monthlyPeriod K data st2) else None).
Proof.
  unfold step. intros H.
  apply bind_OK in H as (st1 & H1 & H). apply bind_OK in H as (st2 & H2 & H).
  simpl in H1.
  pose proof (applyEvents_frame _ _ _ H1) as [[Hd1 _ _] _].
  pose proof (annualIncrement_frame _ _ H2) as [Hd2 _ _].
  simpl in Hd1. assert (Hd : currentDate st2 = currentDate st) by congruence.
  rewrite Hd in H. injection H as <- <-. eauto 10.
Qed.

Lemma step_frame calcStartDate st st' stored :
  step K data calcStartDate st = OK (st', stored) ->
  currentDate st < currentDate st'
  /\ currentCommission (pay st) <= currentCommission (pay st')
  /\ (balanced (counters st) -> balanced (counters st')).
Proof.
  intros H. apply step_parts in H as (st1 & st2 & H1 & H2 & Hd & -> & _).
  apply applyEvents_frame in H1 as [[? ? ?] _].
  apply annualIncrement_frame in H2 as [? ? ?]. simpl in *.
  split; [apply setUTCMonth_next|]. split; [lia|auto].
Qed.

Lemma step_stored calcStartDate st st' p :
  step K data calcStartDate st = OK (st', Some p) ->
  period p = currentDate st
  /\ calcStartDate <= currentDate st
  /\ commission p = currentCommission (pay st')
  /\ basicPay p = currentPay (pay st').
Proof.
  intros H. apply step_parts in H as (st1 & st2 & H1 & H2 & Hd & -> & Hs).
  destruct (Z.leb_spec calcStartDate (currentDate st)); [|discriminate].
  injection Hs as ->. simpl. auto.
Qed.

(** ** The loop *)

(** How a loop that returned came to its result. *)
Lemma loop_returned fuel s e st ps final :
  loop K data fuel s e st = Some (OK (ps, final)) ->
  (e < currentDate st /\ ps = [] /\ final = st)
  \/ (currentDate st <= e
      /\ exists fuel' st' stored rest,
           fuel = S fuel'
           /\ step K data s st = OK (st', stored)
           /\ loop K data fuel' s e st' = Some (OK (rest, final))
           /\ ps = stored_list stored ++ rest).
Proof.
  destruct fuel as [|fuel]; simpl; destruct (Z.leb_spec (currentDate st) e) as [Hle|Hgt];
    intros H; try discriminate.
  - left. by simplify_eq.
  - right. split; [done|].
    destruct (step K data s st) as [[st' o]|err]; [|discriminate].
    destruct (loop K data fuel s e st') as [[[rest fin]|err]|] eqn:Hl; simplify_eq.
    eauto 10.
  - left. by simplify_eq.
Qed.

(** The days up to the end date are rounds enough. *)
Lemma loop_rounds_enough fuel s e st :
  (Z.to_nat (e - currentDate st + 1) <= fuel)%nat ->
  loop K data fuel s e st <> None.
Proof.
  revert st. induction fuel as [|fuel IH]; simpl; intros st Hf.
  - destruct (Z.leb_spec (currentDate st) e); [lia|done].
  - destruct (Z.leb_spec (currentDate st) e); [|done].
    destruct (step K data s st) as [[st' o]|err] eqn:Hs; [|done].
    apply step_frame in Hs as [Hd _].
    specialize (IH st'). destruct (loop K data fuel s e st') as [[[rest fin]|err]|];
      [done|done|]. apply IH. lia.
Qed.

(** More rounds do not change a result. *)
Lemma loop_more_fuel fuel fuel' s e st r :
  (fuel <= fuel')%nat ->
  loop K data fuel s e st = Some r -> loop K data fuel' s e st = Some r.
Proof.
  revert fuel' st r. induction fuel as [|fuel IH]; intros fuel' st r Hf; simpl.
  - destruct fuel'; simpl; destruct (_ <=? _); try done.
  - destruct fuel' as [|fuel']; [lia|]. simpl.
    destruct (_ <=? _); [|done].
    destruct (step K data s st) as [[st' o]|err]; [|done].
    destruct (loop K data fuel s e st') as [r'|] eqn:Hl; [|done].
    rewrite (IH fuel' st' r') by (done || lia). done.
Qed.

(** A quantity that no round lowers, and that each stored record shows as
    it stands within the round, does not decrease along the records. *)
Lemma loop_nondecreasing (q : State -> Z) (qp : PayrollPeriod -> Z) :
  (forall s st st' o, step K data s st = OK (st', o) -> q st <= q st') ->
  (forall s st st' p, step K data s st = OK (st', Some p) -> q st <= qp p <= q st') ->
  forall fuel s e st ps final,
    loop K data fuel s e st = Some (OK (ps, final)) ->
    Forall (fun p => q st <= qp p) ps /\ nondecreasing qp ps.
Proof.
  intros Hq Hp fuel s e. induction fuel as [|fuel IH]; intros st ps final H;
    apply loop_returned in H as [(_ & -> & _) | (_ & f & st' & o & rest & Hf & Hs & Hl & ->)];
    simplify_eq; try (split; [constructor | apply nondecreasing_nil]).
  destruct (IH _ _ _ Hl) as [Hall Hnd].
  pose proof (Hq _ _ _ _ Hs) as Hle.
  destruct o as [p|]; simpl.
  - pose proof (Hp _ _ _ _ Hs) as [Hlo Hhi]. split.
    + constructor; [done|]. eapply Forall_impl; [exact Hall|]. simpl. intros; lia.
    + apply nondecreasing_cons; [|done].
      eapply Forall_impl; [exact Hall|]. simpl. intros; lia.
  - split; [|done]. eapply Forall_impl; [exact Hall|]. simpl. intros; lia.
Qed.

(** The records are stored in the order of their dates, none before the
    date the loop starts from. *)
Lemma loop_chronological fuel s e st ps final :
  loop K data fuel s e st = Some (OK (ps, final)) ->
  Forall (fun p => currentDate st <= period p) ps /\ nondecreasing period ps.
Proof.
  apply (loop_nondecreasing currentDate period).
  - intros s0 st0 st' o Hs. apply step_frame in Hs. lia.
  - intros s0 st0 st' p Hs. pose proof (step_frame _ _ _ _ Hs).
    apply step_stored in Hs. lia.
Qed.

Lemma loop_commission fuel s e st ps final :
  loop K data fuel s e st = Some (OK (ps, final)) ->
  nondecreasing commission ps.
Proof.
  apply (loop_nondecreasing (fun st => currentCommission (pay st)) commission).
  - intros s0 st0 st' o Hs. apply step_frame in Hs. lia.
  - intros s0 st0 st' p Hs. pose proof (step_frame _ _ _ _ Hs).
    apply step_stored in Hs. lia.
Qed.

(** Every stored record is the monthly record of a state of the run. *)
Lemma loop_stored fuel s e st ps final :
  loop K data fuel s e st = Some (OK (ps, final)) ->
  Forall (fun p => exists st2, p = monthlyPeriod K data st2) ps.
Proof.
  revert st ps final. induction fuel as [|fuel IH]; intros st ps final H;
    apply loop_returned in H as [(_ & -> & _) | (_ & f & st' & o & rest & Hf & Hs & Hl & ->)];
    simplify_eq; try constructor.
  apply Forall_app. split; [|by eapply IH].
  apply step_parts in Hs as (st1 & st2 & _ & _ & _ & _ & ->).
  destruct (_ <=? _); simpl; repeat constructor. by exists st2.
Qed.

Lemma step_visited s st st' o :
  Visited K data st -> step K data s st = OK (st', o) -> Visited K data st'.
Proof.
  intros Hv Hs. apply step_parts in Hs as (st1 & st2 & H1 & H2 & _ & -> & _).
  apply visited_advance. eapply visited_increment; [|exact H2].
  assert (Hgen : forall evs sa sb,
             Visited K data sa -> applyEvents K data evs sa = OK sb -> Visited K data sb).
  { induction evs as [|ev evs IH]; simpl; intros sa sb Ha Hb.
    - by injection Hb as <-.
    - apply bind_OK in Hb as (sc & Hc & Hb). eapply IH; [|exact Hb].
      eapply visited_event; eauto. }
  eapply Hgen; [|exact H1]. by apply visited_round.
Qed.

Lemma loop_visited fuel s e st ps final :
  Visited K data st ->
  loop K data fuel s e st = Some (OK (ps, final)) -> Visited K data final.
Proof.
  revert st ps. induction fuel as [|fuel IH]; intros st ps Hv H;
    apply loop_returned in H as [(_ & _ & ->) | (_ & f & st' & o & rest & Hf & Hs & Hl & ->)];
    simplify_eq; try done.
  eapply IH; [|exact Hl]. by eapply step_visited.
Qed.

Lemma visited_balanced st : Visited K data st -> balanced (counters st).
Proof.
  induction 1 as [doj p _ _ | st rs did _ IH | st e st' _ IH He
                 | st st' _ IH Ha | st d _ IH].
  - reflexivity.
  - exact IH.
  - apply applyEvent_frame in He as [[_ _ Hb] _]. auto.
  - apply annualIncrement_frame in Ha as [_ _ Hb]. auto.
  - exact IH.
Qed.

End Frames.

(** ** The yearly groups *)

Lemma pushPeriod_years (m : list PayrollYear) (y z : Z) (p : PayrollPeriod) :
  Forall (fun g => z < year g) m -> z < y -> Forall (fun g => z < year g) (pushPeriod m y p).
Proof.
  induction m as [|g m IH]; cbn [pushPeriod]; intros Hm Hy.
  - repeat constructor. done.
  - inversion Hm; subst. destruct (year g =? y); constructor; cbn [year]; auto.
Qed.

(** Pushing a record of a year not before the years of the map, whose years
    go up, puts the record last. *)
Lemma pushPeriod_last (m : list PayrollYear) (y : Z) (p : PayrollPeriod) :
  StronglySorted Z.lt (map year m) ->
  Forall (fun g => year g <= y) m ->
  concat (map periods (pushPeriod m y p)) = concat (map periods m) ++ [p]
  /\ StronglySorted Z.lt (map year (pushPeriod m y p))
  /\ Forall (fun g => year g <= y) (pushPeriod m y p).
Proof.
  induction m as [|g m IH]; cbn [pushPeriod map concat]; intros Hs Hle.
  - split; [done|]. split.
    + repeat constructor.
    + constructor; [simpl; lia|constructor].
  - inversion Hs as [|? ? Hs' Hg]; subst. inversion Hle as [|? ? Hgy Hle']; subst.
    destruct (Z.eqb_spec (year g) y) as [Heq|Hne].
    + destruct m as [|g' m].
      * cbn [map concat periods year]. rewrite !app_nil_r. split; [done|]. split.
        -- repeat constructor.
        -- constructor; [simpl; lia|constructor].
      * exfalso. inversion Hg; subst. inversion Hle'; subst. lia.
    + destruct (IH Hs' Hle') as (Hc & Hs2 & Hle2). cbn [map concat]. rewrite Hc.
      split; [apply app_assoc|]. split.
      * constructor; [done|]. apply Forall_map.
        apply pushPeriod_years; [|lia]. exact (proj1 (List.Forall_map _ _ _) Hg).
      * constructor; [lia|done].
Qed.

(** Grouping records whose years do not go down, and reading the groups in
    order, gives the records back. *)
Lemma groupByYear_concat (ps : list PayrollPeriod) :
  nondecreasing (fun p => getUTCFullYear (period p)) ps ->
  concat (map periods (groupByYear ps)) = ps.
Proof.
  unfold groupByYear.
  assert (Hgen : forall ps m,
    StronglySorted Z.lt (map year m) ->
    Forall (fun p => Forall (fun g => year g <= getUTCFullYear (period p)) m) ps ->
    nondecreasing (fun p => getUTCFullYear (period p)) ps ->
    concat (map periods
              (fold_left (fun m p => pushPeriod m (getUTCFullYear (period p)) p) ps m))
    = concat (map periods m) ++ ps).
  { clear ps. induction ps as [|p ps IH]; simpl; intros m Hs Hle Hnd.
    - by rewrite app_nil_r.
    - inversion Hle as [|? ? Hp Hps]; subst.
      destruct (pushPeriod_last m (getUTCFullYear (period p)) p Hs Hp) as (Hc & Hs2 & Hle2).
      rewrite IH; [by rewrite Hc, <- app_assoc|done| |by eapply nondecreasing_tail].
      apply nondecreasing_head in Hnd. rewrite Forall_forall in Hnd.
      apply Forall_forall. intros q Hq. specialize (Hnd q Hq).
      eapply Forall_impl; [exact Hle2|]. simpl. intros; lia. }
  intros Hnd. rewrite Hgen; [done|constructor| |done].
  apply Forall_forall. intros; constructor.
Qed.

(** ** The whole run *)

Section Run.

Variable K : Constants.
Variable data : EmployeeInput.

(** A run that returns went through the loop, from the initial state. *)
Lemma simulate_returned ps final :
  simulate K data = OK (ps, final) ->
  exists doj calcStartDate calcEndDate p,
    dateOfJoining data = Some doj
    /\ calculationStartDate data = Some calcStartDate
    /\ calculationEndDate data = Some calcEndDate
    /\ ymd 1980 1 1 <= doj
    /\ initialFixation K data doj = OK p
    /\ loop K data (roundsBound doj (effectiveEndDate data calcEndDate)) calcStartDate
         (effectiveEndDate data calcEndDate) (initialState data doj p)
       = Some (OK (ps, final)).
Proof.
  unfold simulate. intros H.
  destruct (dateOfJoining data) as [doj|]; [|discriminate].
  destruct (calculationStartDate data) as [s|]; [|discriminate].
  destruct (calculationEndDate data) as [e|]; [|discriminate].
  destruct (Z.ltb_spec doj (ymd 1980 1 1)); [discriminate|].
  apply bind_OK in H as (p & Hp & H).
  destruct (loop _ _ _ _ _ _) as [r|] eqn:Hl; simpl in H; [|discriminate].
  subst r. eauto 12.
Qed.

(** The run never comes out of the loop for want of rounds. *)
Lemma simulate_rounds_enough doj calcStartDate calcEndDate p :
  loop K data (roundsBound doj calcEndDate) calcStartDate calcEndDate
    (initialState data doj p) <> None.
Proof. apply loop_rounds_enough. unfold roundsBound. cbn [currentDate initialState]. lia. Qed.

(** The records of a result, read year by year, are the stored records in
    the order the loop stored them. *)
Lemma calculateFullPayroll_returned r :
  calculateFullPayroll K data = OK r ->
  exists final,
    simulate K data = OK (periodsOf r, final)
    /\ incrementAnalysis r = counters final
    /\ fixations r = snapshots final.
Proof.
  unfold calculateFullPayroll. intros H.
  apply bind_OK in H as ([ps final] & Hs & H). injection H as <-.
  exists final. unfold periodsOf. simpl. split; [|done].
  rewrite groupByYear_concat; [done|].
  apply simulate_returned in Hs as (doj & s & e & p & _ & _ & _ & _ & _ & Hl).
  apply loop_chronological in Hl as [_ Hnd].
  eapply nondecreasing_compose; [|exact Hnd]. intros x y. apply YearFromDay_mono.
Qed.

End Run.

(** * The properties of the specification *)

(** ** C5: probation and the first increment *)

(** C5.  For a one-year probation (the period type [1 Year], or a custom
    period of at most 18 months) with a test requirement, the first
    increment, and no five-year termination: the increment is eligible exactly
    when the test status is Passed and a pass date is given; when eligible
    its effective date is the later of the normal date and the pass date;
    otherwise it is withheld, the effective date staying the normal date. *)
Theorem C5_first_increment_gated_by_test (params : ProbationEligibilityCheck) (start : Date) :
  probationYearsOf (pc_probationPeriodType params) (pc_probationPeriodMonths params) = 1 ->
  pc_hasTestRequirement params = true ->
  incrementNumber params = 1 ->
  pc_probationStartDate params = Some start ->
  notPassedNorExempted (pc_testStatus params)
    && moreThanFiveYears (normalIncrementDate params - start) = false ->
  exists r,
    calculateProbationIncrementEligibility params = OK r
    /\ (eligible r = true <->
        pc_testStatus params = Some Passed /\ is_Some (pc_testPassedDate params))
    /\ (forall passed, eligible r = true -> pc_testPassedDate params = Some passed ->
        er_effectiveDate r = Z.max (normalIncrementDate params) passed)
    /\ (eligible r = false ->
        er_effectiveDate r = normalIncrementDate params /\ er_remarks r = FirstWithheld).
Proof.
  intros Hyears Htest Hn Hstart Hterm.
  exists (testGatedIncrement params FirstSanctionedAfterTest FirstWithheld). split.
  - unfold calculateProbationIncrementEligibility.
    rewrite Htest, Hstart, Hn, Hyears. cbn [andb fromOption mbind res_bind].
    destruct (notPassedNorExempted (pc_testStatus params)); cbn in Hterm |- *;
      [rewrite Hterm|]; reflexivity.
  - unfold testGatedIncrement.
    destruct (pc_testStatus params) as [[]|], (pc_testPassedDate params) as [passed|];
      cbn [eligible er_effectiveDate er_remarks]; repeat split;
      try done; try congruence; try (intros [? ?]; done);
      try (intros [? [? ?]]; done); by eexists.
Qed.

(** C5, at a custom probation of twelve months: the test was passed after
    the normal date. *)
Lemma C5_first_increment_gated_by_test_witness :
  exists r,
    calculateProbationIncrementEligibility
      {| incrementNumber := 1; pc_probationPeriodType := Custom;
         pc_probationPeriodMonths := Some 12; pc_hasTestRequirement := true;
         pc_testStatus := Some Passed; pc_testPassedDate := Some (ymd 2021 9 15);
         normalIncrementDate := ymd 2021 7 1;
         pc_probationStartDate := Some (ymd 2020 7 1) |} = OK r
    /\ eligible r = true /\ er_effectiveDate r = ymd 2021 9 15.
Proof.
  destruct (C5_first_increment_gated_by_test
              {| incrementNumber := 1; pc_probationPeriodType := Custom;
                 pc_probationPeriodMonths := Some 12; pc_hasTestRequirement := true;
                 pc_testStatus := Some Passed; pc_testPassedDate := Some (ymd 2021 9 15);
                 normalIncrementDate := ymd 2021 7 1;
                 pc_probationStartDate := Some (ymd 2020 7 1) |}
              (ymd 2020 7 1) eq_refl eq_refl eq_refl eq_refl eq_refl)
    as (r & Hr & Hel & Heff & _).
  exists r. split; [exact Hr|].
  assert (He : eligible r = true) by (apply Hel; split; [reflexivity | by eexists]).
  split; [exact He|]. exact (Heff (ymd 2021 9 15) He eq_refl).
Defined.

(** ** C3: fixation in the 7th commission *)

Lemma find_first_at_least (row : list Z) (pay x : Z) :
  List.find (fun p => pay <=? p) row = Some x ->
  StronglySorted Z.le row -> leastStageAtLeast row pay x.
Proof.
  induction row as [|a row IH]; simpl; [done|].
  intros Hf Hs. inversion Hs as [|? ? Hs' Ha]; subst.
  destruct (Z.leb_spec pay a).
  - injection Hf as <-. split; [left|]. split; [done|].
    intros q Hq _. apply elem_of_cons in Hq as [->|Hq]; [lia|].
    rewrite List.Forall_forall in Ha. apply Ha. by apply list_elem_of_In.
  - destruct (IH Hf Hs') as (Hin & Hle & Hmin). split; [by right|]. split; [done|].
    intros q Hq Hpq. apply elem_of_cons in Hq as [->|Hq]; [lia|]. by apply Hmin.
Qed.

Lemma find_none_below (row : list Z) (pay : Z) :
  List.find (fun p => pay <=? p) row = None -> forall q, q ∈ row -> q < pay.
Proof.
  induction row as [|a row IH]; simpl; intros Hf q Hq; [inversion Hq|].
  destruct (Z.leb_spec pay a); [discriminate|].
  apply elem_of_cons in Hq as [->|Hq]; [done|]. by apply IH.
Qed.

Lemma last_greatest (row : list Z) (x : Z) :
  last row = Some x -> StronglySorted Z.le row -> greatestStage row x.
Proof.
  induction row as [|a row IH]; [done|].
  intros Hl Hs. inversion Hs as [|? ? Hs' Ha]; subst.
  destruct row as [|b row].
  - injection Hl as <-. split; [left|]. intros q Hq.
    apply list_elem_of_singleton in Hq as ->. lia.
  - destruct (IH Hl Hs') as [Hin Hmax]. split; [by right|].
    intros q Hq. apply elem_of_cons in Hq as [->|Hq]; [|by apply Hmax].
    rewrite List.Forall_forall in Ha. apply Ha. by apply list_elem_of_In.
Qed.

(** [findPayInMatrix] on a row of ordered, positive stages. *)
Lemma findPayInMatrix_fits (K : Constants) (pay level : Z) (row : list Z) :
  PAY_MATRIX K !! level = Some row ->
  row <> [] -> StronglySorted Z.le row -> Forall (fun q => 0 < q) row ->
  exists x, findPayInMatrix K pay level = OK x /\ fitsIntoLevel row pay x.
Proof.
  intros Hrow Hne Hs Hpos. unfold findPayInMatrix. rewrite Hrow. cbn [fromOption mbind res_bind].
  destruct (last row) as [z|] eqn:Hlast; [|by apply last_None in Hlast].
  destruct (List.find _ row) as [x|] eqn:Hf.
  - pose proof (find_first_at_least _ _ _ Hf Hs) as Hleast.
    assert (0 < x) by (rewrite Forall_forall in Hpos; apply Hpos, Hleast).
    destruct (Z.eqb_spec x 0); [lia|]. exists x. split; [done|]. by left.
  - exists z. split; [done|]. right. split; [by apply find_none_below|by apply last_greatest].
Qed.

(** What [payCommission7] does, when the 7th-commission transition fires on
    a state of the 6th commission: without a level for the grade pay the run
    fails; otherwise the multiplied pay is [Math.round] of the old basic pay
    times 2.57 (the product of the two binary64 numbers), the level is the
    table's level for the grade pay, the basic pay is the least stage of that
    level at or above the multiplied pay (the greatest stage when there is
    none), and pay in pay band and grade pay are cleared.  The rows of the pay
    matrix are ordered lists of positive stages. *)
Lemma payCommission7_fixation (K : Constants) (data : EmployeeInput)
    (e : Event) (st : State) :
  ev_type e = PAY_COMMISSION_7 ->
  currentCommission (pay st) = 6 ->
  let oldBasicPay := currentPay (pay st) in
  let levelOf := currentGradePay (pay st) ≫= (fun g => GRADE_PAY_TO_LEVEL K !! g) in
  (levelOf = None \/ levelOf = Some 0 ->
   applyEvent K data e st = Throw (NoLevelForGradePay (currentGradePay (pay st))))
  /\ (forall level row,
        levelOf = Some level -> level <> 0 ->
        PAY_MATRIX K !! level = Some row ->
        row <> [] -> StronglySorted Z.le row -> Forall (fun q => 0 < q) row ->
        exists st' multipliedPay,
          applyEvent K data e st = OK st'
          /\ multipliedPay
             = Js.round (Js.mul (Js.num oldBasicPay) (Js.div (Js.num 257) (Js.num 100)))
          /\ fitsIntoLevel row multipliedPay (currentPay (pay st'))
          /\ currentLevel (pay st') = level
          /\ currentCommission (pay st') = 7
          /\ currentPipb (pay st') = None
          /\ currentGradePay (pay st') = None
          /\ fixation7thPC (snapshots st')
             = Some {| f7_oldBasicPay := oldBasicPay; f7_multipliedPay := multipliedPay;
                       f7_initialRevisedPay := currentPay (pay st'); f7_level := level |}).
Proof.
  intros He Hc. cbn zeta. unfold applyEvent. rewrite He. unfold payCommission7.
  rewrite Hc. cbn [Z.eqb Pos.eqb]. unfold levelForGradePay. split.
  - intros [-> | ->]; reflexivity.
  - intros level row -> Hl0 Hrow Hne Hs Hpos.
    destruct (Z.eqb_spec level 0); [done|]. cbn [mbind res_bind].
    destruct (findPayInMatrix_fits K (fitment7 (currentPay (pay st))) level row
                Hrow Hne Hs Hpos) as (x & Hx & Hfit).
    rewrite Hx. cbn [mbind res_bind]. eexists _, (fitment7 (currentPay (pay st))).
    split; [reflexivity|]. by repeat split.
Qed.

(** A state of the 6th commission on the eve of the 7th: basic pay 13500,
    of which 4200 are grade pay. *)
Example payCommission7_fixation_at_13500 :
  exists st' multipliedPay,
    applyEvent Sample.tables Sample.across2016
      {| ev_date := ymd 2016 1 1; ev_type := PAY_COMMISSION_7; ev_priority := 2 |}
      (initialState Sample.across2016 (ymd 2015 7 1)
         {| currentPay := 13500; currentCommission := 6; currentLevel := 0;
            currentPipb := Some 9300; currentGradePay := Some 4200;
            currentScaleString := None; currentOrdinaryScaleString := None |}) = OK st'
    /\ multipliedPay = 34695
    /\ currentPay (pay st') = 35400
    /\ currentLevel (pay st') = 8.
Proof.
  destruct (payCommission7_fixation Sample.tables Sample.across2016
              {| ev_date := ymd 2016 1 1; ev_type := PAY_COMMISSION_7; ev_priority := 2 |}
              (initialState Sample.across2016 (ymd 2015 7 1)
                 {| currentPay := 13500; currentCommission := 6; currentLevel := 0;
                    currentPipb := Some 9300; currentGradePay := Some 4200;
                    currentScaleString := None; currentOrdinaryScaleString := None |})
              eq_refl eq_refl) as [_ H].
  destruct (H 8 [35400; 36500; 37600; 38700; 39900; 41100; 42300])
    as (st' & m & Hst & Hm & Hfit & Hl & _).
  - vm_compute. reflexivity.
  - discriminate.
  - vm_compute. reflexivity.
  - discriminate.
  - repeat constructor; lia.
  - repeat constructor; lia.
  - assert (m = 34695) as -> by (rewrite Hm; vm_compute; reflexivity).
    exists st', 34695. split; [exact Hst|]. split; [reflexivity|]. split; [|exact Hl].
    destruct Hfit as [(Hin & Hle & Hmin) | (Hall & _)].
    + assert (35400 ∈ [35400; 36500; 37600; 38700; 39900; 41100; 42300]) as H35 by (by left).
      specialize (Hmin 35400 H35). repeat (apply elem_of_cons in Hin as [Hin|Hin]; [lia|]).
      inversion Hin.
    + exfalso. assert (35400 ∈ [35400; 36500; 37600; 38700; 39900; 41100; 42300]) as H35
        by (by left). specialize (Hall 35400 H35). lia.
Qed.

(** C3, the code against the claim.  The multiplied pay is rounded from the
    binary64 product with the binary64 nearest to 2.57.  At the failing
    input, a basic pay of 22850 at the end of 2015 (pay in pay band 18650,
    grade pay 4200), the product 58724.5 rounds to 58725, and the engine
    stores 58724 in the fixation of the result. *)
Theorem C3_fixation_in_seventh_commission :
  multipliedPay_spec 22850 = 58725
  /\ fitment7 22850 = 58724
  /\ exists r,
       calculateFullPayroll Sample.tables Cases.payInPayBand18650 = OK r
       /\ fixation7thPC (fixations r)
          = Some {| f7_oldBasicPay := 22850; f7_multipliedPay := 58724;
                    f7_initialRevisedPay := 42300; f7_level := 8 |}.
Proof.
  split; [reflexivity|]. split; [vm_compute; reflexivity|].
  eexists. split; [vm_compute; reflexivity|]. reflexivity.
Qed.

(** ** Breaks in service and dated schedule entries *)

Lemma totalBreakDays_nonneg (data : EmployeeInput) : 0 <= totalBreakDays data.
Proof.
  unfold totalBreakDays.
  assert (Hgen : forall bs acc, 0 <= acc ->
    0 <= fold_left
           (fun total b =>
              match startDate b, endDate b with
              | Some s, Some e => if s <? e then total + (e - s) else total
              | _, _ => total
              end) bs acc).
  { induction bs as [|b bs IH]; simpl; intros acc Hacc; [done|]. apply IH.
    destruct (startDate b) as [s|], (endDate b) as [e|]; try done.
    destruct (Z.ltb_spec s e); lia. }
  by apply Hgen.
Qed.

Lemma filter_dated_elem (data : EmployeeInput) (c : AnnualIncrementChange) :
  c ∈ List.filter hasEffectiveDate (annualIncrementChanges data)
  <-> c ∈ annualIncrementChanges data /\ is_Some (effectiveDate c).
Proof.
  rewrite !list_elem_of_In, List.filter_In. unfold hasEffectiveDate.
  destruct (effectiveDate c); split; intros [? ?]; split; try done; by eexists.
Qed.

(** ** C6: the commission never goes back *)

(** C6.  When the engine returns a result, its monthly records, read year by
    year, are in the order of their months, and their commission does not
    decrease along them. *)
Theorem C6_commission_nondecreasing (K : Constants) (data : EmployeeInput) (r : PayrollResult) :
  calculateFullPayroll K data = OK r ->
  nondecreasing period (periodsOf r) /\ nondecreasing commission (periodsOf r).
Proof.
  intros H. apply calculateFullPayroll_returned in H as (final & Hs & _).
  apply simulate_returned in Hs as (doj & s & e & p & _ & _ & _ & _ & _ & Hl).
  split; [by apply loop_chronological in Hl as [_ ?] | by apply loop_commission in Hl].
Qed.

(** The records of July 2015 to March 2017 for a joiner of the 6th
    commission: the transition of January 2016 is the seventh record. *)
Lemma C6_commission_nondecreasing_witness :
  exists r p q,
    calculateFullPayroll Sample.tables Sample.across2016 = OK r
    /\ periodsOf r !! 5%nat = Some p /\ periodsOf r !! 6%nat = Some q
    /\ commission p = 6 /\ commission q = 7
    /\ commission p <= commission q.
Proof.
  destruct (calculateFullPayroll Sample.tables Sample.across2016) as [r|] eqn:Hr;
    [|vm_compute in Hr; discriminate Hr].
  destruct (periodsOf r !! 5%nat) as [p|] eqn:Hp;
    [|vm_compute in Hr; injection Hr as <-; vm_compute in Hp; discriminate Hp].
  destruct (periodsOf r !! 6%nat) as [q|] eqn:Hq;
    [|vm_compute in Hr; injection Hr as <-; vm_compute in Hq; discriminate Hq].
  exists r, p, q. split; [reflexivity|]. split; [exact Hp|]. split; [exact Hq|].
  pose proof (proj2 (C6_commission_nondecreasing Sample.tables Sample.across2016 r Hr)
                5%nat 6%nat p q (le_S _ _ (le_n _)) Hp Hq) as Hle.
  vm_compute in Hr. injection Hr as <-.
  vm_compute in Hp. injection Hp as <-. vm_compute in Hq. injection Hq as <-.
  split; [reflexivity|]. split; [reflexivity|]. exact Hle.
Defined.

(** ** C7: the total of the increment counters *)

(** C7.  In every state the simulation passes through, and in the result, the
    total of the increment analysis is the sum of its regular, selection
    grade, special grade, promotion and account test tallies. *)
Theorem C7_total_is_sum_of_tallies (K : Constants) (data : EmployeeInput) :
  (forall st, Visited K data st -> balanced (counters st))
  /\ (forall r, calculateFullPayroll K data = OK r -> balanced (incrementAnalysis r)).
Proof.
  split; [apply visited_balanced|].
  intros r H. apply calculateFullPayroll_returned in H as (final & Hs & -> & _).
  apply simulate_returned in Hs as (doj & s & e & p & Hdoj & _ & _ & _ & Hp & Hl).
  apply (visited_balanced K data). eapply loop_visited; [|exact Hl].
  by apply visited_start.
Qed.

Lemma C7_total_is_sum_of_tallies_witness :
  exists r,
    calculateFullPayroll Sample.tables Sample.across2016 = OK r
    /\ regular (incrementAnalysis r) = 1
    /\ balanced (incrementAnalysis r).
Proof.
  destruct (calculateFullPayroll Sample.tables Sample.across2016) as [r|] eqn:Hr;
    [|vm_compute in Hr; discriminate Hr].
  exists r. split; [reflexivity|].
  split; [vm_compute in Hr; injection Hr as <-; reflexivity|].
  exact (proj2 (C7_total_is_sum_of_tallies Sample.tables Sample.across2016) r Hr).
Defined.

(** ** C8: the arithmetic of a monthly record *)

Lemma sumDeductions_sum (ds : list Deduction) : sumDeductions ds = sumOfAmounts ds.
Proof.
  unfold sumDeductions, sumOfAmounts.
  assert (Hgen : forall l acc,
    fold_left (fun sum d => sum + ded_amount d) l acc
    = acc + foldr Z.add 0 (map ded_amount l)).
  { induction l as [|d l IH]; simpl; intros acc; [lia|]. rewrite IH. lia. }
  rewrite Hgen. lia.
Qed.

Lemma deductionsOf_elem (data : EmployeeInput) (cps : Z) (d : Deduction) :
  d ∈ deductionsOf data cps
  <-> d = {| ded_name := CPS_GPF; ded_amount := cps |}
      \/ (0 < professionalTax data
          /\ d = {| ded_name := ProfessionalTax; ded_amount := professionalTax data |})
      \/ (0 < gisContribution data
          /\ d = {| ded_name := GIS; ded_amount := gisContribution data |}).
Proof.
  unfold deductionsOf.
  destruct (Z.ltb_spec 0 (professionalTax data)), (Z.ltb_spec 0 (gisContribution data));
    cbn [app]; rewrite ?elem_of_cons, ?elem_of_nil; intuition lia.
Qed.

Lemma deductionsOf_names (data : EmployeeInput) (cps : Z) :
  hasDeduction CPS_GPF (deductionsOf data cps)
  /\ (hasDeduction ProfessionalTax (deductionsOf data cps) <-> 0 < professionalTax data)
  /\ (hasDeduction GIS (deductionsOf data cps) <-> 0 < gisContribution data).
Proof.
  unfold hasDeduction. split; [|split; split].
  - eexists. split; [apply deductionsOf_elem; left; reflexivity | reflexivity].
  - intros (d & Hd & Hn). apply deductionsOf_elem in Hd as [-> | [[? ->] | [? ->]]];
      done.
  - intros Hpos. eexists. split; [apply deductionsOf_elem; right; left; done | reflexivity].
  - intros (d & Hd & Hn). apply deductionsOf_elem in Hd as [-> | [[? ->] | [? ->]]];
      done.
  - intros Hpos. eexists. split; [apply deductionsOf_elem; right; right; done | reflexivity].
Qed.

(** C8.  In every monthly record of a result, the gross pay is the sum of
    basic pay, DA, HRA, CCA and medical allowance, and the net pay is the
    gross pay less the total deductions, which is the sum of the amounts of
    the list of deductions; that list always has the CPS/GPF line, and has the
    professional tax line, and the GIS line, exactly when the configured
    amount is positive. *)
Theorem C8_gross_and_net_pay (K : Constants) (data : EmployeeInput) (r : PayrollResult)
    (p : PayrollPeriod) :
  calculateFullPayroll K data = OK r ->
  p ∈ periodsOf r ->
  grossPay p = basicPay p + daAmount p + hra p + cca p + pp_medicalAllowance p
  /\ netPay p = grossPay p - totalDeductions p
  /\ totalDeductions p = sumOfAmounts (deductions p)
  /\ hasDeduction CPS_GPF (deductions p)
  /\ (hasDeduction ProfessionalTax (deductions p) <-> 0 < professionalTax data)
  /\ (hasDeduction GIS (deductions p) <-> 0 < gisContribution data).
Proof.
  intros H Hp. apply calculateFullPayroll_returned in H as (final & Hs & _).
  apply simulate_returned in Hs as (doj & s & e & p0 & _ & _ & _ & _ & _ & Hl).
  apply loop_stored in Hl. rewrite Forall_forall in Hl.
  destruct (Hl p Hp) as [st2 ->]. cbn [monthlyPeriod grossPay netPay totalDeductions
    basicPay daAmount hra cca pp_medicalAllowance deductions].
  split; [reflexivity|]. split; [reflexivity|]. split; [apply sumDeductions_sum|].
  apply deductionsOf_names.
Qed.

Lemma C8_gross_and_net_pay_witness :
  exists r p,
    calculateFullPayroll Sample.tables Sample.august2018 = OK r
    /\ periodsOf r !! 0%nat = Some p
    /\ grossPay p = 21500 /\ totalDeductions p = 2320
    /\ netPay p = grossPay p - totalDeductions p.
Proof.
  destruct (calculateFullPayroll Sample.tables Sample.august2018) as [r|] eqn:Hr;
    [|vm_compute in Hr; discriminate Hr].
  destruct (periodsOf r !! 0%nat) as [p|] eqn:Hp;
    [|vm_compute in Hr; injection Hr as <-; vm_compute in Hp; discriminate Hp].
  exists r, p. split; [reflexivity|]. split; [exact Hp|].
  pose proof (C8_gross_and_net_pay Sample.tables Sample.august2018 r p Hr
                (list_elem_of_lookup_2 _ _ _ Hp)) as (_ & Hnet & _).
  vm_compute in Hr. injection Hr as <-. vm_compute in Hp. injection Hp as <-.
  split; [reflexivity|]. split; [reflexivity|]. exact Hnet.
Defined.

(** ** C9: a shorter window gives a prefix *)

(** The loop to an earlier end date stores a prefix of the records of the
    loop to a later one: those not after the earlier date. *)
Lemma loop_prefix (K : Constants) (data : EmployeeInput) (fuel2 : nat) :
  forall (fuel1 : nat) (s e1 e2 : Date) (st : State) ps2 fin2,
    e1 <= e2 ->
    (Z.to_nat (e1 - currentDate st + 1) <= fuel1)%nat ->
    loop K data fuel2 s e2 st = Some (OK (ps2, fin2)) ->
    exists ps1 fin1 rest,
      loop K data fuel1 s e1 st = Some (OK (ps1, fin1))
      /\ ps2 = ps1 ++ rest
      /\ Forall (fun p => period p <= e1) ps1
      /\ Forall (fun p => e1 < period p) rest.
Proof.
  induction fuel2 as [|fuel2 IH]; intros fuel1 s e1 e2 st ps2 fin2 He Hf H.
  all: assert (Hlate : e1 < currentDate st ->
         exists ps1 fin1 rest,
           loop K data fuel1 s e1 st = Some (OK (ps1, fin1))
           /\ ps2 = ps1 ++ rest
           /\ Forall (fun p => period p <= e1) ps1
           /\ Forall (fun p => e1 < period p) rest).
  1,3: intros Hlt; exists [], st, ps2; split;
       [destruct fuel1; simpl; destruct (Z.leb_spec (currentDate st) e1); (lia || done)|];
       split; [done|]; split; [constructor|];
       apply loop_chronological in H as [Hall _];
       eapply Forall_impl; [exact Hall|]; simpl; intros; lia.
  all: apply loop_returned in H
         as [(Hgt & -> & ->) | (Hle & f & st' & o & rest2 & Hfuel & Hs & Hl & ->)];
       simplify_eq.
  - apply Hlate. lia.
  - apply Hlate. lia.
  - destruct (Z.le_gt_cases (currentDate st) e1) as [Hin|Hout]; [|by apply Hlate].
    destruct fuel1 as [|fuel1]; [lia|].
    pose proof (step_frame _ _ _ _ _ _ Hs) as [Hd _].
    destruct (IH fuel1 s e1 e2 st' rest2 fin2 He ltac:(lia) Hl)
      as (ps1 & fin1 & rest & Hl1 & -> & Hall1 & Hrest).
    exists (stored_list o ++ ps1), fin1, rest. split.
    + simpl. destruct (Z.leb_spec (currentDate st) e1); [|lia]. by rewrite Hs, Hl1.
    + split; [by rewrite app_assoc|]. split; [|done].
      apply Forall_app. split; [|done].
      destruct o as [p|]; [|constructor]. apply step_stored in Hs as [Hper _].
      repeat constructor. lia.
Qed.

(** The way back from the loop to the run. *)
Lemma simulate_intro (K : Constants) (data : EmployeeInput) doj s e p ps final :
  dateOfJoining data = Some doj ->
  calculationStartDate data = Some s ->
  calculationEndDate data = Some e ->
  ymd 1980 1 1 <= doj ->
  initialFixation K data doj = OK p ->
  loop K data (roundsBound doj (effectiveEndDate data e)) s (effectiveEndDate data e)
    (initialState data doj p) = Some (OK (ps, final)) ->
  simulate K data = OK (ps, final).
Proof.
  intros Hd Hs He H80 Hp Hl. unfold simulate. rewrite Hd, Hs, He.
  destruct (Z.ltb_spec doj (ymd 1980 1 1)); [lia|].
  rewrite Hp. cbn [mbind res_bind]. by rewrite Hl.
Qed.

Lemma effectiveEndDate_le (data : EmployeeInput) (x y : Date) :
  x <= y -> effectiveEndDate data x <= effectiveEndDate data y.
Proof.
  unfold effectiveEndDate. intros H. destruct (dateOfRelief data) as [rd|]; [|done].
  destruct (Z.ltb_spec rd x), (Z.ltb_spec rd y); lia.
Qed.

(** C9.  Two runs that differ only in the requested end date, [X] before
    [Y], with no relief date before [X]: when the run to [Y] returns, so does
    the run to [X], and its monthly records are the records of the run to [Y]
    up to [X], one by one the same in every field, followed in the run to [Y]
    by records after [X] only. *)
Theorem C9_shorter_window_is_prefix (K : Constants) (data : EmployeeInput) (X Y : Date)
    (rY : PayrollResult) :
  X < Y ->
  (forall reliefDate, dateOfRelief data = Some reliefDate -> X <= reliefDate) ->
  calculateFullPayroll K (withCalculationEndDate data Y) = OK rY ->
  exists rX rest,
    calculateFullPayroll K (withCalculationEndDate data X) = OK rX
    /\ periodsOf rY = periodsOf rX ++ rest
    /\ Forall (fun p => period p <= X) (periodsOf rX)
    /\ Forall (fun p => X < period p) rest.
Proof.
  intros HXY Hrelief H.
  apply calculateFullPayroll_returned in H as (finY & Hs & _).
  apply simulate_returned in Hs as (doj & s & e & p & Hdoj & Hstart & Hend & H80 & Hp & Hl).
  cbn in Hdoj, Hstart, Hend. injection Hend as <-.
  change (effectiveEndDate (withCalculationEndDate data Y) Y)
    with (effectiveEndDate data Y) in Hl.
  change (loop K (withCalculationEndDate data Y)) with (loop K data) in Hl.
  change (initialState (withCalculationEndDate data Y) doj p)
    with (initialState data doj p) in Hl.
  change (initialFixation K (withCalculationEndDate data Y) doj)
    with (initialFixation K data doj) in Hp.
  assert (HX : effectiveEndDate data X = X).
  { unfold effectiveEndDate. destruct (dateOfRelief data) as [rd|] eqn:Hrd; [|done].
    specialize (Hrelief rd eq_refl). destruct (Z.ltb_spec rd X); [lia|done]. }
  assert (HXle : X <= effectiveEndDate data Y).
  { rewrite <- HX at 1. apply effectiveEndDate_le. lia. }
  assert (Hrounds : (Z.to_nat (X - currentDate (initialState data doj p) + 1)
                     <= roundsBound doj X)%nat)
    by (unfold roundsBound; cbn [currentDate initialState]; lia).
  destruct (loop_prefix K data _ (roundsBound doj X) s X _ _ _ _ HXle Hrounds Hl)
    as (ps1 & fin1 & rest & Hl1 & Hpre & Hall1 & Hrest).
  assert (HsX : simulate K (withCalculationEndDate data X) = OK (ps1, fin1)).
  { apply (simulate_intro _ _ doj s X p); try done.
    change (effectiveEndDate (withCalculationEndDate data X) X)
      with (effectiveEndDate data X). rewrite HX. exact Hl1. }
  destruct (calculateFullPayroll K (withCalculationEndDate data X)) as [rX|err] eqn:HrX.
  - apply calculateFullPayroll_returned in HrX as (finX & HsX' & _).
    rewrite HsX in HsX'. injection HsX' as -> ->.
    exists rX, rest. auto.
  - unfold calculateFullPayroll in HrX. rewrite HsX in HrX. discriminate HrX.
Qed.

Lemma C9_shorter_window_is_prefix_witness :
  exists rY rX rest,
    calculateFullPayroll Sample.tables
      (withCalculationEndDate Sample.across2016 (ymd 2016 3 1)) = OK rY
    /\ calculateFullPayroll Sample.tables
         (withCalculationEndDate Sample.across2016 (ymd 2015 9 1)) = OK rX
    /\ periodsOf rY = periodsOf rX ++ rest
    /\ length (periodsOf rX) = 3%nat.
Proof.
  destruct (calculateFullPayroll Sample.tables
              (withCalculationEndDate Sample.across2016 (ymd 2016 3 1))) as [rY|] eqn:HY;
    [|vm_compute in HY; discriminate HY].
  assert (Hrelief : forall reliefDate,
             dateOfRelief Sample.across2016 = Some reliefDate -> ymd 2015 9 1 <= reliefDate)
    by (intros reliefDate Hrd; discriminate Hrd).
  destruct (C9_shorter_window_is_prefix Sample.tables Sample.across2016
              (ymd 2015 9 1) (ymd 2016 3 1) rY eq_refl Hrelief HY)
    as (rX & rest & HX & Hpre & _ & _).
  exists rY, rX, rest. split; [reflexivity|]. split; [exact HX|]. split; [exact Hpre|].
  vm_compute in HX. injection HX as <-. reflexivity.
Defined.

(** ** C10: no schedule, no annual increment *)

Section Unscheduled.

Variable K : Constants.
Variable data : EmployeeInput.
Hypothesis undated : Forall (fun c => effectiveDate c = None) (annualIncrementChanges data).

Lemma undated_sorted : sortedIncrementChanges data = [].
Proof.
  unfold sortedIncrementChanges.
  assert (Hnil : forall l, Forall (fun c => effectiveDate c = None) l ->
                           List.filter hasEffectiveDate l = []).
  { induction 1 as [|c l Hc _ IH]; cbn [List.filter]; [done|].
    unfold hasEffectiveDate at 1. by rewrite Hc. }
  by rewrite (Hnil _ undated).
Qed.

Lemma undated_first (doj : Date) : firstScheduledIncrementDate data doj = None.
Proof. unfold firstScheduledIncrementDate. by rewrite undated_sorted. Qed.

Lemma annualIncrement_without_schedule st st' :
  unscheduled st -> annualIncrement K data st = OK st' -> st' = st.
Proof.
  intros [Hn _] H. rewrite (annualIncrement_unscheduled K data st Hn) in H.
  by injection H.
Qed.

Lemma visited_unscheduled st : Visited K data st -> unscheduled st.
Proof.
  induction 1 as [doj p _ _ | st rs did _ IH | st e st' _ IH He
                 | st st' _ IH Ha | st d _ IH].
  - split; [apply undated_first|]. by split.
  - exact IH.
  - apply applyEvent_frame in He as [_ [Hs Hr Ht]]. destruct IH as (? & ? & ?).
    split; [congruence|]. split; congruence.
  - by rewrite (annualIncrement_without_schedule _ _ IH Ha).
  - exact IH.
Qed.

(** A round without a schedule changes the basic pay only in a month with a
    fixation, a grade or a promotion event. *)
Lemma step_without_schedule s st st' o :
  unscheduled st ->
  step K data s st = OK (st', o) ->
  unscheduled st'
  /\ (currentPay (pay st') = currentPay (pay st) \/ payEventIn K data (currentDate st)).
Proof.
  intros Hu Hs. apply step_parts in Hs as (st1 & st2 & H1 & H2 & _ & -> & _).
  assert (Hu1 : unscheduled st1).
  { pose proof (applyEvents_frame _ _ _ _ _ H1) as [_ [Hsch Hr Ht]].
    destruct Hu as (? & ? & ?). simpl in *. split; [congruence|]. split; congruence. }
  rewrite (annualIncrement_without_schedule _ _ Hu1 H2). split; [exact Hu1|].
  cbn [pay with_date].
  destruct (decide (Forall (fun e => isPayEvent (ev_type e) = false)
                      (monthEvents K data (currentDate st)))) as [Hall|Hex].
  - left. by rewrite (applyEvents_pay _ _ _ _ _ H1 Hall).
  - right. apply not_Forall_Exists in Hex; [|apply _].
    apply Exists_exists in Hex as (e & He & Hpay). apply monthEvents_elem in He as [? ?].
    exists e. split; [done|]. split; [done|].
    cbn in Hpay. by destruct (isPayEvent (ev_type e)).
Qed.

Lemma loop_without_schedule fuel s e st ps final :
  unscheduled st ->
  loop K data fuel s e st = Some (OK (ps, final)) ->
  unscheduled final
  /\ (s <= currentDate st ->
      forall q, head ps = Some q ->
                basicPay q = currentPay (pay st) \/ payEventIn K data (period q))
  /\ payChangesExplained K data ps.
Proof.
  revert st ps. induction fuel as [|fuel IH]; intros st ps Hu H;
    apply loop_returned in H
      as [(_ & -> & ->) | (Hle & f & st' & o & rest & Hfuel & Hs & Hl & ->)];
    simplify_eq;
    try (split; [done|]; split; [intros _ q Hq; discriminate Hq|];
         intros i p q Hp; rewrite lookup_nil in Hp; discriminate Hp).
  pose proof (step_without_schedule _ _ _ _ Hu Hs) as [Hu' Hpay].
  pose proof (step_frame _ _ _ _ _ _ Hs) as [Hd _].
  destruct (IH _ _ Hu' Hl) as (Hfin & Hhead & Hrest). split; [exact Hfin|].
  destruct o as [p|]; cbn [stored_list app].
  - apply step_stored in Hs as (Hper & Hstart & _ & Hbasic). split.
    + intros _ q [= <-]. rewrite Hper, Hbasic. exact Hpay.
    + intros i p1 q Hp1 Hq Hne. destruct i as [|i]; cbn in Hp1, Hq.
      * injection Hp1 as <-.
        destruct (Hhead ltac:(lia) q) as [Heq|Hev]; [by destruct rest; simplify_eq| |done].
        congruence.
      * by apply (Hrest i p1 q).
  - assert (Hbefore : currentDate st < s).
    { apply step_parts in Hs as (sa & sb & _ & _ & _ & _ & Ho).
      destruct (Z.leb_spec s (currentDate st)); [discriminate|done]. }
    split; [intros; lia|exact Hrest].
Qed.

End Unscheduled.

(** C10.  When no entry of the schedule list has an effective date (an empty
    list included), no state of the simulation has a scheduled increment
    date; the result counts no annual and no account test increment; and the
    basic pay of a monthly record differs from that of the record before only
    in a month with a commission transition, a selection or special grade
    event or a promotion. *)
Theorem C10_no_schedule_no_increment (K : Constants) (data : EmployeeInput) :
  Forall (fun c => effectiveDate c = None) (annualIncrementChanges data) ->
  (forall st, Visited K data st -> nextScheduledIncrementDate st = None)
  /\ (forall r,
        calculateFullPayroll K data = OK r ->
        regular (incrementAnalysis r) = 0
        /\ accountTest (incrementAnalysis r) = 0
        /\ forall (i : nat) (p q : PayrollPeriod),
             periodsOf r !! i = Some p -> periodsOf r !! S i = Some q ->
             basicPay p <> basicPay q -> payEventIn K data (period q)).
Proof.
  intros Hundated. split.
  - intros st Hv. by apply (visited_unscheduled K data Hundated) in Hv as [? _].
  - intros r H. apply calculateFullPayroll_returned in H as (final & Hs & -> & _).
    apply simulate_returned in Hs as (doj & s & e & p & Hdoj & _ & _ & _ & Hp & Hl).
    assert (Hu : unscheduled (initialState data doj p))
      by (apply (visited_unscheduled K data Hundated); by apply visited_start).
    destruct (loop_without_schedule K data _ _ _ _ _ _ Hu Hl)
      as ((_ & Hr & Ht) & _ & Hchanges).
    split; [exact Hr|]. split; [exact Ht|]. exact Hchanges.
Qed.

Lemma C10_no_schedule_no_increment_witness :
  exists r p q,
    calculateFullPayroll Sample.tables Sample.across2016_unscheduled = OK r
    /\ regular (incrementAnalysis r) = 0
    /\ periodsOf r !! 5%nat = Some p /\ periodsOf r !! 6%nat = Some q
    /\ basicPay p = 13500 /\ basicPay q = 35400
    /\ payEventIn Sample.tables Sample.across2016_unscheduled (period q).
Proof.
  destruct (calculateFullPayroll Sample.tables Sample.across2016_unscheduled) as [r|] eqn:Hr;
    [|vm_compute in Hr; discriminate Hr].
  destruct (periodsOf r !! 5%nat) as [p|] eqn:Hp;
    [|vm_compute in Hr; injection Hr as <-; vm_compute in Hp; discriminate Hp].
  destruct (periodsOf r !! 6%nat) as [q|] eqn:Hq;
    [|vm_compute in Hr; injection Hr as <-; vm_compute in Hq; discriminate Hq].
  destruct (C10_no_schedule_no_increment Sample.tables Sample.across2016_unscheduled
              (Forall_nil_2 _)) as [_ H].
  destruct (H r Hr) as (Hreg & _ & Hch).
  specialize (Hch 5%nat p q Hp Hq).
  exists r, p, q. split; [reflexivity|]. split; [exact Hreg|].
  split; [exact Hp|]. split; [exact Hq|].
  vm_compute in Hr. injection Hr as <-.
  vm_compute in Hp. injection Hp as <-. vm_compute in Hq. injection Hq as <-.
  split; [reflexivity|]. split; [reflexivity|]. apply Hch. discriminate.
Defined.

(** ** C1 and C2: the DA rate of a month *)

Section DaRate.

Variable K : Constants.
Variable data : EmployeeInput.

Ltac rate_cases := res_inv; simpl; try done.

(** Only a DA change writes the DA rate. *)
Lemma applyEvent_daRate e st st' :
  applyEvent K data e st = OK st' -> isDaChange (ev_type e) = false ->
  currentDaRate st' = currentDaRate st.
Proof.
  unfold applyEvent. intros H Hn. destruct (ev_type e); try discriminate Hn.
  - unfold payCommission4 in H. rate_cases.
  - unfold payCommission5 in H. rate_cases.
  - unfold payCommission6 in H. rate_cases.
  - unfold payCommission7 in H. rate_cases.
  - unfold gradeEvent in H. rate_cases.
  - unfold gradeEvent in H. rate_cases.
  - unfold promotionEvent in H. rate_cases.
  - by injection H as <-.
  - by injection H as <-.
Qed.

Lemma applyEvents_daRate evs st st' :
  applyEvents K data evs st = OK st' ->
  Forall (fun e => isDaChange (ev_type e) = false) evs ->
  currentDaRate st' = currentDaRate st.
Proof.
  revert st. induction evs as [|e evs IH]; simpl; intros st H Hall.
  - by injection H as <-.
  - apply bind_OK in H as (st1 & H1 & H2). inversion Hall; subst.
    rewrite (IH _ H2) by done. by eapply applyEvent_daRate.
Qed.

Lemma annualIncrement_daRate st st' :
  annualIncrement K data st = OK st' -> currentDaRate st' = currentDaRate st.
Proof.
  unfold annualIncrement, accountTestIncrement. intros H. rate_cases.
Qed.

(** The DA changes among the events are the entries of the DA table. *)
Lemma events_da (e : Event) :
  e ∈ events K data -> isDaChange (ev_type e) = true ->
  exists da, da ∈ DA_RATES K /\ ev_date e = da_date da.
Proof.
  unfold events, datedEvent, fixedEvent. rewrite !elem_of_app, !elem_of_cons, elem_of_nil.
  rewrite !list_elem_of_fmap.
  intros [(da & -> & Hda) | [ [-> | [-> | [-> | [-> | []]]]] | [H | [H | [H | [H | H]]]]]];
    cbn; try done.
  - eauto.
  - destruct (selectionGradeDate data); [|inversion H].
    apply list_elem_of_singleton in H as ->. done.
  - destruct (specialGradeDate data); [|inversion H].
    apply list_elem_of_singleton in H as ->. done.
  - apply list_elem_of_In, in_concat in H as (l & Hl & He).
    apply list_elem_of_In, list_elem_of_fmap in Hl as (pr & -> & _).
    destruct (promo_date pr); [|inversion He]. destruct He as [<-|[]]. done.
  - apply list_elem_of_In, in_concat in H as (l & Hl & He).
    apply list_elem_of_In, list_elem_of_fmap in Hl as (pr & -> & _).
    destruct (passDate pr); [|inversion He]. destruct He as [<-|[]]. done.
  - destruct H as (rev & -> & _). done.
Qed.

(** When no entry of the DA table is dated in the month of joining, the
    record of that month has the DA rate 0. *)
Lemma first_record_daRate doj s r p :
  calculateFullPayroll K data = OK r ->
  dateOfJoining data = Some doj ->
  calculationStartDate data = Some s ->
  s <= doj ->
  head (periodsOf r) = Some p ->
  Forall (fun da => (getUTCFullYear (da_date da) =? getUTCFullYear doj)
                    && (getUTCMonth (da_date da) =? getUTCMonth doj) = false) (DA_RATES K) ->
  period p = doj /\ daRate p = 0.
Proof.
  intros H Hdoj Hs Hle Hhead Hno.
  apply calculateFullPayroll_returned in H as (final & Hsim & _).
  apply simulate_returned in Hsim
    as (doj' & s' & e & p0 & Hdoj' & Hs' & _ & _ & _ & Hl).
  rewrite Hdoj in Hdoj'. injection Hdoj' as <-. rewrite Hs in Hs'. injection Hs' as <-.
  apply loop_returned in Hl
    as [(_ & Hnil & _) | (_ & f & st' & o & rest & _ & Hstep & _ & Hps)].
  { rewrite Hnil in Hhead. discriminate Hhead. }
  apply step_parts in Hstep as (st1 & st2 & H1 & H2 & Hd & _ & ->).
  cbn [currentDate initialState] in *.
  destruct (Z.leb_spec s doj); [|lia]. rewrite Hps in Hhead. injection Hhead as <-.
  cbn [period daRate monthlyPeriod]. split; [exact Hd|].
  rewrite (annualIncrement_daRate _ _ H2).
  rewrite (applyEvents_daRate _ _ _ H1); [reflexivity|].
  apply Forall_forall. intros ev Hev. apply monthEvents_elem in Hev as [Hev Hsame].
  destruct (isDaChange (ev_type ev)) eqn:Hda; [|done].
  destruct (events_da ev Hev Hda) as (da & Hin & Hdate).
  rewrite Forall_forall in Hno. specialize (Hno da Hin).
  unfold sameMonth in Hsame. rewrite Hdate in Hsame. congruence.
Qed.

End DaRate.

(** C1, the code against the claim.  In every month the DA changes are
    applied before the commission transitions (priority 1 before priority 2),
    and a DA entry made for the new commission, met while the old one is
    still current, is dropped.  At the failing input, a joiner of July 2015
    under the 6th commission with a DA table that has 0 per cent for the 7th
    commission from 2016-01-01, the record of January 2016 is of the 7th
    commission at the 119 per cent of the 6th. *)
Theorem C1_da_change_applied_before_fixation :
  (forall K data d (i j : nat) e1 e2,
     monthEvents K data d !! i = Some e1 ->
     monthEvents K data d !! j = Some e2 ->
     isDaChange (ev_type e1) = true ->
     isCommissionTransition (ev_type e2) = true ->
     (i < j)%nat)
  /\ (forall data da st,
        currentCommission (pay st) = 6 -> da_commission da = 7 ->
        daChange data da st = st)
  /\ map ev_type (monthEvents Sample.tables Sample.across2016 (ymd 2016 1 1))
     = [ DA_CHANGE {| da_date := ymd 2016 1 1; da_rate := 0; da_commission := 7 |};
         PAY_COMMISSION_7 ]
  /\ exists r p,
       calculateFullPayroll Sample.tables Sample.across2016 = OK r
       /\ periodsOf r !! 6%nat = Some p
       /\ period p = ymd 2016 1 1
       /\ commission p = 7
       /\ daRate p = 119
       /\ da_rate <$> mostRecentDa (DA_RATES Sample.tables) 7 (ymd 2016 1 1) = Some 0.
Proof.
  split; [apply monthEvents_da_first|].
  split; [intros data da st Hc Hd; apply daChange_other_commission; lia|].
  split; [vm_compute; reflexivity|].
  eexists. eexists. split; [vm_compute; reflexivity|].
  split; [vm_compute; reflexivity|]. repeat split.
Qed.

(** C2, the code against the claim.  The loop starts from a DA rate of 0 and
    looks no rate up: when no entry of the DA table is dated in the month of
    joining, the record of that month has the rate 0, whatever rates took
    effect before.  At the failing input, a joiner of 1 August 2018 at level
    7 with a DA table whose entry of 9 per cent for the 7th commission took
    effect on 2018-07-01, every record up to December 2018 has the rate 0,
    not the 9 of the most recent matching entry. *)
Theorem C2_da_rate_before_first_change :
  (forall K data doj s r p,
     calculateFullPayroll K data = OK r ->
     dateOfJoining data = Some doj ->
     calculationStartDate data = Some s ->
     s <= doj ->
     head (periodsOf r) = Some p ->
     Forall (fun da => (getUTCFullYear (da_date da) =? getUTCFullYear doj)
                       && (getUTCMonth (da_date da) =? getUTCMonth doj) = false)
       (DA_RATES K) ->
     period p = doj /\ daRate p = 0)
  /\ exists r p,
       calculateFullPayroll Sample.tables Sample.august2018 = OK r
       /\ periodsOf r !! 0%nat = Some p
       /\ period p = ymd 2018 8 1
       /\ commission p = 7
       /\ daRate p = 0
       /\ da_rate <$> mostRecentDa (DA_RATES Sample.tables) 7 (ymd 2018 8 1) = Some 9
       /\ Forall (fun q => daRate q = 0) (periodsOf r).
Proof.
  split; [apply first_record_daRate|].
  eexists. eexists. split; [vm_compute; reflexivity|].
  split; [vm_compute; reflexivity|]. repeat split. vm_compute. repeat constructor.
Qed.

(** * Further properties of the code *)

(** ** The calendar of the month loop *)

Lemma DayFromYear_succ (y : Z) : DayFromYear (y + 1) = DayFromYear y + daysInYear y.
Proof.
  unfold DayFromYear, daysInYear, InLeapYear.
  destruct (Z.eqb_spec (y mod 4) 0), (Z.eqb_spec (y mod 100) 0), (Z.eqb_spec (y mod 400) 0);
    cbn [andb orb negb]; Z.div_mod_to_equations; lia.
Qed.

Lemma YearFromDay_unique (d y : Z) :
  DayFromYear y <= d < DayFromYear (y + 1) -> YearFromDay d = y.
Proof.
  intros [Hlo Hhi]. pose proof (YearFromDay_spec d) as [H1 H2].
  destruct (Z.lt_trichotomy (YearFromDay d) y) as [Hlt | [Heq | Hgt]]; [|done|].
  - pose proof (DayFromYear_mono (YearFromDay d + 1) y). lia.
  - pose proof (DayFromYear_mono (y + 1) (YearFromDay d)). lia.
Qed.

Lemma dayInYear_range (d : Z) :
  0 <= d - DayFromYear (YearFromDay d) < daysInYear (YearFromDay d).
Proof.
  pose proof (YearFromDay_spec d). pose proof (DayFromYear_succ (YearFromDay d)). lia.
Qed.

Lemma monthStart_succ (l : bool) (m : Z) :
  0 <= m <= 10 -> monthStart l (m + 1) = monthStart l m + daysInMonth l m.
Proof.
  intros H.
  assert (m = 0 \/ m = 1 \/ m = 2 \/ m = 3 \/ m = 4 \/ m = 5 \/ m = 6 \/ m = 7
          \/ m = 8 \/ m = 9 \/ m = 10) as Hm by lia.
  destruct l; repeat (destruct Hm as [-> | Hm]; [vm_compute; reflexivity|]);
    subst; vm_compute; reflexivity.
Qed.

Lemma monthStart_last (l : bool) :
  monthStart l 11 + daysInMonth l 11 = (if l then 366 else 365).
Proof. by destruct l. Qed.

(** The month of a day is the month whose days hold the day. *)
Lemma MonthFromDay_spec (d : Z) :
  let y := YearFromDay d in
  let l := InLeapYear y in
  let m := MonthFromDay d in
  0 <= m <= 11
  /\ monthStart l m <= d - DayFromYear y < monthStart l m + daysInMonth l m.
Proof.
  cbn zeta. pose proof (dayInYear_range d) as Hr. unfold daysInYear in Hr.
  split; [apply MonthFromDay_range|].
  unfold MonthFromDay.
  set (dy := d - DayFromYear (YearFromDay d)) in *.
  assert (Hcases : forall l : bool,
            0 <= dy < (if l then 366 else 365) ->
            let m :=
              if dy <? monthStart l 1 then 0
              else if dy <? monthStart l 2 then 1
              else if dy <? monthStart l 3 then 2
              else if dy <? monthStart l 4 then 3
              else if dy <? monthStart l 5 then 4
              else if dy <? monthStart l 6 then 5
              else if dy <? monthStart l 7 then 6
              else if dy <? monthStart l 8 then 7
              else if dy <? monthStart l 9 then 8
              else if dy <? monthStart l 10 then 9
              else if dy <? monthStart l 11 then 10
              else 11 in
            monthStart l m <= dy < monthStart l m + daysInMonth l m).
  { clear. intros l Hr. cbn zeta.
    do 11 (match goal with
           | |- context [if ?a <? ?b then ?k else _] =>
               destruct (Z.ltb_spec a b); [destruct l; cbn in *; lia|]
           end).
    destruct l; cbn in *; lia. }
  apply Hcases. exact Hr.
Qed.

Lemma monthStart_mono (l : bool) (a b : Z) :
  0 <= a -> a < b -> b <= 11 -> monthStart l a + daysInMonth l a <= monthStart l b.
Proof.
  intros Ha Hab Hb.
  assert (Hstep : forall k, (k <= 11)%nat ->
            monthStart l (Z.of_nat k) + daysInMonth l (Z.of_nat k)
            = monthStart l (Z.of_nat k + 1) \/ k = 11%nat).
  { intros k Hk. destruct (decide (k = 11%nat)) as [|Hne]; [by right|left].
    symmetry. apply monthStart_succ. lia. }
  assert (Hmono : forall n k, (k + n <= 11)%nat ->
            monthStart l (Z.of_nat k) <= monthStart l (Z.of_nat (k + n))).
  { induction n as [|n IH]; intros k Hk.
    - rewrite Nat.add_0_r. lia.
    - etrans; [apply (IH k); lia|].
      replace (Z.of_nat (k + S n)) with (Z.of_nat (k + n) + 1) by lia.
      rewrite monthStart_succ by lia.
      assert (0 < daysInMonth l (Z.of_nat (k + n))); [|lia].
      unfold daysInMonth. repeat case_match; lia. }
  rewrite <- (monthStart_succ l a) by lia.
  specialize (Hmono (Z.to_nat (b - (a + 1))) (Z.to_nat (a + 1)) ltac:(lia)).
  replace (Z.of_nat (Z.to_nat (a + 1) + Z.to_nat (b - (a + 1)))) with b in Hmono by lia.
  replace (Z.of_nat (Z.to_nat (a + 1))) with (a + 1) in Hmono by lia. done.
Qed.

(** A day between the first and the last day of a month has that month. *)
Lemma MonthFromDay_unique (d m : Z) :
  let y := YearFromDay d in
  let l := InLeapYear y in
  0 <= m <= 11 ->
  monthStart l m <= d - DayFromYear y < monthStart l m + daysInMonth l m ->
  MonthFromDay d = m.
Proof.
  cbn zeta. intros Hm Hd. pose proof (MonthFromDay_spec d) as [Hr Hs]. cbn zeta in Hs.
  destruct (Z.lt_trichotomy (MonthFromDay d) m) as [Hlt | [Heq | Hgt]]; [|done|].
  - pose proof (monthStart_mono (InLeapYear (YearFromDay d)) (MonthFromDay d) m). lia.
  - pose proof (monthStart_mono (InLeapYear (YearFromDay d)) m (MonthFromDay d)). lia.
Qed.

(** The fields of [MakeDay] on a month and a day of the calendar. *)
Lemma MakeDay_fields (y m dt : Z) :
  0 <= m <= 11 -> 1 <= dt <= daysInMonth (InLeapYear y) m ->
  YearFromDay (MakeDay y m dt) = y
  /\ MonthFromDay (MakeDay y m dt) = m
  /\ DateFromDay (MakeDay y m dt) = dt.
Proof.
  intros Hm Hdt. unfold MakeDay.
  rewrite (Z.div_small m 12), (Z.mod_small m 12), Z.add_0_r by lia.
  set (d := DayFromYear y + monthStart (InLeapYear y) m + dt - 1).
  assert (Hbound : 0 <= monthStart (InLeapYear y) m
                   /\ monthStart (InLeapYear y) m + daysInMonth (InLeapYear y) m
                      <= daysInYear y).
  { unfold daysInYear.
    assert (m = 0 \/ m = 1 \/ m = 2 \/ m = 3 \/ m = 4 \/ m = 5 \/ m = 6 \/ m = 7
            \/ m = 8 \/ m = 9 \/ m = 10 \/ m = 11) as Hc by lia.
    destruct (InLeapYear y); repeat (destruct Hc as [-> | Hc]); subst; cbn; lia. }
  assert (Hy : YearFromDay d = y).
  { apply YearFromDay_unique. rewrite DayFromYear_succ. unfold d. lia. }
  assert (Hmo : MonthFromDay d = m).
  { apply MonthFromDay_unique; [done|]. rewrite Hy. unfold d. lia. }
  split; [done|]. split; [done|].
  unfold DateFromDay. rewrite Hy, Hmo. unfold d. lia.
Qed.

(** The fields of a date make the date. *)
Lemma MakeDay_of_fields (d : Date) :
  MakeDay (getUTCFullYear d) (getUTCMonth d) (getUTCDate d) = d.
Proof.
  unfold getUTCDate, getUTCMonth, getUTCFullYear, MakeDay, DateFromDay.
  pose proof (MonthFromDay_range d) as Hm.
  rewrite (Z.div_small (MonthFromDay d) 12) by lia.
  rewrite (Z.mod_small (MonthFromDay d) 12) by lia.
  rewrite Z.add_0_r. lia.
Qed.

Lemma getUTCDate_range (d : Date) :
  1 <= getUTCDate d <= daysInMonth (InLeapYear (getUTCFullYear d)) (getUTCMonth d).
Proof.
  pose proof (MonthFromDay_spec d) as [_ H]. cbn zeta in H.
  unfold getUTCDate, DateFromDay, getUTCFullYear, getUTCMonth. lia.
Qed.

Lemma MakeDay_norm (y m dt : Z) : MakeDay y m dt = MakeDay (y + m / 12) (m mod 12) dt.
Proof.
  unfold MakeDay.
  rewrite (Z.div_small (m mod 12) 12), (Z.mod_small (m mod 12) 12), Z.add_0_r
    by (apply Z.mod_pos_bound; lia).
  done.
Qed.

Lemma MakeDay_shift (y m dt n : Z) : MakeDay y m (dt + n) = MakeDay y m dt + n.
Proof. unfold MakeDay. lia. Qed.

Lemma daysInMonth_range (l : bool) (m : Z) : 28 <= daysInMonth l m <= 31.
Proof. unfold daysInMonth. repeat case_match; lia. Qed.

(** The first day of the month after [m]: of the next month of the year, or
    of January of the next year. *)
Lemma MakeDay_month_end (y m : Z) :
  0 <= m <= 11 ->
  MakeDay y m 1 + daysInMonth (InLeapYear y) m = MakeDay y (m + 1) 1.
Proof.
  intros Hm. destruct (decide (m = 11)) as [->|Hne].
  - unfold MakeDay. change ((11 + 1) / 12) with 1. change ((11 + 1) mod 12) with 0.
    change (11 / 12) with 0. change (11 mod 12) with 11.
    rewrite Z.add_0_r, DayFromYear_succ. unfold daysInYear.
    pose proof (monthStart_last (InLeapYear y)).
    change (monthStart (InLeapYear (y + 1)) 0) with 0. lia.
  - unfold MakeDay.
    rewrite (Z.div_small m 12), (Z.mod_small m 12) by lia.
    rewrite (Z.div_small (m + 1) 12), (Z.mod_small (m + 1) 12) by lia.
    rewrite !Z.add_0_r, monthStart_succ by lia. lia.
Qed.

Lemma monthIndex_MakeDay (y m dt : Z) :
  1 <= dt <= daysInMonth (InLeapYear (y + m / 12)) (m mod 12) ->
  monthIndex (MakeDay y m dt) = 12 * y + m /\ getUTCDate (MakeDay y m dt) = dt.
Proof.
  intros Hdt. rewrite MakeDay_norm.
  pose proof (Z.mod_pos_bound m 12 ltac:(lia)) as Hm.
  destruct (MakeDay_fields (y + m / 12) (m mod 12) dt) as (Hy & Hmo & Hd); [lia|done|].
  unfold monthIndex, getUTCFullYear, getUTCMonth, getUTCDate. rewrite Hy, Hmo, Hd.
  split; [|done]. Z.div_mod_to_equations. lia.
Qed.

Lemma monthIndex_fields (d : Date) :
  monthIndex d / 12 = getUTCFullYear d /\ monthIndex d mod 12 = getUTCMonth d.
Proof.
  unfold monthIndex. pose proof (MonthFromDay_range d). unfold getUTCMonth.
  split.
  - rewrite Z.mul_comm, Z.div_add_l by lia. rewrite Z.div_small by lia. lia.
  - rewrite Z.add_comm, Z.mul_comm, Z.mod_add by lia. apply Z.mod_small. lia.
Qed.

Lemma monthAfter_spec (d : Date) :
  monthAfter d
  = (getUTCFullYear d + (getUTCMonth d + 1) / 12, (getUTCMonth d + 1) mod 12).
Proof.
  unfold monthAfter, monthIndex. pose proof (MonthFromDay_range d). unfold getUTCMonth.
  f_equal.
  - replace (12 * getUTCFullYear d + MonthFromDay d + 1)
      with (getUTCFullYear d * 12 + (MonthFromDay d + 1)) by lia.
    rewrite Z.div_add_l by lia. done.
  - replace (12 * getUTCFullYear d + MonthFromDay d + 1)
      with (MonthFromDay d + 1 + getUTCFullYear d * 12) by lia.
    by rewrite Z.mod_add by lia.
Qed.

(** [setUTCMonth(getUTCMonth() + 1)]: the same day of the next month when
    that month has the day, else the days beyond its end into the month
    after it. *)
Lemma nextMonthOf_calendar (d : Date) :
  (getUTCDate d <= daysInMonthAfter d ->
   monthIndex (nextMonthOf d) = monthIndex d + 1
   /\ getUTCDate (nextMonthOf d) = getUTCDate d)
  /\ (daysInMonthAfter d < getUTCDate d ->
      monthIndex (nextMonthOf d) = monthIndex d + 2
      /\ getUTCDate (nextMonthOf d) = getUTCDate d - daysInMonthAfter d).
Proof.
  unfold daysInMonthAfter. rewrite monthAfter_spec. cbn [fst snd].
  pose proof (getUTCDate_range d) as Hdt.
  pose proof (MonthFromDay_range d) as Hm. fold (getUTCMonth d) in Hm.
  unfold nextMonthOf, setUTCMonth.
  set (y := getUTCFullYear d) in *. set (m := getUTCMonth d) in *.
  set (dt := getUTCDate d) in *.
  assert (Hidx : monthIndex d = 12 * y + m) by done.
  split; intros Hn.
  - destruct (monthIndex_MakeDay y (m + 1) dt) as [Hi Hd]; [lia|].
    rewrite Hi, Hd, Hidx. split; lia.
  - set (y' := y + (m + 1) / 12) in *. set (m' := (m + 1) mod 12) in *.
    set (n := daysInMonth (InLeapYear y') m') in *.
    pose proof (daysInMonth_range (InLeapYear y) m).
    assert (Hm' : 0 <= m' <= 10).
    { pose proof (Z.mod_pos_bound (m + 1) 12 ltac:(lia)). fold m' in H0.
      destruct (decide (m' = 11)) as [He|]; [|lia].
      exfalso. unfold n in Hn. rewrite He in Hn. cbn in Hn. lia. }
    assert (Hsame : y' = y /\ m' = m + 1).
    { unfold y', m'. destruct (decide (m = 11)) as [->|].
      - exfalso. change ((11 + 1) mod 12) with 0 in m'. unfold n, m' in Hn. cbn in Hn. lia.
      - rewrite Z.div_small, Z.mod_small by lia. lia. }
    destruct Hsame as [Hy' Hmm].
    replace (MakeDay y (m + 1) dt) with (MakeDay y (m' + 1) (dt - n)).
    + pose proof (daysInMonth_range (InLeapYear (y + (m' + 1) / 12)) ((m' + 1) mod 12)).
      pose proof (daysInMonth_range (InLeapYear y') m') as Hnr. fold n in Hnr.
      destruct (monthIndex_MakeDay y (m' + 1) (dt - n)) as [Hi Hd]; [lia|].
      rewrite Hi, Hd, Hidx. split; lia.
    + replace dt with (1 + (dt - 1)) at 2 by lia.
      rewrite MakeDay_shift, <- Hmm.
      replace (dt - n) with (1 + (dt - n - 1)) by lia. rewrite MakeDay_shift.
      rewrite <- (MakeDay_month_end y m') by lia.
      unfold n. rewrite Hy'. lia.
Qed.

(** X1. The step to the next round, [setUTCMonth(getUTCMonth() + 1)], keeps
    the day of the month and goes to the next calendar month when that month
    has such a day; when it has not, the date lands in the month after, on
    the day less the length of the month that is passed over. *)
Theorem X1_next_month_calendar (d : Date) :
  (getUTCDate d <= daysInMonthAfter d ->
   monthIndex (nextMonthOf d) = monthIndex d + 1
   /\ getUTCDate (nextMonthOf d) = getUTCDate d)
  /\ (daysInMonthAfter d < getUTCDate d ->
      monthIndex (nextMonthOf d) = monthIndex d + 2
      /\ getUTCDate (nextMonthOf d) = getUTCDate d - daysInMonthAfter d).
Proof. exact (nextMonthOf_calendar d). Qed.

(** The months go up with the days. *)
Lemma monthIndex_mono (d d' : Date) : d <= d' -> monthIndex d <= monthIndex d'.
Proof.
  intros Hle. unfold monthIndex, getUTCFullYear, getUTCMonth.
  pose proof (YearFromDay_mono d d' Hle) as Hy.
  pose proof (MonthFromDay_spec d) as [Hr Hs]. pose proof (MonthFromDay_spec d') as [Hr' Hs'].
  cbn zeta in *.
  destruct (decide (YearFromDay d = YearFromDay d')) as [Heq|Hne]; [|lia].
  rewrite Heq in *.
  destruct (Z.le_gt_cases (MonthFromDay d) (MonthFromDay d')) as [|Hgt]; [lia|].
  pose proof (monthStart_mono (InLeapYear (YearFromDay d')) (MonthFromDay d') (MonthFromDay d)).
  lia.
Qed.

(** The loop's step to the next month reaches a later month. *)
Lemma nextMonthOf_later (d : Date) : monthIndex d < monthIndex (nextMonthOf d).
Proof.
  destruct (nextMonthOf_calendar d) as [H1 H2].
  destruct (Z.le_gt_cases (getUTCDate d) (daysInMonthAfter d)) as [Hle|Hgt].
  - destruct (H1 Hle). lia.
  - destruct (H2 Hgt). lia.
Qed.

(** The year and the month of a date, from its month index. *)
Lemma fields_of_monthIndex (e : Date) (M : Z) :
  monthIndex e = M -> getUTCFullYear e = M / 12 /\ getUTCMonth e = M mod 12.
Proof.
  intros <-. assert (Hm : 0 <= getUTCMonth e <= 11) by apply MonthFromDay_range.
  unfold monthIndex. Z.div_mod_to_equations. lia.
Qed.

(** The month that [setUTCMonth] reaches when the day exists in it. *)
Lemma setUTCMonth_monthIndex (d : Date) (n : Z) :
  getUTCDate d
  <= daysInMonth (InLeapYear ((monthIndex d + n) / 12)) ((monthIndex d + n) mod 12) ->
  monthIndex (setUTCMonth d (getUTCMonth d + n)) = monthIndex d + n.
Proof.
  intros Hday.
  assert (Hm : 0 <= getUTCMonth d <= 11) by apply MonthFromDay_range.
  pose proof (getUTCDate_range d) as [Hd1 _].
  assert (Hq : getUTCFullYear d + (getUTCMonth d + n) / 12 = (monthIndex d + n) / 12)
    by (unfold monthIndex; Z.div_mod_to_equations; lia).
  assert (Hr : (getUTCMonth d + n) mod 12 = (monthIndex d + n) mod 12)
    by (unfold monthIndex; Z.div_mod_to_equations; lia).
  rewrite <- Hq, <- Hr in Hday.
  destruct (monthIndex_MakeDay (getUTCFullYear d) (getUTCMonth d + n) (getUTCDate d))
    as [Hi _]; [lia|].
  unfold setUTCMonth. rewrite Hi. unfold monthIndex. lia.
Qed.

(** ** C4: the first scheduled increment date *)

(** C4 (as amended).  When the schedule list has an entry with an effective
    date, and the day of the month of the date of joining exists in the month
    that lies the eligibility months (6 when not given) after the month of
    joining, the first scheduled increment date is computed from the entry
    with the earliest effective date: the month of joining plus the
    eligibility months, the year bumped by one exactly when that month is
    strictly past the entry's increment month, the first day of that
    increment month, and then the total of the break days later.  Years are
    from 100 on, which [Date.UTC] takes as they are.  When no entry has an
    effective date, no date is scheduled. *)
Theorem C4_first_scheduled_date (data : EmployeeInput) (doj : Date) :
  let months := monthIndex doj + default 6 (incrementEligibilityMonths data) in
  ((exists c, c ∈ annualIncrementChanges data /\ is_Some (effectiveDate c)) ->
   getUTCDate doj <= daysInMonth (InLeapYear (months / 12)) (months mod 12) ->
   100 <= months / 12 ->
   exists first,
     head (sortedIncrementChanges data) = Some first
     /\ first ∈ annualIncrementChanges data
     /\ is_Some (effectiveDate first)
     /\ (forall c d, c ∈ annualIncrementChanges data -> effectiveDate c = Some d ->
         effectiveTime first <= d)
     /\ firstScheduledIncrementDate data doj
        = Some (firstScheduledDate_spec doj (incrementEligibilityMonths data)
                  (incrementMonth first) (totalBreakDays data)))
  /\ (Forall (fun c => effectiveDate c = None) (annualIncrementChanges data) ->
      firstScheduledIncrementDate data doj = None).
Proof.
  intros months. split; [|intros Hnone; by apply undated_first].
  intros (c & Hc & Hd) Hday Hyear.
  destruct (sort_by_head effectiveTime
              (List.filter hasEffectiveDate (annualIncrementChanges data)))
    as (first & Hhead & Hin & Hmin).
  { intros Hnil. assert (c ∈ List.filter hasEffectiveDate (annualIncrementChanges data))
      as Hc' by by apply filter_dated_elem.
    rewrite Hnil in Hc'. inversion Hc'. }
  apply filter_dated_elem in Hin as [Hin Hsome].
  exists first. split; [exact Hhead|]. split; [exact Hin|]. split; [exact Hsome|]. split.
  - intros c' d Hc' Hd'. specialize (Hmin c').
    unfold effectiveTime at 2 in Hmin. rewrite Hd' in Hmin. apply Hmin.
    apply filter_dated_elem. split; [done|by eexists].
  - unfold firstScheduledIncrementDate.
    change (Js.sort_by effectiveTime
              (List.filter hasEffectiveDate (annualIncrementChanges data)))
      with (sortedIncrementChanges data) in Hhead.
    destruct (sortedIncrementChanges data) as [|f rest]; [discriminate|].
    injection Hhead as ->. f_equal. cbv zeta.
    destruct (fields_of_monthIndex _ _
                (setUTCMonth_monthIndex doj (default 6 (incrementEligibilityMonths data))
                   Hday)) as (Hy & Hm).
    rewrite Hy, Hm. unfold firstScheduledDate_spec.
    change (12 * getUTCFullYear doj + getUTCMonth doj) with (monthIndex doj).
    change (monthIndex doj + default 6 (incrementEligibilityMonths data)) with months.
    pose proof (totalBreakDays_nonneg data) as HB.
    assert (Hinc : 0 <= incrementMonthIndex (incrementMonth first) <= 11)
      by (destruct (incrementMonth first); cbn; lia).
    assert (Hutc : forall bump, 0 <= bump ->
              UTC (months / 12 + bump) (incrementMonthIndex (incrementMonth first)) 1
              = ymd (months / 12 + bump) (incrementMonthIndex (incrementMonth first) + 1) 1).
    { intros bump Hb. unfold UTC, ymd.
      destruct (Z.leb_spec 0 (months / 12 + bump)), (Z.leb_spec (months / 12 + bump) 99);
        cbn [andb]; try lia; f_equal; lia. }
    assert (Hnext : UTC (if incrementMonthIndex (incrementMonth first) <? months mod 12
                         then months / 12 + 1 else months / 12)
                      (incrementMonthIndex (incrementMonth first)) 1
                    = ymd (months / 12
                           + (if incrementMonthIndex (incrementMonth first) <? months mod 12
                              then 1 else 0))
                        (incrementMonthIndex (incrementMonth first) + 1) 1).
    { destruct (incrementMonthIndex (incrementMonth first) <? months mod 12).
      - apply Hutc. lia.
      - rewrite <- (Hutc 0) by lia. by rewrite Z.add_0_r. }
    rewrite Hnext. destruct (Z.ltb_spec 0 (totalBreakDays data)).
    + apply setUTCDate_shift.
    + lia.
Qed.

(** C4 at the scenario of the specification: joined 2020-07-01, six months of
    eligibility, July increments, a break of sixty days. *)
Lemma C4_first_scheduled_date_witness :
  firstScheduledIncrementDate Sample.withBreak (ymd 2020 7 1) = Some (ymd 2021 8 30).
Proof.
  destruct (C4_first_scheduled_date Sample.withBreak (ymd 2020 7 1)) as [H _].
  destruct H as (first & Hh & _ & _ & _ & ->).
  - exists {| effectiveDate := Some (ymd 2020 7 1); incrementMonth := jul |}.
    split; [left | by eexists].
  - apply Z.leb_le. vm_compute. reflexivity.
  - apply Z.leb_le. vm_compute. reflexivity.
  - injection Hh as <-. reflexivity.
Defined.

(** C4, as stated, fails: a schedule list may hold an entry and still give no
    scheduled date, when no entry has an effective date. *)
Lemma C4_counterexample :
  ~ (forall (data : EmployeeInput) (doj : Date),
       annualIncrementChanges data <> [] ->
       exists c, c ∈ annualIncrementChanges data
         /\ firstScheduledIncrementDate data doj
            = Some (firstScheduledDate_spec doj (incrementEligibilityMonths data)
                      (incrementMonth c) (totalBreakDays data))).
Proof.
  intros H. destruct (H Sample.undatedSchedule (ymd 2020 7 1)) as (c & _ & Hc); [done|].
  discriminate Hc.
Qed.

(** The break scenario of the specification: joined 2020-07-01, six months
    of eligibility, July increments; a break of sixty days moves the first
    scheduled date from 2021-07-01 to 2021-08-30. *)
Example first_scheduled_after_break :
  totalBreakDays Sample.withBreak = 60
  /\ firstScheduledDate_spec (ymd 2020 7 1) (Some 6) jul 0 = ymd 2021 7 1
  /\ firstScheduledIncrementDate Sample.withBreak (ymd 2020 7 1) = Some (ymd 2021 8 30).
Proof. repeat split. Qed.

(** A day of joining that the month six months later has not: joined on 31
    October 2019 with April increments, the rule gives 1 April 2020, as it
    does for the 30th; the engine, whose [setUTCMonth] runs over into May,
    gives 1 April 2021. *)
Example first_scheduled_month_end :
  firstScheduledDate_spec (ymd 2019 10 31) (Some 6) apr 0 = ymd 2020 4 1
  /\ firstScheduledDate_spec (ymd 2019 10 30) (Some 6) apr 0 = ymd 2020 4 1
  /\ firstScheduledIncrementDate Cases.joinedOn31October (ymd 2019 10 31)
     = Some (ymd 2021 4 1).
Proof. repeat split. Qed.

(** ** The dates of the monthly records *)

Section Months.

Variable K : Constants.
Variable data : EmployeeInput.

Lemma step_date s st st' o :
  step K data s st = OK (st', o) -> currentDate st' = nextMonthOf (currentDate st).
Proof. intros H. by apply step_parts in H as (st1 & st2 & _ & _ & _ & -> & _). Qed.

(** The stored record of a round, when the date has reached the start date. *)
Lemma step_stores s st st' o :
  step K data s st = OK (st', o) ->
  (s <= currentDate st -> exists p, o = Some p /\ period p = currentDate st)
  /\ (currentDate st < s -> o = None).
Proof.
  intros H. apply step_parts in H as (st1 & st2 & _ & _ & Hd & _ & ->).
  destruct (Z.leb_spec s (currentDate st)); split; intros; try lia; try done.
  eexists. split; [done|]. exact Hd.
Qed.

(** The records of a loop: one for each date the loop passes from the start
    date on, each a month's step after the one before. *)
Lemma loop_records fuel s e st ps final :
  loop K data fuel s e st = Some (OK (ps, final)) ->
  Forall (fun p => s <= period p <= e) ps
  /\ (s <= currentDate st -> forall p, head ps = Some p -> period p = currentDate st)
  /\ (forall (i : nat) p q, ps !! i = Some p -> ps !! S i = Some q ->
        period q = nextMonthOf (period p)).
Proof.
  revert st ps. induction fuel as [|fuel IH]; intros st ps H;
    apply loop_returned in H
      as [(_ & -> & ->) | (Hle & f & st' & o & rest & Hfuel & Hs & Hl & ->)];
    simplify_eq;
    try (split; [constructor|]; split; [intros _ p Hp; discriminate Hp|];
         intros i p q Hp; rewrite lookup_nil in Hp; discriminate Hp).
  destruct (IH _ _ Hl) as (Hall & Hhead & Hcons).
  pose proof (step_date _ _ _ _ Hs) as Hd.
  assert (Hlt : currentDate st < nextMonthOf (currentDate st)) by apply setUTCMonth_next.
  destruct (step_stores _ _ _ _ Hs) as [Hsome Hnone].
  destruct (Z.le_gt_cases s (currentDate st)) as [Hin|Hout].
  - destruct (Hsome Hin) as (p0 & -> & Hp0). cbn [stored_list app]. split; [|split].
    + constructor; [lia|done].
    + intros _ p [= <-]. done.
    + intros [|i] p q Hp Hq; cbn in Hp, Hq.
      * injection Hp as <-. rewrite Hp0, <- Hd. apply Hhead; [lia|].
        by destruct rest; simplify_eq.
      * by apply (Hcons i).
  - rewrite (Hnone Hout). cbn [stored_list app]. split; [done|]. split; [intros; lia|done].
Qed.

Lemma consecutive_increasing {A : Type} (f : A -> Z) (l : list A) :
  (forall (i : nat) x y, l !! i = Some x -> l !! S i = Some y -> f x < f y) ->
  increasing f l.
Proof.
  intros Hc i j. revert i. induction j as [|j IH]; intros i x y Hij Hx Hy; [lia|].
  destruct (decide (i = j)) as [->|Hne]; [by eapply Hc|].
  destruct (lookup_lt_is_Some_2 l j) as [z Hz].
  { apply lookup_lt_Some in Hy. lia. }
  pose proof (IH i x z ltac:(lia) Hx Hz). pose proof (Hc j z y Hz Hy). lia.
Qed.

End Months.

Section Calendar.

Variable K : Constants.
Variable data : EmployeeInput.

Lemma loop_day_kept fuel s e st ps final :
  getUTCDate (currentDate st) <= 28 ->
  loop K data fuel s e st = Some (OK (ps, final)) ->
  Forall (fun p => getUTCDate (period p) = getUTCDate (currentDate st)) ps.
Proof.
  revert st ps. induction fuel as [|fuel IH]; intros st ps Hday H;
    apply loop_returned in H
      as [(_ & -> & ->) | (Hle & f & st' & o & rest & Hfuel & Hs & Hl & ->)];
    simplify_eq; try constructor.
  pose proof (step_date _ _ _ _ _ _ Hs) as Hd.
  destruct (nextMonthOf_calendar (currentDate st)) as [Hsame _].
  destruct Hsame as [_ Hkeep].
  { pose proof (daysInMonth_range (InLeapYear (fst (monthAfter (currentDate st))))
                  (snd (monthAfter (currentDate st)))). unfold daysInMonthAfter. lia. }
  apply Forall_app. split.
  - destruct o as [p|]; [|constructor]. apply step_stored in Hs as [Hp _].
    repeat constructor. by rewrite Hp.
  - rewrite <- Hkeep, <- Hd. apply IH; [|done]. rewrite Hd, Hkeep. done.
Qed.

End Calendar.

(** X2. The records of a result are in strictly increasing order of calendar
    month: no month has two records. *)
Theorem X2_one_record_per_month (K : Constants) (data : EmployeeInput) (r : PayrollResult) :
  calculateFullPayroll K data = OK r ->
  increasing (fun p => monthIndex (period p)) (periodsOf r).
Proof.
  intros H. apply calculateFullPayroll_returned in H as (final & Hs & _).
  apply simulate_returned in Hs as (doj & s & e & p & _ & _ & _ & _ & _ & Hl).
  apply loop_records in Hl as (_ & _ & Hcons).
  apply consecutive_increasing. intros i x y Hx Hy.
  rewrite (Hcons i x y Hx Hy). apply nextMonthOf_later.
Qed.

(** X2, at a concrete input. *)
Lemma X2_one_record_per_month_witness :
  exists r,
    calculateFullPayroll Sample.tables Sample.august2018 = OK r
    /\ length (periodsOf r) = 5%nat
    /\ increasing (fun p => monthIndex (period p)) (periodsOf r).
Proof.
  destruct (calculateFullPayroll Sample.tables Sample.august2018) as [r|] eqn:Hr;
    [|vm_compute in Hr; discriminate Hr].
  exists r. split; [reflexivity|]. split.
  - vm_compute in Hr. injection Hr as <-. reflexivity.
  - exact (X2_one_record_per_month Sample.tables Sample.august2018 r Hr).
Defined.

(** X3. When the day of the month of the joining date is at most 28, every
    record is dated on that day of its month, and consecutive records are
    one calendar month apart. *)
Theorem X3_records_on_joining_day (K : Constants) (data : EmployeeInput) (r : PayrollResult)
    (doj : Date) :
  calculateFullPayroll K data = OK r ->
  dateOfJoining data = Some doj ->
  getUTCDate doj <= 28 ->
  Forall (fun p => getUTCDate (period p) = getUTCDate doj) (periodsOf r)
  /\ forall (i : nat) p q,
       periodsOf r !! i = Some p -> periodsOf r !! S i = Some q ->
       monthIndex (period q) = monthIndex (period p) + 1.
Proof.
  intros H Hdoj Hday. apply calculateFullPayroll_returned in H as (final & Hs & _).
  apply simulate_returned in Hs as (doj' & s & e & p & Hdoj' & _ & _ & _ & _ & Hl).
  rewrite Hdoj in Hdoj'. injection Hdoj' as <-.
  pose proof (loop_day_kept K data _ _ _ (initialState data doj p) _ _ Hday Hl) as Hkept.
  cbn [currentDate initialState] in Hkept. split; [exact Hkept|].
  apply loop_records in Hl as (_ & _ & Hcons).
  intros i x y Hx Hy. rewrite (Hcons i x y Hx Hy).
  rewrite Forall_forall in Hkept.
  pose proof (Hkept x (list_elem_of_lookup_2 _ _ _ Hx)) as Hdx.
  destruct (nextMonthOf_calendar (period x)) as [[Hm _] _]; [|done].
  pose proof (daysInMonth_range (InLeapYear (fst (monthAfter (period x))))
                (snd (monthAfter (period x)))). unfold daysInMonthAfter. lia.
Qed.

(** X3, at a concrete input. *)
Lemma X3_records_on_joining_day_witness :
  exists r,
    calculateFullPayroll Sample.tables Sample.august2018 = OK r
    /\ Forall (fun p => getUTCDate (period p) = 1) (periodsOf r).
Proof.
  destruct (calculateFullPayroll Sample.tables Sample.august2018) as [r|] eqn:Hr;
    [|vm_compute in Hr; discriminate Hr].
  exists r. split; [reflexivity|].
  exact (proj1 (X3_records_on_joining_day Sample.tables Sample.august2018 r (ymd 2018 8 1)
                  Hr eq_refl ltac:(vm_compute; discriminate))).
Defined.

(** X4. When the month after the joining month is shorter than the day of
    the month of the joining date (joining on 31 January), no record is
    dated in that month. *)
Theorem X4_short_month_skipped (K : Constants) (data : EmployeeInput) (r : PayrollResult)
    (doj : Date) :
  calculateFullPayroll K data = OK r ->
  dateOfJoining data = Some doj ->
  daysInMonthAfter doj < getUTCDate doj ->
  Forall (fun p => monthIndex (period p) <> monthIndex doj + 1) (periodsOf r).
Proof.
  intros H Hdoj Hday. apply calculateFullPayroll_returned in H as (final & Hs & _).
  apply simulate_returned in Hs as (doj' & s & e & p & Hdoj' & _ & _ & _ & _ & Hl).
  rewrite Hdoj in Hdoj'. injection Hdoj' as <-.
  apply loop_returned in Hl
    as [(_ & -> & _) | (_ & f & st' & o & rest & _ & Hstep & Hl & ->)]; [constructor|].
  pose proof (step_date _ _ _ _ _ _ Hstep) as Hd. cbn [currentDate initialState] in Hd.
  destruct (nextMonthOf_calendar doj) as [_ Hskip]. destruct (Hskip Hday) as [Hidx _].
  apply Forall_app. split.
  - destruct o as [p0|]; [|constructor]. apply step_stored in Hstep as [Hp0 _].
    cbn [currentDate initialState] in Hp0. repeat constructor. rewrite Hp0. lia.
  - apply loop_chronological in Hl as [Hall _]. eapply Forall_impl; [exact Hall|].
    cbn beta. intros q Hq. rewrite Hd in Hq.
    pose proof (monthIndex_mono _ _ Hq). lia.
Qed.

(** X4, at a concrete input. *)
Lemma X4_short_month_skipped_witness :
  exists r,
    calculateFullPayroll Sample.tables Cases.joinedOn31 = OK r
    /\ map (fun p => (getUTCMonth (period p) + 1, getUTCDate (period p))) (periodsOf r)
       = [(1, 31); (3, 3); (4, 3); (5, 3); (6, 3)]
    /\ Forall (fun p => monthIndex (period p) <> monthIndex (ymd 2019 1 31) + 1) (periodsOf r).
Proof.
  destruct (calculateFullPayroll Sample.tables Cases.joinedOn31) as [r|] eqn:Hr;
    [|vm_compute in Hr; discriminate Hr].
  exists r. split; [reflexivity|]. split.
  - vm_compute in Hr. injection Hr as <-. vm_compute. reflexivity.
  - exact (X4_short_month_skipped Sample.tables Cases.joinedOn31 r (ymd 2019 1 31)
             Hr eq_refl ltac:(vm_compute; reflexivity)).
Defined.

(** X5. Every record is dated on or after the joining date and the
    calculation start date, and on or before the calculation end date and
    the relief date, when there is one. *)
Theorem X5_records_within_window (K : Constants) (data : EmployeeInput) (r : PayrollResult)
    (doj s e : Date) :
  calculateFullPayroll K data = OK r ->
  dateOfJoining data = Some doj ->
  calculationStartDate data = Some s ->
  calculationEndDate data = Some e ->
  Forall (fun p => doj <= period p /\ s <= period p /\ period p <= e
                   /\ forall reliefDate, dateOfRelief data = Some reliefDate ->
                                         period p <= reliefDate)
    (periodsOf r).
Proof.
  intros H Hdoj Hstart Hend. apply calculateFullPayroll_returned in H as (final & Hs & _).
  apply simulate_returned in Hs as (doj' & s' & e' & p & Hdoj' & Hs' & He' & _ & _ & Hl).
  simplify_eq.
  pose proof (loop_chronological _ _ _ _ _ _ _ _ Hl) as [Hfrom _].
  apply loop_records in Hl as (Hin & _ & _). cbn [currentDate initialState] in Hfrom.
  rewrite Forall_forall in *. intros q Hq. specialize (Hfrom q Hq). specialize (Hin q Hq).
  unfold effectiveEndDate in Hin.
  split; [done|]. split; [lia|].
  destruct (dateOfRelief data) as [rd|].
  - destruct (Z.ltb_spec rd e'); split; try lia; intros ? [= <-]; lia.
  - split; [lia|]. intros ? [=].
Qed.

(** X5, at a concrete input. *)
Lemma X5_records_within_window_witness :
  exists r,
    calculateFullPayroll Sample.tables Sample.august2018 = OK r
    /\ Forall (fun p => ymd 2018 8 1 <= period p <= ymd 2018 12 1) (periodsOf r).
Proof.
  destruct (calculateFullPayroll Sample.tables Sample.august2018) as [r|] eqn:Hr;
    [|vm_compute in Hr; discriminate Hr].
  exists r. split; [reflexivity|].
  pose proof (X5_records_within_window Sample.tables Sample.august2018 r
                (ymd 2018 8 1) (ymd 2018 8 1) (ymd 2018 12 1) Hr eq_refl eq_refl eq_refl) as H.
  eapply Forall_impl; [exact H|]. cbn beta. intros p (? & ? & ? & _). lia.
Defined.

(** ** Yearly groups and totals *)

Lemma pushPeriod_groups (m : list PayrollYear) (p : PayrollPeriod) :
  Forall groupOfItsYear m ->
  Forall groupOfItsYear (pushPeriod m (getUTCFullYear (period p)) p).
Proof.
  induction m as [|g m IH]; cbn [pushPeriod]; intros Hm.
  - repeat constructor; done.
  - inversion Hm as [|? ? [Hne Hall] Hm']; subst.
    destruct (Z.eqb_spec (year g) (getUTCFullYear (period p))) as [Heq|Hne'].
    + constructor; [|done]. split; cbn [periods year].
      * by destruct (periods g).
      * apply Forall_app. split; [by rewrite <- Heq|]. by repeat constructor.
    + constructor; [done|]. by apply IH.
Qed.

Lemma groupByYear_groups (ps : list PayrollPeriod) :
  nondecreasing (fun p => getUTCFullYear (period p)) ps ->
  StronglySorted Z.lt (map year (groupByYear ps))
  /\ Forall groupOfItsYear (groupByYear ps).
Proof.
  unfold groupByYear.
  assert (Hgen : forall ps m,
    StronglySorted Z.lt (map year m) ->
    Forall groupOfItsYear m ->
    Forall (fun p => Forall (fun g => year g <= getUTCFullYear (period p)) m) ps ->
    nondecreasing (fun p => getUTCFullYear (period p)) ps ->
    let m' := fold_left (fun m p => pushPeriod m (getUTCFullYear (period p)) p) ps m in
    StronglySorted Z.lt (map year m') /\ Forall groupOfItsYear m').
  { clear ps. induction ps as [|p ps IH]; simpl; intros m Hs Hg Hle Hnd; [done|].
    inversion Hle as [|? ? Hp Hps]; subst.
    destruct (pushPeriod_last m (getUTCFullYear (period p)) p Hs Hp) as (_ & Hs2 & Hle2).
    apply IH; [done|by apply pushPeriod_groups| |by eapply nondecreasing_tail].
    apply nondecreasing_head in Hnd. rewrite Forall_forall in Hnd.
    apply Forall_forall. intros q Hq. specialize (Hnd q Hq).
    eapply Forall_impl; [exact Hle2|]. simpl. intros; lia. }
  intros Hnd. apply Hgen; [constructor|constructor| |done].
  apply Forall_forall. intros; constructor.
Qed.

Lemma getYearlyTotals_sums (g : PayrollYear) :
  gross (getYearlyTotals g) = sumOver grossPay (periods g)
  /\ net (getYearlyTotals g) = sumOver netPay (periods g).
Proof.
  unfold getYearlyTotals, sumOver.
  assert (Hgen : forall l acc,
    let t := fold_left
      (fun acc period =>
         {| gross := gross acc + grossPay period; net := net acc + netPay period |}) l acc in
    gross t = gross acc + foldr Z.add 0 (map grossPay l)
    /\ net t = net acc + foldr Z.add 0 (map netPay l)).
  { induction l as [|p l IH]; intros acc; cbn [fold_left map foldr]; [lia|].
    destruct (IH {| gross := gross acc + grossPay p; net := net acc + netPay p |}) as [-> ->].
    cbn [gross net]. lia. }
  destruct (Hgen (periods g) {| gross := 0; net := 0 |}) as [-> ->]. cbn [gross net]. lia.
Qed.

Lemma elem_of_group (r : PayrollResult) (g : PayrollYear) (p : PayrollPeriod) :
  g ∈ yearlyCalculations r -> p ∈ periods g -> p ∈ periodsOf r.
Proof.
  intros Hg Hp. unfold periodsOf. apply list_elem_of_In, in_concat.
  exists (periods g). split; [|by apply list_elem_of_In].
  apply list_elem_of_In, list_elem_of_fmap. eauto.
Qed.

Section Groups.

Variable K : Constants.
Variable data : EmployeeInput.

Lemma calculateFullPayroll_groups r :
  calculateFullPayroll K data = OK r ->
  exists ps final,
    simulate K data = OK (ps, final)
    /\ yearlyCalculations r = groupByYear ps
    /\ nondecreasing (fun p => getUTCFullYear (period p)) ps.
Proof.
  unfold calculateFullPayroll. intros H.
  apply bind_OK in H as ([ps final] & Hs & H). injection H as <-.
  exists ps, final. split; [done|]. split; [done|].
  apply simulate_returned in Hs as (doj & s & e & p & _ & _ & _ & _ & _ & Hl).
  apply loop_chronological in Hl as [_ Hnd].
  eapply nondecreasing_compose; [|exact Hnd]. intros x y. apply YearFromDay_mono.
Qed.

End Groups.

(** X6. The yearly groups of a result come in strictly increasing order of
    year, none is empty, and each holds records of its year only. *)
Theorem X6_yearly_groups (K : Constants) (data : EmployeeInput) (r : PayrollResult) :
  calculateFullPayroll K data = OK r ->
  StronglySorted Z.lt (map year (yearlyCalculations r))
  /\ Forall groupOfItsYear (yearlyCalculations r).
Proof.
  intros H. apply calculateFullPayroll_groups in H as (ps & final & _ & -> & Hnd).
  by apply groupByYear_groups.
Qed.

(** X6, at a concrete input. *)
Lemma X6_yearly_groups_witness :
  exists r,
    calculateFullPayroll Sample.tables Sample.across2016 = OK r
    /\ map year (yearlyCalculations r) = [2015; 2016; 2017]
    /\ Forall groupOfItsYear (yearlyCalculations r).
Proof.
  destruct (calculateFullPayroll Sample.tables Sample.across2016) as [r|] eqn:Hr;
    [|vm_compute in Hr; discriminate Hr].
  exists r. split; [reflexivity|]. split.
  - vm_compute in Hr. injection Hr as <-. reflexivity.
  - exact (proj2 (X6_yearly_groups Sample.tables Sample.across2016 r Hr)).
Defined.

(** X7. For a yearly group of a result, [getYearlyTotals] gives as gross the
    sum of the gross pays of its records, and as net that sum less the sum
    of their total deductions. *)
Theorem X7_yearly_totals (K : Constants) (data : EmployeeInput) (r : PayrollResult)
    (g : PayrollYear) :
  calculateFullPayroll K data = OK r ->
  g ∈ yearlyCalculations r ->
  gross (getYearlyTotals g) = sumOver grossPay (periods g)
  /\ net (getYearlyTotals g) = gross (getYearlyTotals g) - sumOver totalDeductions (periods g).
Proof.
  intros H Hg. destruct (getYearlyTotals_sums g) as [Hgross Hnet].
  split; [exact Hgross|]. rewrite Hnet, Hgross.
  apply calculateFullPayroll_returned in H as (final & Hs & _).
  apply simulate_returned in Hs as (doj & s & e & p0 & _ & _ & _ & _ & _ & Hl).
  apply loop_stored in Hl. rewrite Forall_forall in Hl.
  assert (Hall : Forall (fun p => netPay p = grossPay p - totalDeductions p) (periods g)).
  { apply Forall_forall. intros p Hp.
    destruct (Hl p (elem_of_group r g p Hg Hp)) as [st2 ->]. reflexivity. }
  assert (Hgen : forall l,
    Forall (fun p => netPay p = grossPay p - totalDeductions p) l ->
    sumOver netPay l = sumOver grossPay l - sumOver totalDeductions l).
  { clear. unfold sumOver. induction 1 as [|p l Hp _ IH]; cbn [map foldr]; lia. }
  by apply Hgen.
Qed.

(** X7, at a concrete input. *)
Lemma X7_yearly_totals_witness :
  exists r g,
    calculateFullPayroll Sample.tables Sample.august2018 = OK r
    /\ yearlyCalculations r = [g]
    /\ gross (getYearlyTotals g) = 107500
    /\ net (getYearlyTotals g) = gross (getYearlyTotals g) - sumOver totalDeductions (periods g).
Proof.
  destruct (calculateFullPayroll Sample.tables Sample.august2018) as [r|] eqn:Hr;
    [|vm_compute in Hr; discriminate Hr].
  destruct (yearlyCalculations r) as [|g [|g' l]] eqn:Hy;
    [vm_compute in Hr; injection Hr as <-; discriminate Hy| |
     vm_compute in Hr; injection Hr as <-; discriminate Hy].
  assert (Hg : g ∈ yearlyCalculations r) by (rewrite Hy; left).
  exists r, g. split; [reflexivity|]. split; [exact Hy|]. split.
  - vm_compute in Hr. injection Hr as <-. injection Hy as <-. reflexivity.
  - exact (proj2 (X7_yearly_totals Sample.tables Sample.august2018 r g Hr Hg)).
Defined.

(** ** The calculation window *)

Section Start.

Variable K : Constants.
Variable data : EmployeeInput.

Lemma step_from s st st' o :
  step K data s st = OK (st', o) ->
  exists p,
    period p = currentDate st
    /\ forall s', step K data s' st
                  = OK (st', if s' <=? currentDate st then Some p else None).
Proof.
  intros H. pose proof (step_parts _ _ _ _ _ _ H) as (st1 & st2 & H1 & H2 & Hd & -> & _).
  exists (monthlyPeriod K data st2). split; [exact Hd|].
  intros s'. unfold step. cbn [currentDate with_month_locals].
  rewrite H1. cbn [mbind res_bind]. rewrite H2. cbn [mbind res_bind]. by rewrite Hd.
Qed.

Lemma loop_start fuel s s' e st ps final :
  s <= s' ->
  loop K data fuel s e st = Some (OK (ps, final)) ->
  loop K data fuel s' e st
  = Some (OK (List.filter (fun p => s' <=? period p) ps, final)).
Proof.
  intros Hss. revert st ps. induction fuel as [|fuel IH]; intros st ps H.
  - apply loop_returned in H as [(Hgt & -> & ->) | (_ & f & ? & ? & ? & ? & _)]; [|done].
    simpl. destruct (Z.leb_spec (currentDate st) e); [lia|done].
  - apply loop_returned in H
      as [(Hgt & -> & ->) | (Hle & f & st' & o & rest & Hfuel & Hs & Hl & ->)].
    + simpl. destruct (Z.leb_spec (currentDate st) e); [lia|done].
    + injection Hfuel as <-.
      destruct (step_from _ _ _ _ Hs) as (p & Hp & Hstep).
      cbn [loop]. destruct (Z.leb_spec (currentDate st) e); [|lia].
      rewrite (Hstep s'), (IH _ _ Hl). rewrite (Hstep s) in Hs. injection Hs as <-.
      rewrite List.filter_app. do 3 f_equal.
      destruct (Z.leb_spec s (currentDate st)), (Z.leb_spec s' (currentDate st));
        cbn [stored_list List.filter]; try lia; try done.
      * rewrite Hp. destruct (Z.leb_spec s' (currentDate st)); [done|lia].
      * rewrite Hp. destruct (Z.leb_spec s' (currentDate st)); [lia|done].
Qed.

End Start.

(** X8. A later calculation start date only hides records: the result has
    the records of the earlier result that are dated on or after the new
    start, and the same counters and fixations. *)
Theorem X8_later_start_filters (K : Constants) (data : EmployeeInput) (s s' : Date)
    (r : PayrollResult) :
  calculationStartDate data = Some s ->
  s <= s' ->
  calculateFullPayroll K data = OK r ->
  exists r',
    calculateFullPayroll K (withCalculationStartDate data s') = OK r'
    /\ periodsOf r' = List.filter (fun p => s' <=? period p) (periodsOf r)
    /\ incrementAnalysis r' = incrementAnalysis r
    /\ fixations r' = fixations r.
Proof.
  intros Hstart Hss H.
  apply calculateFullPayroll_returned in H as (final & Hs & Hc & Hf).
  apply simulate_returned in Hs as (doj & s0 & e & p & Hdoj & Hs0 & Hend & H80 & Hp & Hl).
  rewrite Hstart in Hs0. injection Hs0 as <-.
  apply (loop_start K data _ s s') in Hl; [|done].
  assert (Hsim : simulate K (withCalculationStartDate data s')
                 = OK (List.filter (fun p => s' <=? period p) (periodsOf r), final)).
  { apply (simulate_intro _ _ doj s' e p); try done. }
  destruct (calculateFullPayroll K (withCalculationStartDate data s')) as [r'|err] eqn:Hr'.
  - apply calculateFullPayroll_returned in Hr' as (final' & Hsim' & Hc' & Hf').
    rewrite Hsim in Hsim'. injection Hsim' as Hps <-.
    exists r'. split; [done|]. split; [done|]. split; congruence.
  - unfold calculateFullPayroll in Hr'. rewrite Hsim in Hr'. discriminate Hr'.
Qed.

(** X8, at a concrete input. *)
Lemma X8_later_start_filters_witness :
  exists r r',
    calculateFullPayroll Sample.tables Sample.august2018 = OK r
    /\ calculateFullPayroll Sample.tables
         (withCalculationStartDate Sample.august2018 (ymd 2018 10 15)) = OK r'
    /\ periodsOf r' = List.filter (fun p => ymd 2018 10 15 <=? period p) (periodsOf r)
    /\ length (periodsOf r') = 2%nat.
Proof.
  destruct (calculateFullPayroll Sample.tables Sample.august2018) as [r|] eqn:Hr;
    [|vm_compute in Hr; discriminate Hr].
  destruct (X8_later_start_filters Sample.tables Sample.august2018
              (ymd 2018 8 1) (ymd 2018 10 15) r eq_refl
              ltac:(vm_compute; discriminate) Hr)
    as (r' & Hr' & Hps & _).
  exists r, r'. split; [reflexivity|]. split; [exact Hr'|]. split; [exact Hps|].
  vm_compute in Hr'. injection Hr' as <-. reflexivity.
Defined.

(** When the joining data are valid and the end of the window (the
    calculation end date, or an earlier relief date) is before the joining
    date, the simulation gives no record, no fixation and counters of zero. *)
Lemma window_before_joining (K : Constants) (data : EmployeeInput) (doj s e : Date)
    (p : PayState) :
  dateOfJoining data = Some doj ->
  calculationStartDate data = Some s ->
  calculationEndDate data = Some e ->
  ymd 1980 1 1 <= doj ->
  initialFixation K data doj = OK p ->
  effectiveEndDate data e < doj ->
  calculateFullPayroll K data
  = OK {| fixations := noFixations; yearlyCalculations := [];
          incrementAnalysis := noIncrements |}.
Proof.
  intros Hdoj Hs He H80 Hp Hlt. unfold calculateFullPayroll.
  rewrite (simulate_intro K data doj s e p [] (initialState data doj p)); try done.
  destruct (roundsBound doj (effectiveEndDate data e)); cbn [loop currentDate initialState];
    destruct (Z.leb_spec doj (effectiveEndDate data e)); (lia || done).
Qed.

(** ** The increment counters *)

Section Counts.

Variable K : Constants.
Variable data : EmployeeInput.

Lemma eventCounts_refl st : eventCounts st st.
Proof. split; try lia. by left. Qed.

Lemma eventCounts_trans st1 st2 st3 :
  eventCounts st1 st2 -> eventCounts st2 st3 -> eventCounts st1 st3.
Proof.
  intros [? ? ? H12] [? ? ? H23]. split; try lia.
  destruct H12 as [[Hd Hm] | (Hf & Ht & Hm)], H23 as [[Hd' Hm'] | (Hf' & Ht' & Hm')].
  - left. split; [congruence|lia].
  - right. split; [congruence|]. split; [done|lia].
  - right. split; [done|]. split; [congruence|lia].
  - congruence.
Qed.

Lemma gradeEvent_counts sel fx st st' :
  gradeEvent K sel fx st = OK st' -> eventCounts st st'.
Proof.
  unfold gradeEvent. intros H.
  destruct (didIncrementThisMonth st) eqn:Hdid.
  - injection H as <-. apply eventCounts_refl.
  - apply bind_OK in H as (st1 & H1 & H). injection H as <-.
    assert (Hc : counters st1 = counters st) by (res_inv; reflexivity).
    split; unfold payMoves; cbn; rewrite ?Hc; destruct sel; cbn; try lia;
      right; rewrite Hdid; repeat split; lia.
Qed.

Lemma promotionEvent_counts pd st st' :
  promotionEvent K pd st = OK st' -> eventCounts st st'.
Proof.
  unfold promotionEvent. intros H.
  destruct (didIncrementThisMonth st) eqn:Hdid.
  - injection H as <-. apply eventCounts_refl.
  - apply bind_OK in H as (st1 & H1 & H). injection H as <-.
    assert (Hc : counters st1 = count (counters st) CPromotion) by (res_inv; reflexivity).
    split; unfold payMoves; cbn; rewrite ?Hc; cbn; try lia.
    right. rewrite Hdid. repeat split; lia.
Qed.

Lemma applyEvent_counts e st st' :
  applyEvent K data e st = OK st' -> eventCounts st st'.
Proof.
  unfold applyEvent. intros H. destruct (ev_type e).
  - injection H as <-. unfold daChange.
    repeat case_match; split; cbn; try lia; by left.
  - unfold payCommission4 in H. res_inv; try apply eventCounts_refl.
    split; cbn; try lia. by left.
  - unfold payCommission5 in H. res_inv; try apply eventCounts_refl.
    split; cbn; try lia. by left.
  - unfold payCommission6 in H. res_inv; try apply eventCounts_refl.
    split; cbn; try lia. by left.
  - unfold payCommission7 in H. res_inv; try apply eventCounts_refl.
    split; cbn; try lia. by left.
  - by apply gradeEvent_counts in H.
  - by apply gradeEvent_counts in H.
  - by apply promotionEvent_counts in H.
  - injection H as <-. split; cbn; try lia. by left.
  - injection H as <-. apply eventCounts_refl.
Qed.

Lemma applyEvents_counts evs st st' :
  applyEvents K data evs st = OK st' -> eventCounts st st'.
Proof.
  revert st. induction evs as [|e evs IH]; simpl; intros st H.
  - injection H as <-. apply eventCounts_refl.
  - apply bind_OK in H as (st1 & H1 & H2).
    eapply eventCounts_trans; [by eapply applyEvent_counts|by apply IH].
Qed.

(** The annual increment counts nothing, or one annual increment and at most
    one account test increment with it, and only when no increment was
    counted in the month. *)
Lemma annualIncrement_counts st st' :
  annualIncrement K data st = OK st' ->
  selectionGrade (counters st') = selectionGrade (counters st)
  /\ specialGrade (counters st') = specialGrade (counters st)
  /\ promotion (counters st') = promotion (counters st)
  /\ ((regular (counters st') = regular (counters st)
       /\ accountTest (counters st') = accountTest (counters st))
      \/ (didIncrementThisMonth st = false
          /\ regular (counters st') = regular (counters st) + 1
          /\ (accountTest (counters st') = accountTest (counters st)
              \/ accountTest (counters st') = accountTest (counters st) + 1))).
Proof.
  unfold annualIncrement. intros H.
  destruct (nextScheduledIncrementDate st) as [next|]; [|injection H as <-; tauto].
  destruct (next <=? currentDate st); cbn [andb] in H; [|injection H as <-; tauto].
  destruct (didIncrementThisMonth st) eqn:Hdid; cbn [negb] in H; [injection H as <-; tauto|].
  apply bind_OK in H as (el & _ & H).
  destruct (_ && _).
  - apply bind_OK in H as (p & Hp & H).
    apply bind_OK in H as (st1 & H1 & H).
    apply bind_OK in H as (ch & _ & H). injection H as <-.
    unfold accountTestIncrement in H1. cbn in H1.
    destruct (accountTestIncrementPending st).
    + apply bind_OK in H1 as (p1 & _ & H1). injection H1 as <-. cbn. intuition lia.
    + injection H1 as <-. cbn. intuition lia.
  - destruct (negb _); injection H as <-; cbn; tauto.
Qed.

Lemma visited_accountTest st :
  Visited K data st -> accountTest (counters st) <= regular (counters st).
Proof.
  induction 1 as [doj p _ _ | st rs did _ IH | st e st' _ IH He
                 | st st' _ IH Ha | st d _ IH]; cbn; try lia.
  - apply applyEvent_frame in He as [_ [_ Hr Ht]]. lia.
  - apply annualIncrement_counts in Ha as (_ & _ & _ & Hc). lia.
Qed.

End Counts.

(** X10. In one round of the loop no counter goes down, at most one of a
    selection grade, a special grade, a promotion and an annual increment is
    counted, and an account test increment is counted only with an annual
    increment. *)
Theorem X10_one_pay_move_per_month (K : Constants) (data : EmployeeInput) (s : Date)
    (st st' : State) (o : option PayrollPeriod) :
  step K data s st = OK (st', o) ->
  let c := counters st in
  let c' := counters st' in
  selectionGrade c <= selectionGrade c'
  /\ specialGrade c <= specialGrade c'
  /\ promotion c <= promotion c'
  /\ regular c <= regular c'
  /\ payMoves c' <= payMoves c + 1
  /\ (accountTest c' = accountTest c
      \/ (accountTest c' = accountTest c + 1 /\ regular c' = regular c + 1)).
Proof.
  intros H. cbn zeta.
  apply step_parts in H as (st1 & st2 & H1 & H2 & _ & -> & _).
  pose proof (applyEvents_frame _ _ _ _ _ H1) as [_ [_ Hr Ht]].
  apply applyEvents_counts in H1 as [Hsg Hsp Hpr Hmv].
  apply annualIncrement_counts in H2 as (Hsg2 & Hsp2 & Hpr2 & Hc).
  cbn [counters with_date with_month_locals didIncrementThisMonth] in *.
  unfold payMoves in *.
  destruct Hmv as [[Hd Hm] | (_ & Ht1 & Hm)],
           Hc as [[Hr2 Ht2] | (Hf2 & Hr2 & Ht2)]; try congruence;
    repeat split; try lia.
Qed.

(** X10, at a concrete input. *)
Lemma X10_one_pay_move_per_month_witness :
  exists st' o,
    step Sample.tables Sample.across2016 (ymd 2015 7 1)
      (with_date
         (initialState Sample.across2016 (ymd 2015 7 1)
            {| currentPay := 35400; currentCommission := 7; currentLevel := 8;
               currentPipb := None; currentGradePay := None;
               currentScaleString := None; currentOrdinaryScaleString := None |})
         (ymd 2016 7 1)) = OK (st', o)
    /\ regular (counters st') = 1
    /\ payMoves (counters st') <= 0 + 1.
Proof.
  destruct (step Sample.tables Sample.across2016 (ymd 2015 7 1)
              (with_date
                 (initialState Sample.across2016 (ymd 2015 7 1)
                    {| currentPay := 35400; currentCommission := 7; currentLevel := 8;
                       currentPipb := None; currentGradePay := None;
                       currentScaleString := None; currentOrdinaryScaleString := None |})
                 (ymd 2016 7 1))) as [[st' o]|] eqn:Hs;
    [|vm_compute in Hs; discriminate Hs].
  exists st', o. split; [reflexivity|]. split.
  - vm_compute in Hs. injection Hs as <- _. reflexivity.
  - exact (proj1 (proj2 (proj2 (proj2 (proj2
             (X10_one_pay_move_per_month Sample.tables Sample.across2016 _ _ _ _ Hs)))))).
Defined.

(** X11. The account test increments of a result are at most as many as its
    regular increments. *)
Theorem X11_account_test_with_annual (K : Constants) (data : EmployeeInput)
    (r : PayrollResult) :
  calculateFullPayroll K data = OK r ->
  accountTest (incrementAnalysis r) <= regular (incrementAnalysis r).
Proof.
  intros H. apply calculateFullPayroll_returned in H as (final & Hs & -> & _).
  apply simulate_returned in Hs as (doj & s & e & p & Hdoj & _ & _ & _ & Hp & Hl).
  apply (visited_accountTest K data). eapply loop_visited; [|exact Hl].
  by apply visited_start.
Qed.

(** X11, at a concrete input. *)
Lemma X11_account_test_with_annual_witness :
  exists r,
    calculateFullPayroll Sample.tables Cases.withGradeAndTest = OK r
    /\ accountTest (incrementAnalysis r) <= regular (incrementAnalysis r).
Proof.
  destruct (calculateFullPayroll Sample.tables Cases.withGradeAndTest) as [r|] eqn:Hr;
    [|vm_compute in Hr; discriminate Hr].
  exists r. split; [reflexivity|].
  exact (X11_account_test_with_annual Sample.tables Cases.withGradeAndTest r Hr).
Defined.

(** ** Increments in a pay scale *)

Lemma digits_value_nonneg (l : list ascii) (acc v : Z) :
  0 <= acc -> Js.digits_value acc l = Some v -> 0 <= v.
Proof.
  revert acc. induction l as [|c l IH]; simpl; intros acc Hacc H.
  - by injection H as <-.
  - destruct (Js.is_digit c) eqn:Hd; [|discriminate].
    apply (IH (10 * acc + Js.digit_val c)); [|done].
    unfold Js.is_digit in Hd. apply andb_true_iff in Hd as [Hlo _].
    apply Z.leb_le in Hlo. unfold Js.digit_val. lia.
Qed.

Lemma mapM_Number_nonneg (pieces : list (list ascii)) (parts : list Z) :
  mapM Js.Number pieces = Some parts -> Forall (fun x => 0 <= x) parts.
Proof.
  intros H. apply mapM_Some in H.
  induction H as [|piece x pieces parts Hx _ IH]; constructor; [|done].
  by apply (digits_value_nonneg piece 0 x).
Qed.

Lemma mkStages_inc_nonneg (parts : list Z) :
  Forall (fun x => 0 <= x) parts -> Forall (fun st => 0 <= st_inc st) (mkStages parts).
Proof.
  assert (Hgen : forall (n : nat) (parts : list Z),
            (length parts <= n)%nat -> Forall (fun x => 0 <= x) parts ->
            Forall (fun st => 0 <= st_inc st) (mkStages parts)).
  { clear. induction n as [|n IH]; intros parts Hlen Hall.
    - destruct parts; [constructor|simpl in Hlen; lia].
    - destruct parts as [|a [|b [|c rest]]]; [constructor..|].
      change (mkStages (a :: b :: c :: rest))
        with ({| st_from := a; st_to := c; st_inc := b |} :: mkStages (c :: rest)).
      inversion Hall as [|? ? _ Hb]; subst. inversion Hb as [|? ? Hb0 Hc]; subst.
      constructor; [done|]. apply IH; [simpl in *; lia|done]. }
  by apply (Hgen (length parts)).
Qed.

(** The increments of a parsed scale are not negative: the pieces between
    the hyphens are unsigned. *)
Lemma parseScale_inc_nonneg (s : string) :
  Forall (fun st => 0 <= st_inc st) (stages (parseScale s)).
Proof.
  unfold parseScale. destruct (mapM _ _) as [parts|] eqn:Hp; [|constructor].
  cbn [stages]. by apply mkStages_inc_nonneg, (mapM_Number_nonneg _ _ Hp).
Qed.

Lemma scaleStep_nondecreasing (sc : Scale) (pay : Z) :
  Forall (fun st => 0 <= st_inc st) (stages sc) -> pay <= scaleStep sc pay.
Proof.
  intros Hpos. rewrite Forall_forall in Hpos. unfold scaleStep.
  destruct (List.find _ (stages sc)) as [st|] eqn:Hf.
  - apply List.find_some in Hf as [Hin _]. apply list_elem_of_In in Hin.
    specialize (Hpos st Hin). lia.
  - destruct (last (stages sc)) as [st|] eqn:Hl; [|lia].
    apply last_Some_elem_of in Hl. specialize (Hpos st Hl). lia.
Qed.

Lemma incrementInScaleLoop_at_max (n : nat) (sc : Scale) (p : Z) :
  sc_max sc <= p -> (0 < n)%nat -> incrementInScaleLoop n sc p = sc_max sc.
Proof.
  intros Hp Hn. destruct n as [|n]; [lia|]. cbn [incrementInScaleLoop].
  destruct (Z.leb_spec (sc_max sc) p); [done|lia].
Qed.

Lemma incrementInScaleLoop_within (n : nat) (sc : Scale) (p : Z) :
  Forall (fun st => 0 <= st_inc st) (stages sc) ->
  p <= sc_max sc -> p <= incrementInScaleLoop n sc p <= sc_max sc.
Proof.
  intros Hpos. revert p. induction n as [|n IH]; intros p Hp; cbn [incrementInScaleLoop].
  - lia.
  - destruct (Z.leb_spec (sc_max sc) p); [lia|].
    pose proof (scaleStep_nondecreasing sc p Hpos).
    destruct (Z.ltb_spec (sc_max sc) (scaleStep sc p)).
    + specialize (IH (sc_max sc) ltac:(lia)). lia.
    + specialize (IH (scaleStep sc p) ltac:(lia)). lia.
Qed.

Lemma incrementInScaleLoop_add (n m : nat) (sc : Scale) (p : Z) :
  incrementInScaleLoop (n + m) sc p = incrementInScaleLoop m sc (incrementInScaleLoop n sc p).
Proof.
  revert p. induction n as [|n IH]; intros p; [done|].
  cbn [Nat.add incrementInScaleLoop].
  destruct (Z.leb_spec (sc_max sc) p); [|apply IH].
  destruct m as [|m]; [done|]. cbn [incrementInScaleLoop].
  destruct (Z.leb_spec (sc_max sc) (sc_max sc)); [done|lia].
Qed.

(** X12. In a scale with a stage, an increment of one step or more never
    gives more than the maximum of the scale, never lowers a pay that is at
    most the maximum, and gives the maximum to a pay at or above it. *)
Theorem X12_increment_in_scale_bounds (currentPay : Z) (scaleString : string) (steps : Z) :
  stages (parseScale scaleString) <> [] ->
  1 <= steps ->
  let max := sc_max (parseScale scaleString) in
  let newPay := getIncrementInScale currentPay scaleString steps in
  newPay <= max
  /\ (currentPay <= max -> currentPay <= newPay)
  /\ (max <= currentPay -> newPay = max).
Proof.
  intros Hne Hsteps. cbn zeta. unfold getIncrementInScale.
  case_bool_decide as Hst; [done|].
  set (sc := parseScale scaleString).
  pose proof (parseScale_inc_nonneg scaleString) as Hpos. fold sc in Hpos.
  assert (Hat : sc_max sc <= currentPay ->
                incrementInScaleLoop (Z.to_nat steps) sc currentPay = sc_max sc)
    by (intros; apply incrementInScaleLoop_at_max; lia).
  destruct (Z.le_gt_cases currentPay (sc_max sc)) as [Hle|Hgt].
  - pose proof (incrementInScaleLoop_within (Z.to_nat steps) sc currentPay Hpos Hle).
    split; [lia|]. split; [lia|]. exact Hat.
  - rewrite Hat by lia. split; [lia|]. split; [lia|]. done.
Qed.

(** X12, at a concrete input. *)
Lemma X12_increment_in_scale_bounds_witness :
  getIncrementInScale 1790 "1200-30-1440-40-1800" 3 <= 1800
  /\ getIncrementInScale 1790 "1200-30-1440-40-1800" 3 = 1800
  /\ getIncrementInScale 2000 "1200-30-1440-40-1800" 1 = 1800.
Proof.
  pose proof (X12_increment_in_scale_bounds 1790 "1200-30-1440-40-1800" 3
                ltac:(vm_compute; discriminate) ltac:(lia)) as (H1 & _ & _).
  split; [exact H1|]. split; reflexivity.
Defined.

(** X13. Steps in a scale add up: [a + b] steps are [a] steps followed by
    [b] steps. *)
Theorem X13_increment_in_scale_steps_add (currentPay : Z) (scaleString : string) (a b : Z) :
  0 <= a -> 0 <= b ->
  getIncrementInScale currentPay scaleString (a + b)
  = getIncrementInScale (getIncrementInScale currentPay scaleString a) scaleString b.
Proof.
  intros Ha Hb. unfold getIncrementInScale. case_bool_decide; [done|].
  rewrite Z2Nat.inj_add by done. apply incrementInScaleLoop_add.
Qed.

(** X13, at a concrete input. *)
Lemma X13_increment_in_scale_steps_add_witness :
  getIncrementInScale 1410 "1200-30-1440-40-1800" (1 + 1)
  = getIncrementInScale (getIncrementInScale 1410 "1200-30-1440-40-1800" 1)
      "1200-30-1440-40-1800" 1
  /\ getIncrementInScale 1410 "1200-30-1440-40-1800" (1 + 1) = 1480.
Proof.
  split; [|reflexivity].
  apply (X13_increment_in_scale_steps_add 1410 "1200-30-1440-40-1800" 1 1); lia.
Defined.

Lemma nextHigherLoop_result (fuel : nat) (sc : Scale) (currentPay pay x : Z) :
  nextHigherLoop fuel sc currentPay pay = OK x -> currentPay < x \/ sc_max sc <= x.
Proof.
  revert pay. induction fuel as [|fuel IH]; intros pay; cbn [nextHigherLoop].
  - destruct (Z.leb_spec pay currentPay), (Z.ltb_spec pay (sc_max sc)); cbn [andb];
      intros [= <-]; lia.
  - destruct (Z.leb_spec pay currentPay), (Z.ltb_spec pay (sc_max sc)); cbn [andb];
      try (intros [= <-]; lia). apply IH.
Qed.

(** X14. In a scale whose stages have positive increments and whose start is
    at most its maximum, [findNextHigherStageInScale] returns; the pay it
    gives is at most the maximum, above the current pay when that is below
    the maximum, and the maximum otherwise. *)
Theorem X14_next_higher_stage (currentPay : Z) (newScaleString : string) :
  stages (parseScale newScaleString) <> [] ->
  Forall (fun st => 0 < st_inc st) (stages (parseScale newScaleString)) ->
  sc_start (parseScale newScaleString) <= sc_max (parseScale newScaleString) ->
  let max := sc_max (parseScale newScaleString) in
  exists newPay,
    findNextHigherStageInScale currentPay newScaleString = OK newPay
    /\ newPay <= max
    /\ (currentPay < max -> currentPay < newPay)
    /\ (max <= currentPay -> newPay = max).
Proof.
  intros Hne Hpos Hstart. cbn zeta.
  destruct (findNextHigherStageInScale_returns currentPay newScaleString Hpos) as [x Hx].
  exists x. split; [exact Hx|].
  unfold findNextHigherStageInScale in Hx. case_bool_decide; [done|].
  set (sc := parseScale newScaleString) in *.
  destruct (Z.leb_spec (sc_max sc) currentPay).
  { injection Hx as <-. lia. }
  destruct (Z.ltb_spec currentPay (sc_start sc)).
  { injection Hx as <-. lia. }
  apply bind_OK in Hx as (y & Hy & Hx). injection Hx as <-.
  apply nextHigherLoop_result in Hy. lia.
Qed.

(** X14, at a concrete input. *)
Lemma X14_next_higher_stage_witness :
  exists newPay,
    findNextHigherStageInScale 1445 "1200-30-1440-40-1800" = OK newPay
    /\ newPay = 1480 /\ 1445 < newPay <= 1800.
Proof.
  destruct (X14_next_higher_stage 1445 "1200-30-1440-40-1800")
    as (x & Hx & Hle & Hlt & _).
  - vm_compute. discriminate.
  - vm_compute. repeat constructor.
  - vm_compute. discriminate.
  - exists x. split; [exact Hx|].
    assert (x = 1480) as -> by (vm_compute in Hx; by injection Hx).
    split; [reflexivity|]. split; [apply Hlt; reflexivity | exact Hle].
Defined.

(** ** Increments in a level of the pay matrix *)

Lemma findIndex_Some {A : Type} (f : A -> bool) (l : list A) (i : nat) :
  findIndex f l = Some i ->
  exists x, l !! i = Some x /\ f x = true /\ Forall (fun y => f y = false) (take i l).
Proof.
  revert i. induction l as [|a l IH]; intros i; cbn [findIndex]; [done|].
  destruct (f a) eqn:Hfa.
  - intros [= <-]. exists a. split; [done|]. split; [done|constructor].
  - destruct (findIndex f l) as [k|]; [|done]. intros [= <-].
    destruct (IH k eq_refl) as (x & Hx & Hfx & Hall).
    exists x. split; [done|]. split; [done|]. cbn. by constructor.
Qed.

Lemma findIndex_None {A : Type} (f : A -> bool) (l : list A) :
  findIndex f l = None -> Forall (fun y => f y = false) l.
Proof.
  induction l as [|a l IH]; cbn [findIndex]; [constructor|].
  destruct (f a) eqn:Hfa; [done|].
  destruct (findIndex f l); [done|]. intros _. constructor; [done|by apply IH].
Qed.

Lemma filter_all_false {A : Type} (f : A -> bool) (l : list A) :
  Forall (fun y => f y = false) l -> List.filter f l = [].
Proof. induction 1 as [|a l Ha _ IH]; cbn; [done|]. by rewrite Ha. Qed.

Lemma filter_all_true {A : Type} (f : A -> bool) (l : list A) :
  Forall (fun y => f y = true) l -> List.filter f l = l.
Proof. induction 1 as [|a l Ha _ IH]; cbn; [done|]. by rewrite Ha, IH. Qed.

(** The stages above a pay, in a row that goes up, are the row from its
    first stage above the pay. *)
Lemma filter_above_drop (row : list Z) (pay : Z) (k : nat) :
  StronglySorted Z.lt row ->
  Forall (fun q => (pay <? q) = false) (take k row) ->
  (forall q, row !! k = Some q -> pay < q) ->
  List.filter (fun q => pay <? q) row = drop k row.
Proof.
  intros Hs Hbelow Hk.
  rewrite <- (take_drop k row) at 1. rewrite List.filter_app.
  rewrite (filter_all_false (fun q => pay <? q) _ Hbelow). cbn [app].
  apply (filter_all_true (fun q => pay <? q)).
  destruct (drop k row) as [|q rest] eqn:Hd; [constructor|].
  assert (Hq : row !! k = Some q).
  { rewrite <- (take_drop k row), Hd.
    destruct (decide (k <= length row)%nat).
    - rewrite lookup_app_r by (rewrite length_take; lia).
      rewrite length_take. replace (k - k `min` length row)%nat with 0%nat by lia. done.
    - rewrite drop_ge in Hd by lia. done. }
  specialize (Hk q Hq).
  assert (Hsd : StronglySorted Z.lt (q :: rest)).
  { rewrite <- Hd. clear -Hs. revert k. induction Hs as [|a l Hl IH Ha]; intros k.
    - rewrite drop_nil. constructor.
    - destruct k; [by constructor|]. apply IH. }
  inversion Hsd as [|? ? _ Hrest]; subst.
  constructor; [by apply Z.ltb_lt|].
  eapply Forall_impl; [exact Hrest|]. cbn beta. intros y Hy. apply Z.ltb_lt. lia.
Qed.

Lemma sorted_before (row : list Z) (i : nat) (x : Z) :
  StronglySorted Z.lt row -> row !! i = Some x -> Forall (fun q => q < x) (take i row).
Proof.
  intros Hs. revert i. induction Hs as [|a l Hl IH Ha]; intros i Hx; [done|].
  destruct i as [|i]; cbn in *; [constructor|].
  constructor.
  - rewrite Forall_forall in Ha. apply Ha. by eapply list_elem_of_lookup_2.
  - by apply IH.
Qed.

Lemma sorted_after (row : list Z) (i : nat) (x q : Z) :
  StronglySorted Z.lt row -> row !! i = Some x -> row !! S i = Some q -> x < q.
Proof.
  intros Hs. revert i. induction Hs as [|a l Hl IH Ha]; intros i Hx Hq; [done|].
  destruct i as [|i]; cbn in *.
  - injection Hx as <-. rewrite Forall_forall in Ha. apply Ha.
    by eapply list_elem_of_lookup_2.
  - by eapply IH.
Qed.

(** X15. In the 7th commission, in a level whose row of the pay matrix goes
    up strictly, an increment of [steps] steps gives the stage [steps]
    stages above the current pay, the last stage when fewer are above and
    the pay itself when none is, and no pay in pay band. *)
Theorem X15_increment_in_level (K : Constants) (currentPay level steps : Z)
    (gradePay : option Z) (row : list Z) :
  PAY_MATRIX K !! level = Some row ->
  StronglySorted Z.lt row ->
  1 <= steps ->
  getIncrement K currentPay level steps 7 gradePay
  = OK (stageAbove row currentPay steps, None).
Proof.
  intros Hrow Hs Hsteps. unfold getIncrement, stageAbove.
  cbn [Z.eqb Pos.eqb]. rewrite Hrow. cbn [fromOption mbind res_bind].
  destruct (findIndex (Z.eqb currentPay) row) as [i|] eqn:Hi.
  - apply findIndex_Some in Hi as (x & Hx & Hfx & _).
    apply Z.eqb_eq in Hfx. subst x.
    assert (Habove : List.filter (fun q => currentPay <? q) row = drop (S i) row).
    { apply filter_above_drop; [done| |].
      - rewrite (take_S_r _ _ _ Hx). apply Forall_app. split.
        + eapply Forall_impl; [exact (sorted_before _ _ _ Hs Hx)|].
          cbn beta. intros y Hy. apply Z.ltb_ge. lia.
        + repeat constructor. apply Z.ltb_irrefl.
      - intros q Hq. by eapply sorted_after. }
    rewrite Habove, length_drop, lookup_drop.
    pose proof (lookup_lt_Some _ _ _ Hx) as Hlen.
    unfold at_index.
    destruct (Z.ltb_spec (Z.min (Z.of_nat i + steps) (Z.of_nat (length row) - 1)) 0); [lia|].
    destruct (decide (S i = length row)) as [Hlast|Hmore].
    + replace (Z.to_nat (Z.min (Z.of_nat i + steps) (Z.of_nat (length row) - 1))) with i by lia.
      rewrite Hx. cbn [fromOption mbind res_bind]. rewrite lookup_ge_None_2 by lia. done.
    + replace (S i + Z.to_nat (Z.min steps (Z.of_nat (length row - S i)) - 1))%nat
        with (Z.to_nat (Z.min (Z.of_nat i + steps) (Z.of_nat (length row) - 1))) by lia.
      destruct (lookup_lt_is_Some_2 row
                  (Z.to_nat (Z.min (Z.of_nat i + steps) (Z.of_nat (length row) - 1))))
        as [y Hy]; [lia|].
      rewrite Hy. done.
  - apply findIndex_None in Hi.
    destruct (findIndex (fun p => currentPay <? p) row) as [j|] eqn:Hj.
    + apply findIndex_Some in Hj as (x & Hx & Hfx & Hbelow).
      apply Z.ltb_lt in Hfx.
      assert (Habove : List.filter (fun q => currentPay <? q) row = drop j row).
      { apply filter_above_drop; [done|done|]. intros q Hq. congruence. }
      rewrite Habove, length_drop, lookup_drop.
      pose proof (lookup_lt_Some _ _ _ Hx) as Hlen.
      unfold at_index.
      destruct (Z.ltb_spec (Z.min (Z.of_nat j + steps - 1) (Z.of_nat (length row) - 1)) 0);
        [lia|].
      replace (j + Z.to_nat (Z.min steps (Z.of_nat (length row - j)) - 1))%nat
        with (Z.to_nat (Z.min (Z.of_nat j + steps - 1) (Z.of_nat (length row) - 1))) by lia.
      destruct (lookup_lt_is_Some_2 row
                  (Z.to_nat (Z.min (Z.of_nat j + steps - 1) (Z.of_nat (length row) - 1))))
        as [y Hy]; [lia|].
      rewrite Hy. done.
    + apply findIndex_None in Hj.
      rewrite (filter_all_false (fun q => currentPay <? q) _ Hj). done.
Qed.

(** X15, at a concrete input. *)
Lemma X15_increment_in_level_witness :
  getIncrement Sample.tables 35400 8 2 7 None = OK (37600, None)
  /\ getIncrement Sample.tables 42300 8 1 7 None = OK (42300, None)
  /\ getIncrement Sample.tables 36000 8 1 7 None = OK (36500, None).
Proof.
  assert (Hs : StronglySorted Z.lt [35400; 36500; 37600; 38700; 39900; 41100; 42300])
    by (repeat constructor; lia).
  split; [|split].
  - exact (X15_increment_in_level Sample.tables 35400 8 2 None _ eq_refl Hs ltac:(lia)).
  - exact (X15_increment_in_level Sample.tables 42300 8 1 None _ eq_refl Hs ltac:(lia)).
  - exact (X15_increment_in_level Sample.tables 36000 8 1 None _ eq_refl Hs ltac:(lia)).
Defined.

(** ** Probation and the test requirement *)

Lemma testGatedIncrement_effective (params : ProbationEligibilityCheck)
    (sanctioned : Date -> EligibilityRemark) (withheld : EligibilityRemark) :
  let r := testGatedIncrement params sanctioned withheld in
  normalIncrementDate params <= er_effectiveDate r
  /\ (eligible r = false -> er_effectiveDate r = normalIncrementDate params).
Proof.
  unfold testGatedIncrement.
  destruct (pc_testStatus params) as [[]|], (pc_testPassedDate params) as [passed|];
    cbn; split; try done; lia.
Qed.

(** X16. The effective date of a returned eligibility is never before the
    normal increment date; it is the normal date when the increment is not
    eligible, and the normal date or the pass date when a pass date is
    given. *)
Theorem X16_effective_date_not_before_normal (params : ProbationEligibilityCheck)
    (r : EligibilityResult) :
  calculateProbationIncrementEligibility params = OK r ->
  normalIncrementDate params <= er_effectiveDate r
  /\ (eligible r = false -> er_effectiveDate r = normalIncrementDate params)
  /\ (forall passed, pc_testPassedDate params = Some passed ->
        er_effectiveDate r = normalIncrementDate params \/ er_effectiveDate r = passed).
Proof.
  unfold calculateProbationIncrementEligibility. intros H.
  apply bind_OK in H as (terminated & _ & H).
  assert (Hgated : forall sanctioned withheld,
            let g := testGatedIncrement params sanctioned withheld in
            normalIncrementDate params <= er_effectiveDate g
            /\ (eligible g = false -> er_effectiveDate g = normalIncrementDate params)
            /\ (forall passed, pc_testPassedDate params = Some passed ->
                  er_effectiveDate g = normalIncrementDate params
                  \/ er_effectiveDate g = passed)).
  { intros sanctioned withheld. cbn zeta.
    pose proof (testGatedIncrement_effective params sanctioned withheld) as [? ?].
    split; [done|]. split; [done|]. intros passed Hp. unfold testGatedIncrement.
    rewrite Hp. destruct (pc_testStatus params) as [[]|]; cbn; try (by left). lia. }
  repeat match type of H with
    | (if ?b then _ else _) = OK _ => destruct b
    end; injection H as <-; try apply Hgated; cbn; (split; [lia|]); split; try done;
    intros; by left.
Qed.

(** X16, at a concrete input. *)
Lemma X16_effective_date_not_before_normal_witness :
  exists r,
    calculateProbationIncrementEligibility
      {| incrementNumber := 2; pc_probationPeriodType := TwoYears;
         pc_probationPeriodMonths := None; pc_hasTestRequirement := true;
         pc_testStatus := Some Passed; pc_testPassedDate := Some (ymd 2022 9 15);
         normalIncrementDate := ymd 2022 7 1;
         pc_probationStartDate := Some (ymd 2020 7 1) |} = OK r
    /\ er_effectiveDate r = ymd 2022 9 15
    /\ ymd 2022 7 1 <= er_effectiveDate r.
Proof.
  eexists. split; [reflexivity|]. split; [reflexivity|].
  exact (proj1 (X16_effective_date_not_before_normal
                  {| incrementNumber := 2; pc_probationPeriodType := TwoYears;
                     pc_probationPeriodMonths := None; pc_hasTestRequirement := true;
                     pc_testStatus := Some Passed; pc_testPassedDate := Some (ymd 2022 9 15);
                     normalIncrementDate := ymd 2022 7 1;
                     pc_probationStartDate := Some (ymd 2020 7 1) |} _ eq_refl)).
Defined.

(** X17. Under a probation of two years with a test requirement, when the
    probation is not terminated, the second increment is eligible exactly
    when the test is passed and its date given; any other increment is
    eligible on its normal date. *)
Theorem X17_two_year_probation (params : ProbationEligibilityCheck) (start : Date) :
  probationYearsOf (pc_probationPeriodType params) (pc_probationPeriodMonths params) = 2 ->
  pc_hasTestRequirement params = true ->
  pc_probationStartDate params = Some start ->
  notPassedNorExempted (pc_testStatus params)
    && moreThanFiveYears (normalIncrementDate params - start) = false ->
  exists r,
    calculateProbationIncrementEligibility params = OK r
    /\ (incrementNumber params = 2 -> (eligible r = true <-> passedWithDate params))
    /\ (incrementNumber params <> 2 ->
        eligible r = true /\ er_effectiveDate r = normalIncrementDate params).
Proof.
  intros Hyears Htest Hstart Hterm. unfold calculateProbationIncrementEligibility.
  rewrite Htest, Hstart, Hyears. cbn [andb negb fromOption mbind res_bind Z.eqb Pos.eqb].
  assert (Hnot : (if notPassedNorExempted (pc_testStatus params)
                  then OK (moreThanFiveYears (normalIncrementDate params - start))
                  else OK false) = OK false).
  { destruct (notPassedNorExempted (pc_testStatus params)); cbn in Hterm; [by rewrite Hterm|done]. }
  rewrite Hnot. cbn [mbind res_bind].
  destruct (Z.eqb_spec (incrementNumber params) 1) as [H1|H1];
    [|destruct (Z.eqb_spec (incrementNumber params) 2) as [H2|H2]];
    eexists; (split; [reflexivity|]); split; try done; try lia.
  intros _. unfold testGatedIncrement, passedWithDate.
  destruct (pc_testStatus params) as [[]|], (pc_testPassedDate params) as [passed|]; cbn;
    split; try done; try (intros [? ?]; done); try (intros [? [? ?]]; done).
Qed.

(** X17, at a concrete input. *)
Lemma X17_two_year_probation_witness :
  exists r,
    calculateProbationIncrementEligibility
      {| incrementNumber := 2; pc_probationPeriodType := Custom;
         pc_probationPeriodMonths := None; pc_hasTestRequirement := true;
         pc_testStatus := Some Pending; pc_testPassedDate := None;
         normalIncrementDate := ymd 2022 7 1;
         pc_probationStartDate := Some (ymd 2020 7 1) |} = OK r
    /\ eligible r = false.
Proof.
  destruct (X17_two_year_probation
              {| incrementNumber := 2; pc_probationPeriodType := Custom;
                 pc_probationPeriodMonths := None; pc_hasTestRequirement := true;
                 pc_testStatus := Some Pending; pc_testPassedDate := None;
                 normalIncrementDate := ymd 2022 7 1;
                 pc_probationStartDate := Some (ymd 2020 7 1) |}
              (ymd 2020 7 1) eq_refl eq_refl eq_refl eq_refl)
    as (r & Hr & H2 & _).
  exists r. split; [exact Hr|].
  destruct (eligible r) eqn:He; [|reflexivity].
  destruct (proj1 (H2 eq_refl) eq_refl) as [Hs _]. discriminate Hs.
Defined.

(** X18. With a test requirement and a test neither passed nor exempted, an
    increment whose normal date is more than five years of 365.25 days after
    the start of the probation is not eligible: the probation is terminated. *)
Theorem X18_probation_terminated (params : ProbationEligibilityCheck) (start : Date) :
  pc_hasTestRequirement params = true ->
  notPassedNorExempted (pc_testStatus params) = true ->
  pc_probationStartDate params = Some start ->
  7305 < 4 * (normalIncrementDate params - start) ->
  calculateProbationIncrementEligibility params
  = OK {| eligible := false; er_effectiveDate := normalIncrementDate params;
          er_remarks := ProbationTerminated |}.
Proof.
  intros Htest Hstatus Hstart Hgap. unfold calculateProbationIncrementEligibility.
  rewrite Htest, Hstatus, Hstart. cbn [andb fromOption mbind res_bind].
  unfold moreThanFiveYears. destruct (Z.ltb_spec 7305 (4 * (normalIncrementDate params - start)));
    [done|lia].
Qed.

(** X18, at a concrete input. *)
Lemma X18_probation_terminated_witness :
  calculateProbationIncrementEligibility
    {| incrementNumber := 6; pc_probationPeriodType := TwoYears;
       pc_probationPeriodMonths := None; pc_hasTestRequirement := true;
       pc_testStatus := Some Failed; pc_testPassedDate := None;
       normalIncrementDate := ymd 2026 7 1;
       pc_probationStartDate := Some (ymd 2020 7 1) |}
  = OK {| eligible := false; er_effectiveDate := ymd 2026 7 1;
          er_remarks := ProbationTerminated |}.
Proof.
  apply (X18_probation_terminated
           {| incrementNumber := 6; pc_probationPeriodType := TwoYears;
              pc_probationPeriodMonths := None; pc_hasTestRequirement := true;
              pc_testStatus := Some Failed; pc_testPassedDate := None;
              normalIncrementDate := ymd 2026 7 1;
              pc_probationStartDate := Some (ymd 2020 7 1) |} (ymd 2020 7 1));
    try reflexivity.
Defined.

(** ** Pay band, grade pay and DA rate of the records *)

Section Invariants.

Variable K : Constants.
Variable data : EmployeeInput.

Lemma applyEvents_invariant (P : State -> Prop) (evs : list Event) :
  (forall st e st', P st -> e ∈ evs -> applyEvent K data e st = OK st' -> P st') ->
  forall st st', P st -> applyEvents K data evs st = OK st' -> P st'.
Proof.
  induction evs as [|e evs IH]; intros Hev st st' HP H; cbn [applyEvents] in H.
  - by injection H as <-.
  - apply bind_OK in H as (st1 & H1 & H2). apply (IH) with st1; [|by eapply Hev; [|left|]|done].
    intros sa ea sb Ha Hin. apply Hev; [done|by right].
Qed.

(** A property of the state kept by every part of the loop body holds at
    the end of the loop and in the state every stored record was made from. *)
Lemma loop_invariant (P : State -> Prop) :
  (forall st rs did, P st -> P (with_month_locals st rs did)) ->
  (forall st e st', P st -> e ∈ events K data -> applyEvent K data e st = OK st' -> P st') ->
  (forall st st', P st -> annualIncrement K data st = OK st' -> P st') ->
  (forall st d, P st -> P (with_date st d)) ->
  forall fuel s e st ps final,
    P st -> loop K data fuel s e st = Some (OK (ps, final)) ->
    P final /\ Forall (fun p => exists st2, P st2 /\ p = monthlyPeriod K data st2) ps.
Proof.
  intros Hlocals Hevent Hannual Hdate fuel s e.
  induction fuel as [|fuel IH]; intros st ps final HP H;
    apply loop_returned in H
      as [(_ & -> & ->) | (_ & f & st' & o & rest & Hf & Hs & Hl & ->)];
    simplify_eq; try (split; [done|constructor]).
  apply step_parts in Hs as (st1 & st2 & H1 & H2 & _ & -> & ->).
  assert (HP1 : P st1).
  { eapply applyEvents_invariant; [|apply Hlocals, HP|exact H1].
    intros sa ea sb Ha Hin. apply Hevent; [done|]. by apply monthEvents_elem in Hin as [? _]. }
  assert (HP2 : P st2) by (by eapply Hannual).
  destruct (IH _ _ _ (Hdate st2 _ HP2) Hl) as [Hfin Hrest]. split; [done|].
  apply Forall_app. split; [|done].
  destruct (_ <=? _); repeat constructor. by exists st2.
Qed.

Lemma run_invariant (P : State -> Prop) :
  (forall st rs did, P st -> P (with_month_locals st rs did)) ->
  (forall st e st', P st -> e ∈ events K data -> applyEvent K data e st = OK st' -> P st') ->
  (forall st st', P st -> annualIncrement K data st = OK st' -> P st') ->
  (forall st d, P st -> P (with_date st d)) ->
  (forall doj p, dateOfJoining data = Some doj -> initialFixation K data doj = OK p ->
                 P (initialState data doj p)) ->
  forall r,
    calculateFullPayroll K data = OK r ->
    Forall (fun p => exists st2, P st2 /\ p = monthlyPeriod K data st2) (periodsOf r)
    /\ exists final, P final /\ incrementAnalysis r = counters final
                     /\ fixations r = snapshots final.
Proof.
  intros Hlocals Hevent Hannual Hdate Hinit r H.
  apply calculateFullPayroll_returned in H as (final & Hs & Hc & Hf).
  apply simulate_returned in Hs as (doj & s & e & p & Hdoj & _ & _ & _ & Hp & Hl).
  destruct (loop_invariant P Hlocals Hevent Hannual Hdate _ _ _ _ _ _ (Hinit _ _ Hdoj Hp) Hl)
    as [Hfin Hall].
  split; [done|]. by exists final.
Qed.

(** *** The pay band *)

Ltac band_cases :=
  res_inv; unfold payBandConsistent in *; cbn in *;
  repeat match goal with
    | E : (_ =? _) = true |- _ => apply Z.eqb_eq in E
    | E : (_ =? _) = false |- _ => apply Z.eqb_neq in E
    | E : (_ <? _) = true |- _ => apply Z.ltb_lt in E
    | E : (_ <? _) = false |- _ => apply Z.ltb_ge in E
    end.

Lemma getIncrement_band currentPay level steps commission gp newPay newPipb :
  getIncrement K currentPay level steps commission gp = OK (newPay, newPipb) ->
  (commission = 7 /\ newPipb = None)
  \/ (commission = 6 /\ exists pipb g, gp = Some g /\ newPipb = Some pipb /\ newPay = pipb + g).
Proof.
  unfold getIncrement. intros H.
  destruct (Z.eqb_spec commission 7) as [->|H7].
  - left. split; [done|]. res_inv; done.
  - destruct (Z.eqb_spec commission 6) as [->|H6]; [|done].
    right. split; [done|]. destruct gp as [g|]; [|done].
    cbn [fromOption mbind res_bind] in H. injection H as <- <-. eauto.
Qed.

Lemma regularIncrement_band p p' :
  payBandConsistent p -> regularIncrement K p = OK p' -> payBandConsistent p'.
Proof.
  unfold regularIncrement. intros Hp H.
  destruct (currentCommission p <? 6) eqn:Hc.
  - apply bind_OK in H as (newPay & _ & H). injection H as <-.
    apply Z.ltb_lt in Hc. unfold payBandConsistent in *. cbn.
    destruct (Z.eqb_spec (currentCommission p) 6); [lia|done].
  - apply bind_OK in H as ([newPay newPipb] & Hi & H). injection H as <-.
    apply getIncrement_band in Hi as [[Hc7 ->] | (Hc6 & pipb & g & Hg & -> & ->)];
      unfold payBandConsistent in *; cbn; rewrite ?Hc7, ?Hc6 in *; cbn in *; [done|].
    exists pipb, g. done.
Qed.

Lemma gradeEvent_band sel fx st st' :
  payBandConsistent (pay st) -> gradeEvent K sel fx st = OK st' -> payBandConsistent (pay st').
Proof.
  unfold gradeEvent. intros Hp H.
  destruct (didIncrementThisMonth st); [by injection H as <-|].
  apply bind_OK in H as (st1 & H1 & H). injection H as <-. cbn [pay with_counters set_did
    with_month_locals].
  destruct (currentCommission (pay st) <? 6) eqn:Hc.
  - assert (Hsame : currentCommission (pay st1) = currentCommission (pay st)
                    /\ currentPipb (pay st1) = currentPipb (pay st)
                    /\ currentGradePay (pay st1) = currentGradePay (pay st))
      by (res_inv; done).
    destruct Hsame as (Hc1 & Hp1 & Hg1). unfold payBandConsistent in *.
    rewrite Hc1, Hp1, Hg1. apply Z.ltb_lt in Hc.
    destruct (Z.eqb_spec (currentCommission (pay st)) 6); [lia|done].
  - apply bind_OK in H1 as ([newPay newPipb] & Hi & H1). injection H1 as <-.
    cbn [pay push_remark with_pay with_month_locals].
    apply getIncrement_band in Hi as [[Hc7 ->] | (Hc6 & pipb & g & Hg & -> & ->)];
      unfold payBandConsistent in *; cbn; rewrite ?Hc7, ?Hc6 in *; cbn in *; [done|].
    exists pipb, g. done.
Qed.

Lemma promotionEvent_band pd st st' :
  payBandConsistent (pay st) -> promotionEvent K pd st = OK st' ->
  payBandConsistent (pay st').
Proof.
  unfold promotionEvent. intros Hp H.
  destruct (didIncrementThisMonth st); [by injection H as <-|].
  apply bind_OK in H as (st1 & H1 & H). injection H as <-. cbn [pay set_did with_month_locals].
  destruct (Z.eqb_spec (currentCommission (pay st)) 7) as [H7|H7].
  - assert (Hsame : currentCommission (pay st1) = currentCommission (pay st)
                    /\ currentPipb (pay st1) = currentPipb (pay st)
                    /\ currentGradePay (pay st1) = currentGradePay (pay st))
      by (res_inv; cbn; repeat split; reflexivity).
    destruct Hsame as (Hc1 & Hp1 & Hg1). unfold payBandConsistent in *.
    rewrite Hc1, Hp1, Hg1.
    destruct (Z.eqb_spec (currentCommission (pay st)) 6); [lia|done].
  - destruct (Z.eqb_spec (currentCommission (pay st)) 6) as [H6|H6].
    + assert (Hsix : currentCommission (pay st1) = 6
                     /\ exists pipb gp, currentPipb (pay st1) = Some pipb
                          /\ currentGradePay (pay st1) = Some gp
                          /\ currentPay (pay st1) = pipb + gp)
        by (res_inv; cbn; split; [assumption|eauto]).
      destruct Hsix as (Hc1 & Hex). unfold payBandConsistent. by rewrite Hc1.
    + assert (Hsame : currentCommission (pay st1) = currentCommission (pay st)
                      /\ currentPipb (pay st1) = currentPipb (pay st)
                      /\ currentGradePay (pay st1) = currentGradePay (pay st))
        by (res_inv; cbn; repeat split; reflexivity).
      destruct Hsame as (Hc1 & Hp1 & Hg1). unfold payBandConsistent in *.
      rewrite Hc1, Hp1, Hg1.
      destruct (Z.eqb_spec (currentCommission (pay st)) 6); [lia|done].
Qed.

Ltac commission_step H Hp :=
  unfold payBandConsistent in Hp |- *; cbn zeta in H;
  match type of H with
  | (if ?c =? ?k then _ else _) = OK _ =>
      let Hk := fresh "Hk" in
      destruct (Z.eqb_spec c k) as [Hk|Hk];
      [try rewrite Hk in Hp; cbn in Hp
      | injection H as <-; first [exact Hp | rewrite (proj2 (Z.eqb_neq _ _) Hk); exact Hp]]
  end;
  res_inv; cbn; eauto.

Lemma applyEvent_band e st st' :
  payBandConsistent (pay st) -> applyEvent K data e st = OK st' ->
  payBandConsistent (pay st').
Proof.
  unfold applyEvent. intros Hp H. destruct (ev_type e).
  - injection H as <-. by rewrite (proj2 (proj2 (daChange_frame data da st))).
  - unfold payCommission4 in H. commission_step H Hp.
  - unfold payCommission5 in H. commission_step H Hp.
  - unfold payCommission6 in H. commission_step H Hp.
  - unfold payCommission7 in H. commission_step H Hp.
  - by eapply gradeEvent_band.
  - by eapply gradeEvent_band.
  - by eapply promotionEvent_band.
  - by injection H as <-.
  - by injection H as <-.
Qed.

Lemma annualIncrement_band st st' :
  payBandConsistent (pay st) -> annualIncrement K data st = OK st' ->
  payBandConsistent (pay st').
Proof.
  unfold annualIncrement. intros Hp H.
  destruct (nextScheduledIncrementDate st) as [next|]; [|by injection H as <-].
  destruct (_ && _); [|by injection H as <-].
  apply bind_OK in H as (el & _ & H).
  destruct (_ && _).
  - apply bind_OK in H as (p & Hinc & H).
    apply bind_OK in H as (st1 & H1 & H).
    apply bind_OK in H as (ch & _ & H). injection H as <-.
    cbn [pay with_schedule set_did with_month_locals].
    pose proof (regularIncrement_band _ _ Hp Hinc) as Hp1.
    unfold accountTestIncrement in H1. cbn in H1.
    destruct (accountTestIncrementPending st).
    + apply bind_OK in H1 as (p1 & Hinc1 & H1). injection H1 as <-. cbn.
      by eapply regularIncrement_band.
    + by injection H1 as <-.
  - by destruct (negb _); injection H as <-.
Qed.

Lemma initialFixation_band doj p :
  initialFixation K data doj = OK p -> payBandConsistent p.
Proof.
  unfold initialFixation, joinInScale. intros H.
  band_cases; try done. eauto.
Qed.

(** *** The DA rate *)

Lemma events_da_entry (e : Event) (da : DaRateEntry) :
  e ∈ events K data -> ev_type e = DA_CHANGE da -> da ∈ DA_RATES K.
Proof.
  unfold events, datedEvent, fixedEvent. rewrite !elem_of_app, !elem_of_cons, elem_of_nil.
  rewrite !list_elem_of_fmap.
  intros [(da' & -> & Hda) | [ [-> | [-> | [-> | [-> | []]]]] | [H | [H | [H | [H | H]]]]]];
    cbn; try done.
  - by intros [= <-].
  - destruct (selectionGradeDate data); [|inversion H].
    apply list_elem_of_singleton in H as ->. done.
  - destruct (specialGradeDate data); [|inversion H].
    apply list_elem_of_singleton in H as ->. done.
  - apply list_elem_of_In, in_concat in H as (l & Hl & He).
    apply list_elem_of_In, list_elem_of_fmap in Hl as (pr & -> & _).
    destruct (promo_date pr); [|inversion He]. destruct He as [<-|[]]. done.
  - apply list_elem_of_In, in_concat in H as (l & Hl & He).
    apply list_elem_of_In, list_elem_of_fmap in Hl as (pr & -> & _).
    destruct (passDate pr); [|inversion He]. destruct He as [<-|[]]. done.
  - destruct H as (rev & -> & _). done.
Qed.

Lemma applyEvent_daRateFromTable e st st' :
  daRateFromTable K data (currentDaRate st) -> e ∈ events K data ->
  applyEvent K data e st = OK st' -> daRateFromTable K data (currentDaRate st').
Proof.
  intros Hr Hin H. destruct (isDaChange (ev_type e)) eqn:Hda.
  - destruct (ev_type e) as [da| | | | | | | | |] eqn:Ht; try discriminate Hda.
    pose proof (events_da_entry e da Hin Ht) as Hda'.
    unfold applyEvent in H. rewrite Ht in H. injection H as <-.
    unfold daChange. destruct (daApplies da (pay st)); [|done].
    destruct (negb _); cbn; right; eauto.
  - by rewrite (applyEvent_daRate K data e st st' H Hda).
Qed.

End Invariants.

(** X19. A record of the 6th commission shows a pay in pay band and a grade
    pay that add up to its basic pay; a record of another commission shows
    neither. *)
Theorem X19_pay_band_shown (K : Constants) (data : EmployeeInput) (r : PayrollResult) :
  calculateFullPayroll K data = OK r ->
  Forall payBandShown (periodsOf r).
Proof.
  intros H.
  destruct (run_invariant K data (fun st => payBandConsistent (pay st))) with (r := r)
    as [Hall _]; try done.
  - intros st e st' Hp _. by apply applyEvent_band.
  - apply annualIncrement_band.
  - intros doj p _. apply initialFixation_band.
  - eapply Forall_impl; [exact Hall|]. cbn beta. intros p (st2 & Hp & ->). exact Hp.
Qed.

(** X19, at a concrete input. *)
Lemma X19_pay_band_shown_witness :
  exists r p q,
    calculateFullPayroll Sample.tables Sample.across2016 = OK r
    /\ periodsOf r !! 5%nat = Some p /\ periodsOf r !! 6%nat = Some q
    /\ (payInPayBand p, gradePay p, basicPay p) = (Some 9300, Some 4200, 13500)
    /\ (payInPayBand q, gradePay q) = (None, None)
    /\ payBandShown p /\ payBandShown q.
Proof.
  destruct (calculateFullPayroll Sample.tables Sample.across2016) as [r|] eqn:Hr;
    [|vm_compute in Hr; discriminate Hr].
  destruct (periodsOf r !! 5%nat) as [p|] eqn:Hp;
    [|vm_compute in Hr; injection Hr as <-; vm_compute in Hp; discriminate Hp].
  destruct (periodsOf r !! 6%nat) as [q|] eqn:Hq;
    [|vm_compute in Hr; injection Hr as <-; vm_compute in Hq; discriminate Hq].
  pose proof (X19_pay_band_shown Sample.tables Sample.across2016 r Hr) as Hall.
  rewrite Forall_forall in Hall.
  pose proof (Hall p (list_elem_of_lookup_2 _ _ _ Hp)) as Hbp.
  pose proof (Hall q (list_elem_of_lookup_2 _ _ _ Hq)) as Hbq.
  exists r, p, q. split; [reflexivity|]. split; [exact Hp|]. split; [exact Hq|].
  split; [|split; [|split; [exact Hbp|exact Hbq]]].
  - vm_compute in Hr. injection Hr as <-. vm_compute in Hp. injection Hp as <-. reflexivity.
  - vm_compute in Hr. injection Hr as <-. vm_compute in Hq. injection Hq as <-. reflexivity.
Defined.

(** X20. The DA rate of a record is 0 or comes from an entry of the DA
    table: the override when one is given, else the rate of the entry. *)
Theorem X20_da_rate_from_table (K : Constants) (data : EmployeeInput) (r : PayrollResult) :
  calculateFullPayroll K data = OK r ->
  Forall (fun p => daRateFromTable K data (daRate p)) (periodsOf r)
  /\ forall override, daOverride data = Some override ->
       Forall (fun p => daRate p = 0 \/ daRate p = override) (periodsOf r).
Proof.
  intros H.
  destruct (run_invariant K data (fun st => daRateFromTable K data (currentDaRate st)))
    with (r := r) as [Hall _]; try done.
  - intros st e st' Hp Hin Ha. by eapply applyEvent_daRateFromTable.
  - intros st st' Hp Ha. by rewrite (annualIncrement_daRate K data st st' Ha).
  - intros doj p _ _. by left.
  - assert (Hrates : Forall (fun p => daRateFromTable K data (daRate p)) (periodsOf r)).
    { eapply Forall_impl; [exact Hall|]. cbn beta. intros p (st2 & Hp & ->). exact Hp. }
    split; [exact Hrates|]. intros override Ho.
    eapply Forall_impl; [exact Hrates|]. cbn beta.
    intros p [H0 | (da & _ & Hda)]; [by left|]. rewrite Ho in Hda. by right.
Qed.

(** X20, at a concrete input. *)
Lemma X20_da_rate_from_table_witness :
  exists r,
    calculateFullPayroll Sample.tables Sample.across2016 = OK r
    /\ map daRate (periodsOf r) = [119; 119; 119; 119; 119; 119; 119; 119; 119; 119; 119;
                                   119; 2; 2; 2; 2; 2; 2; 2; 2; 2]
    /\ Forall (fun p => daRateFromTable Sample.tables Sample.across2016 (daRate p))
         (periodsOf r).
Proof.
  destruct (calculateFullPayroll Sample.tables Sample.across2016) as [r|] eqn:Hr;
    [|vm_compute in Hr; discriminate Hr].
  exists r. split; [reflexivity|]. split.
  - vm_compute in Hr. injection Hr as <-. vm_compute. reflexivity.
  - exact (proj1 (X20_da_rate_from_table Sample.tables Sample.across2016 r Hr)).
Defined.

(** ** The commission of a record *)

Lemma year_threshold (d Y : Z) : d < DayFromYear Y <-> monthIndex d < 12 * Y.
Proof.
  unfold monthIndex, getUTCFullYear, getUTCMonth.
  pose proof (MonthFromDay_range d). pose proof (YearFromDay_spec d) as [Hlo Hhi].
  split; intros Hlt.
  - destruct (Z.le_gt_cases Y (YearFromDay d)) as [Hle|]; [|lia].
    pose proof (DayFromYear_mono _ _ Hle). lia.
  - assert (Hy : YearFromDay d + 1 <= Y) by lia.
    pose proof (DayFromYear_mono _ _ Hy). lia.
Qed.

Lemma commissionAt_month (d : Date) : commissionAt d = commissionOfMonth (monthIndex d).
Proof.
  unfold commissionAt, commissionOfMonth.
  change fixedDate1986 with (DayFromYear 1986). change fixedDate1996 with (DayFromYear 1996).
  change fixedDate2006 with (DayFromYear 2006). change fixedDate2016 with (DayFromYear 2016).
  pose proof (year_threshold d 1986). pose proof (year_threshold d 1996).
  pose proof (year_threshold d 2006). pose proof (year_threshold d 2016).
  repeat match goal with
    | |- context [?a <? ?b] => destruct (Z.ltb_spec a b)
    end; lia.
Qed.

Lemma sameMonth_index (d : Date) (e : Event) :
  sameMonth d e = true <-> monthIndex (ev_date e) = monthIndex d.
Proof.
  unfold sameMonth, monthIndex. rewrite andb_true_iff, !Z.eqb_eq.
  pose proof (MonthFromDay_range d). pose proof (MonthFromDay_range (ev_date e)).
  unfold getUTCMonth. lia.
Qed.

Section Commission.

Variable K : Constants.
Variable data : EmployeeInput.

Lemma initialFixation_commission doj p :
  initialFixation K data doj = OK p -> currentCommission p = commissionAt doj.
Proof.
  unfold initialFixation, joinInScale, commissionAt. intros H.
  repeat match goal with
    | |- context [?a <? ?b] => destruct (Z.ltb_spec a b)
    end; res_inv; reflexivity.
Qed.

Lemma events_transition (e : Event) (k : Z) :
  e ∈ events K data -> transitionFrom (ev_type e) = Some k ->
  transitionIn (monthIndex (ev_date e)) = Some k.
Proof.
  unfold events, datedEvent, fixedEvent. rewrite !elem_of_app, !elem_of_cons, elem_of_nil.
  rewrite !list_elem_of_fmap.
  intros [(da' & -> & Hda) | [ [-> | [-> | [-> | [-> | []]]]] | [H | [H | [H | [H | H]]]]]];
    cbn [ev_type ev_date transitionFrom]; try done.
  - destruct (selectionGradeDate data); [|inversion H].
    apply list_elem_of_singleton in H as ->. done.
  - destruct (specialGradeDate data); [|inversion H].
    apply list_elem_of_singleton in H as ->. done.
  - apply list_elem_of_In, in_concat in H as (l & Hl & He).
    apply list_elem_of_In, list_elem_of_fmap in Hl as (pr & -> & _).
    destruct (promo_date pr); [|inversion He]. destruct He as [<-|[]]. done.
  - apply list_elem_of_In, in_concat in H as (l & Hl & He).
    apply list_elem_of_In, list_elem_of_fmap in Hl as (pr & -> & _).
    destruct (passDate pr); [|inversion He]. destruct He as [<-|[]]. done.
  - destruct H as (rev & -> & _). done.
Qed.

Lemma events_has_transition (M k : Z) :
  transitionIn M = Some k ->
  exists e, e ∈ events K data /\ monthIndex (ev_date e) = M
            /\ transitionFrom (ev_type e) = Some k.
Proof.
  unfold transitionIn. intros H.
  assert (Hin : forall d t, In (fixedEvent d t)
                  [ fixedEvent fixedDate1986 PAY_COMMISSION_4;
                    fixedEvent fixedDate1996 PAY_COMMISSION_5;
                    fixedEvent fixedDate2006 PAY_COMMISSION_6;
                    fixedEvent fixedDate2016 PAY_COMMISSION_7 ] ->
                  fixedEvent d t ∈ events K data).
  { intros d t Hdt. unfold events. apply elem_of_app. right. apply elem_of_app. left.
    by apply list_elem_of_In. }
  destruct (Z.eqb_spec M (12 * 1986)) as [->|];
    [injection H as <-; exists (fixedEvent fixedDate1986 PAY_COMMISSION_4);
     split; [apply Hin; cbn; tauto|by vm_compute]|].
  destruct (Z.eqb_spec M (12 * 1996)) as [->|];
    [injection H as <-; exists (fixedEvent fixedDate1996 PAY_COMMISSION_5);
     split; [apply Hin; cbn; tauto|by vm_compute]|].
  destruct (Z.eqb_spec M (12 * 2006)) as [->|];
    [injection H as <-; exists (fixedEvent fixedDate2006 PAY_COMMISSION_6);
     split; [apply Hin; cbn; tauto|by vm_compute]|].
  destruct (Z.eqb_spec M (12 * 2016)) as [->|]; [|done].
  injection H as <-. exists (fixedEvent fixedDate2016 PAY_COMMISSION_7).
  split; [apply Hin; cbn; tauto|by vm_compute].
Qed.

(** The commission after an event: one more when the event is the
    transition out of the current commission, else the same. *)
Lemma applyEvent_commission e st st' :
  applyEvent K data e st = OK st' ->
  currentCommission (pay st')
  = if decide (transitionFrom (ev_type e) = Some (currentCommission (pay st)))
    then currentCommission (pay st) + 1 else currentCommission (pay st).
Proof.
  unfold applyEvent. intros H.
  assert (Hsame : forall (P : Prop) `{Decision P} (c c' : Z),
            c' = c -> ~ P -> c' = if decide P then c + 1 else c).
  { intros P ? c c' -> HnP. by destruct (decide P). }
  destruct (ev_type e) eqn:Ht; cbn [transitionFrom].
  - injection H as <-. rewrite (proj2 (proj2 (daChange_frame data da st))).
    by apply Hsame.
  - unfold payCommission4 in H. cbn zeta in H.
    destruct (Z.eqb_spec (currentCommission (pay st)) 3) as [Hc|Hc].
    + res_inv. cbn. rewrite Hc. done.
    + injection H as <-. apply Hsame; congruence.
  - unfold payCommission5 in H. cbn zeta in H.
    destruct (Z.eqb_spec (currentCommission (pay st)) 4) as [Hc|Hc].
    + res_inv. cbn. rewrite Hc. done.
    + injection H as <-. apply Hsame; congruence.
  - unfold payCommission6 in H. cbn zeta in H.
    destruct (Z.eqb_spec (currentCommission (pay st)) 5) as [Hc|Hc].
    + res_inv. cbn. rewrite Hc. done.
    + injection H as <-. apply Hsame; congruence.
  - unfold payCommission7 in H. cbn zeta in H.
    destruct (Z.eqb_spec (currentCommission (pay st)) 6) as [Hc|Hc].
    + res_inv. cbn. rewrite Hc. done.
    + injection H as <-. apply Hsame; congruence.
  - apply Hsame; [|done]. unfold gradeEvent in H. res_inv; reflexivity.
  - apply Hsame; [|done]. unfold gradeEvent in H. res_inv; reflexivity.
  - apply Hsame; [|done]. unfold promotionEvent in H. res_inv; reflexivity.
  - injection H as <-. by apply Hsame.
  - injection H as <-. by apply Hsame.
Qed.

Lemma applyEvents_commission (evs : list Event) (k : option Z) st st' :
  (forall e j, e ∈ evs -> transitionFrom (ev_type e) = Some j -> k = Some j) ->
  applyEvents K data evs st = OK st' ->
  let c := currentCommission (pay st) in
  let c' := currentCommission (pay st') in
  (c' = c \/ (k = Some c /\ c' = c + 1))
  /\ ((exists e, e ∈ evs /\ transitionFrom (ev_type e) = k) -> k = Some c -> c' = c + 1).
Proof.
  revert st. induction evs as [|e evs IH]; intros st Hk H; cbn [applyEvents] in H; cbn zeta.
  - injection H as <-. split; [by left|]. intros (e & He & _). inversion He.
  - apply bind_OK in H as (st1 & H1 & H2).
    apply applyEvent_commission in H1.
    destruct (IH st1) as [Hstep Hfire]; [|exact H2|].
    { intros e' j He'. apply Hk. by right. }
    cbn zeta in Hstep, Hfire.
    destruct (decide (transitionFrom (ev_type e) = Some (currentCommission (pay st))))
      as [Hfrom|Hfrom].
    + pose proof (Hk e _ ltac:(left) Hfrom) as Hke.
      destruct Hstep as [Hc | [Hk1 Hc]]; [|rewrite Hke in Hk1; injection Hk1; lia].
      split; [right; split; [done|lia]|]. intros _ _. lia.
    + split.
      * destruct Hstep as [Hc | [Hk1 Hc]]; [left; lia|right]. rewrite <- H1. done.
      * intros (e' & He' & Ht') Hkc. rewrite <- H1. apply Hfire; [|by rewrite H1].
        apply elem_of_cons in He' as [->|He']; [|eauto].
        rewrite Hkc in Ht'. done.
Qed.

Lemma regularIncrement_commission p p' :
  regularIncrement K p = OK p' -> currentCommission p' = currentCommission p.
Proof. unfold regularIncrement. intros H. res_inv; reflexivity. Qed.

Lemma annualIncrement_commission st st' :
  annualIncrement K data st = OK st' ->
  currentCommission (pay st') = currentCommission (pay st).
Proof.
  unfold annualIncrement. intros H.
  destruct (nextScheduledIncrementDate st) as [next|]; [|by injection H as <-].
  destruct (_ && _); [|by injection H as <-].
  apply bind_OK in H as (el & _ & H).
  destruct (_ && _).
  - apply bind_OK in H as (p & Hinc & H).
    apply bind_OK in H as (st1 & H1 & H).
    apply bind_OK in H as (ch & _ & H). injection H as <-.
    cbn [pay with_schedule set_did with_month_locals].
    apply regularIncrement_commission in Hinc.
    unfold accountTestIncrement in H1. cbn in H1.
    destruct (accountTestIncrementPending st).
    + apply bind_OK in H1 as (p1 & Hinc1 & H1). injection H1 as <-. cbn.
      apply regularIncrement_commission in Hinc1. congruence.
    + injection H1 as <-. done.
  - by destruct (negb _); injection H as <-.
Qed.

Lemma step_commission s st st' o :
  commissionLags st -> step K data s st = OK (st', o) ->
  commissionLags st'
  /\ forall p, o = Some p -> commission p = commissionAt (period p).
Proof.
  intros (M0 & Hc & HM & Hskip) Hs.
  pose proof (step_parts _ _ _ _ _ _ Hs) as (st1 & st2 & H1 & H2 & Hd & -> & ->).
  set (d := currentDate st) in *. set (M := monthIndex d) in *.
  assert (Hc1 : currentCommission (pay st1) = commissionOfMonth M).
  { assert (Hmonth : forall e j, e ∈ monthEvents K data d ->
                         transitionFrom (ev_type e) = Some j -> transitionIn M = Some j).
    { intros e j He Hj. apply monthEvents_elem in He as [He Hsame].
      apply sameMonth_index in Hsame. unfold M. rewrite <- Hsame.
      by apply events_transition. }
    destruct (applyEvents_commission (monthEvents K data d) (transitionIn M) _ _ Hmonth H1)
      as [Hstep Hfire].
    cbn [pay with_month_locals] in Hstep, Hfire. rewrite Hc in Hstep, Hfire.
    destruct (transitionIn M) as [k|] eqn:Hk.
    - assert (Hex : exists e, e ∈ monthEvents K data d /\ transitionFrom (ev_type e) = Some k).
      { destruct (events_has_transition M k Hk) as (e & He & HeM & Het).
        exists e. split; [|done]. apply monthEvents_elem. split; [done|].
        by apply sameMonth_index. }
      specialize (Hfire Hex).
      unfold transitionIn in Hk. unfold commissionOfMonth in *.
      repeat match type of Hk with
        | (if ?a =? ?b then _ else _) = _ => destruct (Z.eqb_spec a b)
        end; try discriminate Hk; injection Hk as <-;
        repeat match goal with
          | _ : context [?a <? ?b] |- _ => destruct (Z.ltb_spec a b)
          | |- context [?a <? ?b] => destruct (Z.ltb_spec a b)
          end; try lia;
        try (destruct Hstep as [? | [? ?]]; [lia|simplify_eq; lia]);
        try (specialize (Hfire eq_refl); lia).
    - destruct Hstep as [Hsame | [? _]]; [|done]. rewrite Hsame.
      unfold transitionIn in Hk. unfold commissionOfMonth.
      repeat match type of Hk with
        | (if ?a =? ?b then _ else _) = _ => destruct (Z.eqb_spec a b)
        end; try discriminate Hk;
        repeat match goal with
          | |- context [?a <? ?b] => destruct (Z.ltb_spec a b)
          end; try lia;
        exfalso; apply Hskip; try lia;
        match goal with
        | |- (?x + 1) mod 12 = 0 => 
            first [ replace (x + 1) with (12 * 1986) by lia
                  | replace (x + 1) with (12 * 1996) by lia
                  | replace (x + 1) with (12 * 2006) by lia
                  | replace (x + 1) with (12 * 2016) by lia ]; reflexivity
        end. }
  apply annualIncrement_commission in H2.
  split.
  - exists M. cbn [pay currentDate with_date]. split; [congruence|].
    destruct (nextMonthOf_calendar d) as [Hnext Hover].
    destruct (Z.le_gt_cases (getUTCDate d) (daysInMonthAfter d)) as [Hle|Hgt].
    + destruct (Hnext Hle) as [-> _]. fold M. split; [lia|]. intros; lia.
    + destruct (Hover Hgt) as [-> _]. fold M. split; [lia|]. intros _ Hjan.
      unfold daysInMonthAfter, monthAfter in Hgt. cbn [fst snd] in Hgt. fold M in Hgt.
      rewrite Hjan in Hgt. pose proof (getUTCDate_range d) as Hr.
      pose proof (daysInMonth_range (InLeapYear (getUTCFullYear d)) (getUTCMonth d)).
      change (daysInMonth (InLeapYear ((M + 1) / 12)) 0) with 31 in Hgt. lia.
  - intros p Hp. destruct (s <=? d); [|discriminate Hp]. injection Hp as <-.
    cbn [commission period monthlyPeriod]. rewrite Hd.
    rewrite commissionAt_month. fold d M. congruence.
Qed.

Lemma loop_commission_by_date fuel s e st ps final :
  commissionLags st -> loop K data fuel s e st = Some (OK (ps, final)) ->
  Forall (fun p => commission p = commissionAt (period p)) ps.
Proof.
  revert st ps. induction fuel as [|fuel IH]; intros st ps Hlag H;
    apply loop_returned in H
      as [(_ & -> & ->) | (_ & f & st' & o & rest & Hf & Hs & Hl & ->)];
    simplify_eq; try constructor.
  destruct (step_commission _ _ _ _ Hlag Hs) as [Hlag' Hrec].
  apply Forall_app. split; [|by eapply IH].
  destruct o as [p|]; repeat constructor. by apply Hrec.
Qed.

End Commission.

(** X21. Every record carries the commission in force at its date: 3 before
    1986, 4 before 1996, 5 before 2006, 6 before 2016, and 7 from 1 January
    2016. *)
Theorem X21_commission_by_date (K : Constants) (data : EmployeeInput) (r : PayrollResult) :
  calculateFullPayroll K data = OK r ->
  Forall (fun p => commission p = commissionAt (period p)) (periodsOf r).
Proof.
  intros H. apply calculateFullPayroll_returned in H as (final & Hs & _).
  apply simulate_returned in Hs as (doj & s & e & p & _ & _ & _ & _ & Hp & Hl).
  eapply loop_commission_by_date; [|exact Hl].
  exists (monthIndex doj). cbn [pay currentDate initialState].
  split; [|split; [lia|intros; lia]].
  rewrite <- commissionAt_month. by apply (initialFixation_commission K data).
Qed.

(** X21, at a concrete input. *)
Lemma X21_commission_by_date_witness :
  exists r,
    calculateFullPayroll Sample.tables Sample.across2016 = OK r
    /\ map commission (periodsOf r)
       = [6; 6; 6; 6; 6; 6; 7; 7; 7; 7; 7; 7; 7; 7; 7; 7; 7; 7; 7; 7; 7]
    /\ Forall (fun p => commission p = commissionAt (period p)) (periodsOf r).
Proof.
  destruct (calculateFullPayroll Sample.tables Sample.across2016) as [r|] eqn:Hr;
    [|vm_compute in Hr; discriminate Hr].
  exists r. split; [reflexivity|]. split.
  - vm_compute in Hr. injection Hr as <-. vm_compute. reflexivity.
  - exact (X21_commission_by_date Sample.tables Sample.across2016 r Hr).
Defined.

(** ** Selection and special grade *)

Section Grades.

Variable K : Constants.
Variable data : EmployeeInput.

Lemma events_grade (sel : bool) (e : Event) :
  e ∈ events K data -> isGrade sel (ev_type e) = true ->
  gradeDate sel data = Some (ev_date e).
Proof.
  unfold events, datedEvent, fixedEvent. rewrite !elem_of_app, !elem_of_cons, elem_of_nil.
  rewrite !list_elem_of_fmap.
  intros [(da' & -> & Hda) | [ [-> | [-> | [-> | [-> | []]]]] | [H | [H | [H | [H | H]]]]]];
    cbn [ev_type ev_date isGrade]; try done.
  - destruct (selectionGradeDate data) eqn:Hd; [|inversion H].
    apply list_elem_of_singleton in H as ->. cbn. intros ->. exact Hd.
  - destruct (specialGradeDate data) eqn:Hd; [|inversion H].
    apply list_elem_of_singleton in H as ->. cbn. destruct sel; [done|]. intros _. exact Hd.
  - apply list_elem_of_In, in_concat in H as (l & Hl & He).
    apply list_elem_of_In, list_elem_of_fmap in Hl as (pr & -> & _).
    destruct (promo_date pr); [|inversion He]. destruct He as [<-|[]]. done.
  - apply list_elem_of_In, in_concat in H as (l & Hl & He).
    apply list_elem_of_In, list_elem_of_fmap in Hl as (pr & -> & _).
    destruct (passDate pr); [|inversion He]. destruct He as [<-|[]]. done.
  - destruct H as (rev & -> & _). done.
Qed.

Lemma gradeEvent_other_count (sel : bool) fx st st' :
  gradeEvent K (negb sel) fx st = OK st' ->
  gradeCount sel (counters st') = gradeCount sel (counters st).
Proof.
  unfold gradeEvent. intros H.
  destruct (didIncrementThisMonth st); [by injection H as <-|].
  apply bind_OK in H as (st1 & H1 & H). injection H as <-.
  assert (Hc : counters st1 = counters st) by (res_inv; reflexivity).
  cbn. rewrite Hc. unfold gradeCount. by destruct sel.
Qed.

Lemma applyEvent_gradeCount (sel : bool) e st st' :
  applyEvent K data e st = OK st' -> isGrade sel (ev_type e) = false ->
  gradeCount sel (counters st') = gradeCount sel (counters st).
Proof.
  unfold applyEvent. intros H Hn. destruct (ev_type e); cbn [isGrade] in Hn.
  - injection H as <-. unfold daChange. by repeat case_match.
  - unfold payCommission4 in H. res_inv; reflexivity.
  - unfold payCommission5 in H. res_inv; reflexivity.
  - unfold payCommission6 in H. res_inv; reflexivity.
  - unfold payCommission7 in H. res_inv; reflexivity.
  - destruct sel; [done|]. by apply (gradeEvent_other_count false applyFixation).
  - destruct sel; [|done]. by apply (gradeEvent_other_count true applyFixation).
  - unfold promotionEvent in H.
    destruct (didIncrementThisMonth st); [by injection H as <-|].
    apply bind_OK in H as (st1 & H1 & H). injection H as <-.
    assert (Hc : counters st1 = count (counters st) CPromotion) by (res_inv; reflexivity).
    cbn. rewrite Hc. unfold gradeCount. by destruct sel.
  - by injection H as <-.
  - by injection H as <-.
Qed.

Lemma applyEvents_gradeCount (sel : bool) evs st st' :
  applyEvents K data evs st = OK st' ->
  Forall (fun e => isGrade sel (ev_type e) = false) evs ->
  gradeCount sel (counters st') = gradeCount sel (counters st).
Proof.
  revert st. induction evs as [|e evs IH]; simpl; intros st H Hall.
  - by injection H as <-.
  - apply bind_OK in H as (st1 & H1 & H2). inversion Hall; subst.
    rewrite (IH _ H2) by done. by eapply applyEvent_gradeCount.
Qed.

(** A round counts the grade at most once, and only in the month of the
    grade's date. *)
Lemma step_gradeCount (sel : bool) s st st' o :
  step K data s st = OK (st', o) ->
  let c := gradeCount sel (counters st) in
  let c' := gradeCount sel (counters st') in
  c <= c' <= c + 1
  /\ (c' <> c ->
      exists gd, gradeDate sel data = Some gd
                 /\ monthIndex gd = monthIndex (currentDate st)).
Proof.
  intros H. cbn zeta.
  apply step_parts in H as (st1 & st2 & H1 & H2 & _ & -> & _).
  pose proof (applyEvents_counts _ _ _ _ _ H1) as [Hsg Hsp Hpr Hmv].
  pose proof (applyEvents_frame _ _ _ _ _ H1) as [_ [_ Hr _]].
  pose proof (annualIncrement_counts _ _ _ _ H2) as (Hsg2 & Hsp2 & _ & _).
  cbn [counters with_date with_month_locals didIncrementThisMonth] in *.
  assert (Hc2 : gradeCount sel (counters st2) = gradeCount sel (counters st1))
    by (unfold gradeCount; destruct sel; lia).
  rewrite Hc2. split.
  - unfold gradeCount, payMoves in *. destruct sel; destruct Hmv as [[_ ?]|(_ & _ & ?)]; lia.
  - intros Hne.
    destruct (decide (Forall (fun e => isGrade sel (ev_type e) = false)
                        (monthEvents K data (currentDate st)))) as [Hall|Hex].
    + exfalso. apply Hne. by apply (applyEvents_gradeCount sel _ _ _ H1).
    + apply not_Forall_Exists in Hex; [|apply _].
      apply Exists_exists in Hex as (e & He & Hg). apply monthEvents_elem in He as [He Hm].
      exists (ev_date e). split.
      * apply events_grade; [done|]. cbn in Hg. by destruct (isGrade sel (ev_type e)).
      * by apply sameMonth_index.
Qed.

Lemma loop_gradeCount (sel : bool) fuel s e st ps final (G : Z) :
  (forall gd, gradeDate sel data = Some gd -> monthIndex gd = G) ->
  loop K data fuel s e st = Some (OK (ps, final)) ->
  gradeCount sel (counters st) <= gradeCount sel (counters final)
  /\ gradeCount sel (counters final)
     <= gradeCount sel (counters st) + (if monthIndex (currentDate st) <=? G then 1 else 0)
  /\ (gradeDate sel data = None ->
      gradeCount sel (counters final) = gradeCount sel (counters st)).
Proof.
  intros HG. revert st ps. induction fuel as [|fuel IH]; intros st ps H;
    apply loop_returned in H
      as [(_ & -> & ->) | (_ & f & st' & o & rest & Hf & Hs & Hl & ->)];
    simplify_eq; try (split; [lia|]; split; [destruct (_ <=? _); lia|done]).
  destruct (IH _ _ Hl) as (Hlo & Hhi & Hnone).
  pose proof (step_date _ _ _ _ _ _ Hs) as Hd.
  pose proof (nextMonthOf_later (currentDate st)) as Hlater. rewrite <- Hd in Hlater.
  destruct (step_gradeCount sel _ _ _ _ Hs) as [Hstep Hwhen]. cbn zeta in Hstep, Hwhen.
  split; [lia|]. split.
  - destruct (decide (gradeCount sel (counters st') = gradeCount sel (counters st)))
      as [Heq|Hne].
    + rewrite Heq in Hhi.
      destruct (Z.leb_spec (monthIndex (currentDate st')) G),
               (Z.leb_spec (monthIndex (currentDate st)) G); lia.
    + destruct (Hwhen Hne) as (gd & Hgd & Hm). specialize (HG gd Hgd).
      destruct (Z.leb_spec (monthIndex (currentDate st')) G),
               (Z.leb_spec (monthIndex (currentDate st)) G); lia.
  - intros Hn. rewrite (Hnone Hn).
    destruct (decide (gradeCount sel (counters st') = gradeCount sel (counters st)))
      as [Heq|Hne]; [done|].
    destruct (Hwhen Hne) as (gd & Hgd & _). congruence.
Qed.

Lemma run_gradeCount (sel : bool) r :
  calculateFullPayroll K data = OK r ->
  0 <= gradeCount sel (incrementAnalysis r) <= 1
  /\ (gradeDate sel data = None -> gradeCount sel (incrementAnalysis r) = 0).
Proof.
  intros H. apply calculateFullPayroll_returned in H as (final & Hs & -> & _).
  apply simulate_returned in Hs as (doj & s & e & p & _ & _ & _ & _ & _ & Hl).
  destruct (loop_gradeCount sel _ _ _ _ _ _
              (default 0 (monthIndex <$> gradeDate sel data))
              ltac:(intros gd ->; reflexivity) Hl) as (Hlo & Hhi & Hnone).
  assert (H0 : gradeCount sel (counters (initialState data doj p)) = 0)
    by (unfold gradeCount; by destruct sel).
  rewrite H0 in *. split; [|done].
  destruct (_ <=? _); lia.
Qed.

End Grades.

(** X22. The selection grade and the special grade are each counted at most
    once in a result, and not at all when their date is not given. *)
Theorem X22_grades_at_most_once (K : Constants) (data : EmployeeInput) (r : PayrollResult) :
  calculateFullPayroll K data = OK r ->
  0 <= selectionGrade (incrementAnalysis r) <= 1
  /\ 0 <= specialGrade (incrementAnalysis r) <= 1
  /\ (selectionGradeDate data = None -> selectionGrade (incrementAnalysis r) = 0)
  /\ (specialGradeDate data = None -> specialGrade (incrementAnalysis r) = 0).
Proof.
  intros H.
  destruct (run_gradeCount K data true r H) as [H1 H2].
  destruct (run_gradeCount K data false r H) as [H3 H4].
  done.
Qed.

(** X22, at a concrete input. *)
Lemma X22_grades_at_most_once_witness :
  exists r,
    calculateFullPayroll Sample.tables Cases.withGradeAndTest = OK r
    /\ 0 <= selectionGrade (incrementAnalysis r) <= 1.
Proof.
  destruct (calculateFullPayroll Sample.tables Cases.withGradeAndTest) as [r|] eqn:Hr;
    [|vm_compute in Hr; discriminate Hr].
  exists r. split; [reflexivity|].
  exact (proj1 (X22_grades_at_most_once Sample.tables Cases.withGradeAndTest r Hr)).
Defined.

(** ** The employee details of the output *)

Lemma mapM_is_Some {A B : Type} (f : A -> option B) (l : list A) :
  is_Some (mapM f l) <-> Forall (fun x => is_Some (f x)) l.
Proof.
  split.
  - intros [k Hk]. apply mapM_Some in Hk.
    induction Hk as [|x y l k Hxy _ IH]; constructor; [by eexists|done].
  - induction 1 as [|x l [y Hy] _ [k Hk]]; [by eexists|].
    cbn. rewrite Hy. cbn. rewrite Hk. by eexists.
Qed.

(** X23. With a date of birth and a retirement age that is a number, the
    retirement date is the last day of the month of birth in the year of
    birth plus the age, when that year is 100 or later. *)
Theorem X23_retirement_on_last_day_of_birth_month (identity : EmployeeIdentity)
    (dob age : Z) :
  dateOfBirth identity = Some dob ->
  Js.parseInt (retirementAge identity) = Some age ->
  100 <= getUTCFullYear dob + age ->
  exists d,
    retirementDateStr identity = RetirementOn d
    /\ getUTCFullYear d = getUTCFullYear dob + age
    /\ getUTCMonth d = getUTCMonth dob
    /\ getUTCDate d = lastDayOfMonth (getUTCFullYear dob + age) (getUTCMonth dob)
    /\ getUTCDate (d + 1) = 1.
Proof.
  intros Hdob Hage Hyear. unfold retirementDateStr. rewrite Hdob, Hage.
  eexists. split; [reflexivity|].
  pose proof (MonthFromDay_range dob) as Hm. fold (getUTCMonth dob) in Hm.
  set (y := getUTCFullYear dob + age) in *. set (m := getUTCMonth dob) in *.
  unfold UTC. destruct (Z.leb_spec 0 y), (Z.leb_spec y 99); cbn [andb]; try lia.
  pose proof (daysInMonth_range (InLeapYear y) m) as Hn.
  pose proof (MakeDay_shift y (m + 1) 1 (-1)) as Hprev. change (1 + -1) with 0 in Hprev.
  pose proof (MakeDay_month_end y m Hm) as Hend.
  pose proof (MakeDay_shift y m 1 (lastDayOfMonth y m - 1)) as Hlast.
  replace (1 + (lastDayOfMonth y m - 1)) with (lastDayOfMonth y m) in Hlast by lia.
  assert (Hday : MakeDay y (m + 1) 0 = MakeDay y m (lastDayOfMonth y m))
    by (unfold lastDayOfMonth in *; lia).
  rewrite Hday.
  destruct (MakeDay_fields y m (lastDayOfMonth y m)) as (Hy & Hmo & Hd);
    [lia|unfold lastDayOfMonth; lia|].
  split; [exact Hy|]. split; [exact Hmo|]. split; [exact Hd|].
  replace (MakeDay y m (lastDayOfMonth y m) + 1) with (MakeDay y (m + 1) 1) by lia.
  pose proof (daysInMonth_range (InLeapYear (y + (m + 1) / 12)) ((m + 1) mod 12)).
  destruct (monthIndex_MakeDay y (m + 1) 1) as [_ Hone]; [lia|]. exact Hone.
Qed.

(** X23, at a concrete input. *)
Lemma X23_retirement_on_last_day_of_birth_month_witness :
  exists d,
    retirementDateStr
      {| dateOfBirth := Some (ymd 1964 2 10); retirementAge := "60";
         dateOfJoiningInOffice := None; joiningPostCustomName := None;
         testType := None; testName := None |} = RetirementOn d
    /\ d = ymd 2024 2 29.
Proof.
  destruct (X23_retirement_on_last_day_of_birth_month
              {| dateOfBirth := Some (ymd 1964 2 10); retirementAge := "60";
                 dateOfJoiningInOffice := None; joiningPostCustomName := None;
                 testType := None; testName := None |}
              (ymd 1964 2 10) 60 eq_refl eq_refl ltac:(vm_compute; discriminate))
    as (d & Hd & _).
  exists d. split; [exact Hd|]. vm_compute in Hd. by injection Hd as <-.
Defined.

(** X24. With a probation start date whose day of the month is at most 28,
    the probation ends on the day before the same day of the month, as many
    months after the start as the probation lasts. *)
Theorem X24_probation_ends_day_before_anniversary (data : EmployeeInput) (start : Date) :
  probationStartDate data = Some start ->
  getUTCDate start <= 28 ->
  exists e,
    probationEndsOn data = Some e
    /\ monthIndex (e + 1) = monthIndex start + monthsToAdd data
    /\ getUTCDate (e + 1) = getUTCDate start.
Proof.
  intros Hstart Hday. unfold probationEndsOn. rewrite Hstart.
  eexists. split; [reflexivity|].
  replace (getUTCDate (setUTCMonth start (getUTCMonth start + monthsToAdd data)) - 1)
    with (getUTCDate (setUTCMonth start (getUTCMonth start + monthsToAdd data)) + -1) by lia.
  rewrite setUTCDate_shift.
  replace (setUTCMonth start (getUTCMonth start + monthsToAdd data) + -1 + 1)
    with (setUTCMonth start (getUTCMonth start + monthsToAdd data)) by lia.
  unfold setUTCMonth.
  pose proof (getUTCDate_range start) as Hr.
  pose proof (daysInMonth_range
                (InLeapYear (getUTCFullYear start
                             + (getUTCMonth start + monthsToAdd data) / 12))
                ((getUTCMonth start + monthsToAdd data) mod 12)).
  destruct (monthIndex_MakeDay (getUTCFullYear start)
              (getUTCMonth start + monthsToAdd data) (getUTCDate start)) as [Hi Hd]; [lia|].
  rewrite Hi, Hd. unfold monthIndex. split; [lia|done].
Qed.

(** X24, at a concrete input. *)
Lemma X24_probation_ends_day_before_anniversary_witness :
  exists e,
    probationEndsOn Sample.august2018 = Some e /\ e = ymd 2020 7 31.
Proof.
  destruct (X24_probation_ends_day_before_anniversary Sample.august2018 (ymd 2018 8 1)
              eq_refl ltac:(vm_compute; discriminate)) as (e & He & _).
  exists e. split; [exact He|]. vm_compute in He. by injection He as <-.
Defined.

(** X25. The function returns its output only when the payroll is computed
    and the date of birth, the date of joining in office, the date of every
    promotion and the date of every account test pass are given; the
    retirement date of a returned output is never ['N/A']. *)
Theorem X25_output_needs_every_date (POSTS : list Post) (K : Constants)
    (data : EmployeeInput) (identity : EmployeeIdentity)
    (r : PayrollResult) (details : EmployeeDetails) :
  calculateFullPayrollOutput POSTS K data identity = OK (r, details) ->
  calculateFullPayroll K data = OK r
  /\ is_Some (dateOfBirth identity)
  /\ is_Some (dateOfJoiningInOffice identity)
  /\ Forall (fun p => is_Some (promo_date p)) (promotions data)
  /\ Forall (fun a => is_Some (passDate a)) (accountTestPasses data)
  /\ ed_retirementDate details <> RetirementNotAvailable.
Proof.
  unfold calculateFullPayrollOutput, employeeDetails. intros H.
  apply bind_OK in H as (r' & Hr & H). apply bind_OK in H as (doj & _ & H).
  apply bind_OK in H as (d & Hd & H). injection H as <- <-.
  apply bind_OK in Hd as (dob & Hdob & Hd). apply bind_OK in Hd as (ino & Hino & Hd).
  apply bind_OK in Hd as (promos & Hpromos & Hd). apply bind_OK in Hd as (passes & Hpasses & Hd).
  injection Hd as <-. cbn [ed_retirementDate].
  destruct (dateOfBirth identity) as [dob'|] eqn:Hb; [|discriminate Hdob].
  destruct (dateOfJoiningInOffice identity) as [ino'|]; [|discriminate Hino].
  split; [done|]. split; [by eexists|]. split; [by eexists|].
  destruct (mapM _ (promotions data)) as [ps|] eqn:Hps; [|discriminate Hpromos].
  destruct (mapM _ (accountTestPasses data)) as [ts|] eqn:Hts; [|discriminate Hpasses].
  split; [|split].
  - assert (Hsome : is_Some (mapM (fun p => d ← promo_date p; Some (promo_post p, d))
                               (promotions data))) by (by eexists).
    apply mapM_is_Some in Hsome. eapply Forall_impl; [exact Hsome|].
    cbn beta. intros p [x Hx]. destruct (promo_date p); [by eexists|discriminate Hx].
  - assert (Hsome : is_Some (mapM (fun a => d ← passDate a; Some (d, at_description a))
                               (accountTestPasses data))) by (by eexists).
    apply mapM_is_Some in Hsome. eapply Forall_impl; [exact Hsome|].
    cbn beta. intros a [x Hx]. destruct (passDate a); [by eexists|discriminate Hx].
  - unfold retirementDateStr. rewrite Hb. by destruct (Js.parseInt _).
Qed.

(** X25, at a concrete input. *)
Lemma X25_output_needs_every_date_witness :
  exists r details,
    calculateFullPayrollOutput [] Sample.tables Cases.withGradeAndTest Cases.identity
    = OK (r, details)
    /\ is_Some (dateOfBirth Cases.identity).
Proof.
  destruct (calculateFullPayrollOutput [] Sample.tables Cases.withGradeAndTest Cases.identity)
    as [[r details]|] eqn:Hr; [|vm_compute in Hr; discriminate Hr].
  exists r, details. split; [reflexivity|].
  exact (proj1 (proj2 (X25_output_needs_every_date [] Sample.tables Cases.withGradeAndTest
                         Cases.identity r details Hr))).
Defined.

(** The employee details are returned when the dates they read are given. *)
Lemma employeeDetails_returns (POSTS : list Post) (data : EmployeeInput)
    (identity : EmployeeIdentity) (doj : Date) :
  is_Some (dateOfBirth identity) ->
  is_Some (dateOfJoiningInOffice identity) ->
  Forall (fun p => is_Some (promo_date p)) (promotions data) ->
  Forall (fun a => is_Some (passDate a)) (accountTestPasses data) ->
  exists details,
    employeeDetails POSTS data identity doj = OK details
    /\ ed_dateOfJoining details = doj.
Proof.
  intros [dob Hdob] [ino Hino] Hpromos Hpasses. unfold employeeDetails.
  rewrite Hdob, Hino. cbn [fromOption mbind res_bind].
  assert (Hp : is_Some (mapM (fun p => d ← promo_date p; Some (promo_post p, d))
                          (promotions data))).
  { apply mapM_is_Some. eapply Forall_impl; [exact Hpromos|].
    cbn beta. intros p [d Hd]. rewrite Hd. by eexists. }
  assert (Ht : is_Some (mapM (fun a => d ← passDate a; Some (d, at_description a))
                          (accountTestPasses data))).
  { apply mapM_is_Some. eapply Forall_impl; [exact Hpasses|].
    cbn beta. intros a [d Hd]. rewrite Hd. by eexists. }
  destruct Hp as [ps ->], Ht as [ts ->]. cbn [fromOption mbind res_bind].
  eexists. split; reflexivity.
Qed.

(** X9. When the joining data are valid, the dates that the output reads are
    given (the date of birth, the date of joining in office, the date of
    every promotion and of every account test pass), and the end of the
    window (the calculation end date, or an earlier relief date) is before
    the joining date, the function returns, with an empty payroll: no
    record, no fixation, every counter zero. *)
Theorem X9_window_before_joining (POSTS : list Post) (K : Constants)
    (data : EmployeeInput) (identity : EmployeeIdentity) (doj s e : Date) (p : PayState) :
  dateOfJoining data = Some doj ->
  calculationStartDate data = Some s ->
  calculationEndDate data = Some e ->
  ymd 1980 1 1 <= doj ->
  initialFixation K data doj = OK p ->
  effectiveEndDate data e < doj ->
  is_Some (dateOfBirth identity) ->
  is_Some (dateOfJoiningInOffice identity) ->
  Forall (fun p => is_Some (promo_date p)) (promotions data) ->
  Forall (fun a => is_Some (passDate a)) (accountTestPasses data) ->
  exists details,
    calculateFullPayrollOutput POSTS K data identity
    = OK ({| fixations := noFixations; yearlyCalculations := [];
             incrementAnalysis := noIncrements |}, details)
    /\ ed_dateOfJoining details = doj.
Proof.
  intros Hdoj Hs He H80 Hp Hlt Hdob Hino Hpromos Hpasses.
  destruct (employeeDetails_returns POSTS data identity doj Hdob Hino Hpromos Hpasses)
    as (details & Hd & Hj).
  exists details. split; [|exact Hj].
  unfold calculateFullPayrollOutput.
  rewrite (window_before_joining K data doj s e p Hdoj Hs He H80 Hp Hlt).
  cbn [mbind res_bind]. rewrite Hdoj. cbn [fromOption mbind res_bind].
  rewrite Hd. reflexivity.
Qed.

(** X9, at a concrete input. *)
Lemma X9_window_before_joining_witness :
  exists details,
    calculateFullPayrollOutput [] Sample.tables
      (withCalculationEndDate Sample.august2018 (ymd 2018 7 31)) Cases.identity
    = OK ({| fixations := noFixations; yearlyCalculations := [];
             incrementAnalysis := noIncrements |}, details)
    /\ ed_dateOfJoining details = ymd 2018 8 1.
Proof.
  apply (X9_window_before_joining [] Sample.tables
           (withCalculationEndDate Sample.august2018 (ymd 2018 7 31)) Cases.identity
           (ymd 2018 8 1) (ymd 2018 8 1) (ymd 2018 7 31)
           {| currentPay := 20600; currentCommission := 7; currentLevel := 7;
              currentPipb := None; currentGradePay := None;
              currentScaleString := None; currentOrdinaryScaleString := None |});
    try reflexivity; try (by eexists); try (by constructor); vm_compute; discriminate.
Defined.

(** ** The events of a month, the first scheduled increment and the joining card *)

Section Stable.

Context {A : Type} (key : A -> Z).

Lemma insert_by_filter (P : A -> bool) (x : A) (l : list A) :
  (forall y z, P y = true -> P z = true -> key y = key z) ->
  List.filter P (Js.insert_by key x l) = List.filter P (x :: l).
Proof.
  intros Hkey. induction l as [|y r IH]; [done|].
  cbn [Js.insert_by]. destruct (Z.leb_spec (key x) (key y)) as [Hle|Hlt]; [done|].
  cbn [List.filter] in *. rewrite IH.
  destruct (P x) eqn:Hx, (P y) eqn:Hy; try done.
  specialize (Hkey x y Hx Hy). lia.
Qed.

Lemma sort_by_filter (P : A -> bool) (l : list A) :
  (forall y z, P y = true -> P z = true -> key y = key z) ->
  List.filter P (Js.sort_by key l) = List.filter P l.
Proof.
  intros Hkey. unfold Js.sort_by. induction l as [|x l IH]; [done|].
  cbn [foldr]. rewrite insert_by_filter by done. cbn [List.filter]. by rewrite IH.
Qed.

End Stable.

Lemma filter_filter_comm {A : Type} (P Q : A -> bool) (l : list A) :
  List.filter P (List.filter Q l) = List.filter Q (List.filter P l).
Proof.
  induction l as [|x l IH]; [done|]. cbn [List.filter].
  destruct (P x) eqn:HP, (Q x) eqn:HQ; cbn [List.filter]; rewrite ?HP, ?HQ, IH; done.
Qed.

Lemma datedEvent_priority (d : option Date) (t : EventType) :
  Forall (fun e => (ev_priority e =? 3) = true) (datedEvent d t).
Proof. destruct d; repeat constructor. Qed.

Lemma concat_dated_priority {A : Type} (date : A -> option Date) (type : A -> EventType)
    (l : list A) :
  Forall (fun e => (ev_priority e =? 3) = true)
    (concat (map (fun x => datedEvent (date x) (type x)) l)).
Proof.
  induction l as [|x l IH]; [constructor|].
  cbn [map concat]. apply Forall_app. split; [apply datedEvent_priority|exact IH].
Qed.

(** X26. The events of a month are applied in order of priority, and the
    events of one priority in their order in the event list; so the events
    of priority 3 of a month are, in this order, its selection grade, its
    special grade, its promotions and its account test passes in the order
    of the input, and the revisions of 2010. *)
Theorem X26_month_events_order (K : Constants) (data : EmployeeInput) (d : Date) :
  nondecreasing ev_priority (monthEvents K data d)
  /\ (forall k : Z,
        List.filter (fun e => ev_priority e =? k) (monthEvents K data d)
        = List.filter (fun e => ev_priority e =? k)
            (List.filter (sameMonth d) (events K data)))
  /\ List.filter (fun e => ev_priority e =? 3) (monthEvents K data d)
     = List.filter (sameMonth d)
         (datedEvent (selectionGradeDate data)
            (SELECTION_GRADE (selectionGradeTwoIncrements data))
          ++ datedEvent (specialGradeDate data)
               (SPECIAL_GRADE (specialGradeTwoIncrements data))
          ++ concat (map (fun p => datedEvent (promo_date p) (PROMOTION p)) (promotions data))
          ++ concat (map (fun a => datedEvent (passDate a) (ACCOUNT_TEST_PASS a))
                       (accountTestPasses data))
          ++ map (fun rev => {| ev_date := ymd 2010 8 1; ev_type := PAY_REVISION_2010 rev;
                                ev_priority := 3 |})
               (PAY_REVISIONS_2010 K)).
Proof.
  assert (Hstable : forall k : Z,
             List.filter (fun e => ev_priority e =? k) (monthEvents K data d)
             = List.filter (fun e => ev_priority e =? k)
                 (List.filter (sameMonth d) (events K data))).
  { intros k. unfold monthEvents. apply sort_by_filter.
    intros y z Hy Hz. apply Z.eqb_eq in Hy, Hz. lia. }
  split; [apply sort_by_sorted|]. split; [exact Hstable|].
  rewrite Hstable, filter_filter_comm. f_equal.
  unfold events. rewrite !List.filter_app.
  rewrite (filter_all_false (fun e => ev_priority e =? 3) (map _ (DA_RATES K)))
    by (apply Forall_forall; intros e He; apply list_elem_of_fmap in He as (da & -> & _); done).
  cbn [List.filter fixedEvent ev_priority Z.eqb Pos.eqb app].
  rewrite !filter_all_true by first [apply datedEvent_priority | apply concat_dated_priority
    | apply Forall_forall; intros e He; apply list_elem_of_fmap in He as (rev & -> & _); done].
  done.
Qed.

Lemma scheduled_month (eligible m : Z) :
  0 <= m <= 11 ->
  100 <= getUTCFullYear eligible ->
  let year := if m <? getUTCMonth eligible then getUTCFullYear eligible + 1
              else getUTCFullYear eligible in
  getUTCDate (UTC year m 1) = 1
  /\ getUTCMonth (UTC year m 1) = m
  /\ monthIndex eligible <= monthIndex (UTC year m 1) < monthIndex eligible + 12.
Proof.
  intros Hinc Hyear year.
  assert (Hm : 0 <= getUTCMonth eligible <= 11) by apply MonthFromDay_range.
  assert (Hy : 100 <= year
               /\ 12 * getUTCFullYear eligible + getUTCMonth eligible <= 12 * year + m
                  < 12 * getUTCFullYear eligible + getUTCMonth eligible + 12).
  { unfold year. destruct (Z.ltb_spec m (getUTCMonth eligible)); lia. }
  clearbody year. unfold UTC.
  destruct (Z.leb_spec 0 year), (Z.leb_spec year 99); cbn [andb]; try lia.
  pose proof (daysInMonth_range (InLeapYear year) m) as Hdays.
  destruct (MakeDay_fields year m 1) as (Hfy & Hfm & Hfd); [lia|lia|].
  split; [exact Hfd|]. split; [exact Hfm|].
  unfold monthIndex at 2 3. unfold getUTCFullYear at 1 2, getUTCMonth at 1 2.
  rewrite Hfy, Hfm. unfold monthIndex. lia.
Qed.

(** X27. Without breaks in service, the first scheduled increment is on the
    first day of the increment month of the earliest schedule entry, in the
    first such month from the month of the eligibility date on; that month
    is the joining month plus the eligibility months when the joining day is
    at most 28. *)
Theorem X27_first_increment_month (data : EmployeeInput) (doj next : Date) :
  let eligible :=
    setUTCMonth doj (getUTCMonth doj + default 6 (incrementEligibilityMonths data)) in
  firstScheduledIncrementDate data doj = Some next ->
  totalBreakDays data = 0 ->
  100 <= getUTCFullYear eligible ->
  getUTCDate next = 1
  /\ (exists first, head (sortedIncrementChanges data) = Some first
                    /\ getUTCMonth next = incrementMonthIndex (incrementMonth first))
  /\ monthIndex eligible <= monthIndex next < monthIndex eligible + 12
  /\ (getUTCDate doj <= 28 ->
      monthIndex eligible
      = monthIndex doj + default 6 (incrementEligibilityMonths data)).
Proof.
  intros eligible Hnext Hbreak Hyear.
  unfold firstScheduledIncrementDate in Hnext.
  destruct (sortedIncrementChanges data) as [|first rest] eqn:Hsorted; [discriminate Hnext|].
  rewrite Hbreak in Hnext. cbn [Z.ltb Z.compare] in Hnext. cbv zeta in Hnext.
  injection Hnext as <-.
  assert (Hinc : 0 <= incrementMonthIndex (incrementMonth first) <= 11)
    by (destruct (incrementMonth first); cbn; lia).
  destruct (scheduled_month eligible (incrementMonthIndex (incrementMonth first)) Hinc Hyear)
    as (Hd & Hm & Hi).
  split; [exact Hd|]. split; [exists first; split; [done|exact Hm]|]. split; [exact Hi|].
  intros Hday. unfold eligible, setUTCMonth.
  pose proof (getUTCDate_range doj) as Hr.
  pose proof (daysInMonth_range
                (InLeapYear (getUTCFullYear doj
                   + (getUTCMonth doj + default 6 (incrementEligibilityMonths data)) / 12))
                ((getUTCMonth doj + default 6 (incrementEligibilityMonths data)) mod 12)).
  destruct (monthIndex_MakeDay (getUTCFullYear doj)
              (getUTCMonth doj + default 6 (incrementEligibilityMonths data))
              (getUTCDate doj)) as [Hi' _]; [lia|].
  rewrite Hi'. unfold monthIndex. lia.
Qed.

(** X27, at a concrete input. *)
Lemma X27_first_increment_month_witness :
  exists next,
    firstScheduledIncrementDate Sample.across2016 (ymd 2015 7 1) = Some next
    /\ getUTCDate next = 1.
Proof.
  destruct (firstScheduledIncrementDate Sample.across2016 (ymd 2015 7 1)) as [next|] eqn:Hn;
    [|vm_compute in Hn; discriminate Hn].
  exists next. split; [reflexivity|].
  assert (Hyear : 100 <= getUTCFullYear (setUTCMonth (ymd 2015 7 1) (getUTCMonth (ymd 2015 7 1)
                     + default 6 (incrementEligibilityMonths Sample.across2016))))
    by (apply Z.leb_le; vm_compute; reflexivity).
  exact (proj1 (X27_first_increment_month Sample.across2016 (ymd 2015 7 1) next Hn eq_refl
                  Hyear)).
Defined.

(** X28. When the initial fixation succeeds, the joining period that the
    form computes from the joining date is the commission the service starts
    in, and the inputs that the form shows for that period are filled. *)
Theorem X28_joining_card (K : Constants) (data : EmployeeInput) (doj : Date) (st : PayState) :
  initialFixation K data doj = OK st ->
  exists p,
    joiningPeriod (Some doj) = Some p
    /\ currentCommission st = commissionOfPeriod p
    /\ joiningCardFilled p data = true.
Proof.
  unfold initialFixation, joiningPeriod, joinInScale.
  change fixedDate1986 with (ymd 1986 1 1). change fixedDate1996 with (ymd 1996 1 1).
  change fixedDate2006 with (ymd 2006 1 1). change fixedDate2016 with (ymd 2016 1 1).
  intros H. eexists. split; [reflexivity|].
  destruct (doj <? ymd 1986 1 1); [|destruct (doj <? ymd 1996 1 1);
    [|destruct (doj <? ymd 2006 1 1); [|destruct (doj <? ymd 2016 1 1)]]];
    cbn [commissionOfPeriod joiningCardFilled Js.truthy_str].
  1-4: repeat match type of H with
       | context [match ?x with _ => _ end] => destruct x eqn:?; try discriminate H
       end;
       res_inv; (split; [reflexivity|]);
       apply andb_true_intro; (split; [|by apply bool_decide_eq_true_2]);
       match goal with Hs : String.eqb _ _ = false |- _ => unfold Js.truthy_str; by rewrite Hs end.
  destruct (Js.truthy_str (joiningLevel data)) eqn:Ht; [|discriminate H].
  split; [by res_inv|reflexivity].
Qed.

(** X28, at a concrete input. *)
Lemma X28_joining_card_witness :
  exists st p,
    initialFixation Sample.tables Sample.across2016 (ymd 2015 7 1) = OK st
    /\ joiningPeriod (Some (ymd 2015 7 1)) = Some p
    /\ currentCommission st = commissionOfPeriod p.
Proof.
  destruct (initialFixation Sample.tables Sample.across2016 (ymd 2015 7 1)) as [st|] eqn:Hst;
    [|vm_compute in Hst; discriminate Hst].
  destruct (X28_joining_card Sample.tables Sample.across2016 (ymd 2015 7 1) st Hst)
    as (p & Hp & Hc & _).
  exists st, p. split; [reflexivity|]. split; [exact Hp|exact Hc].
Defined.

(** ** The increment schedule of the form *)

Lemma filter_other_ids {A : Type} (id : string) (l : list (string * A)) :
  id ∉ l.*1 -> List.filter (fun c => negb (String.eqb (fst c) id)) l = l.
Proof.
  intros Hid. apply filter_all_true. apply Forall_forall. intros [j y] Hin.
  cbn. apply negb_true_iff, String.eqb_neq. intros ->. apply Hid.
  apply list_elem_of_fmap. by exists (id, y).
Qed.

Lemma filter_unique_length {A : Type} (id : string) (l : list (string * A)) :
  NoDup l.*1 ->
  (length l <= length (List.filter (fun c => negb (String.eqb (fst c) id)) l) + 1)%nat.
Proof.
  induction l as [|[i x] l IH]; [cbn; lia|].
  rewrite fmap_cons. intros Hnd. apply NoDup_cons in Hnd as [Hi Hnd]. specialize (IH Hnd).
  destruct (String.eqb_spec i id) as [Heq|Hne].
  - subst i. cbn [List.filter fst]. rewrite String.eqb_refl. cbn [negb].
    rewrite filter_other_ids by done. cbn [length]. lia.
  - cbn [List.filter fst]. rewrite (proj2 (String.eqb_neq i id) Hne). cbn [negb length].
    lia.
Qed.

Lemma filter_ids_NoDup {A : Type} (P : string * A -> bool) (l : list (string * A)) :
  NoDup l.*1 -> NoDup (List.filter P l).*1.
Proof.
  induction l as [|[i x] l IH]; [done|].
  rewrite fmap_cons. intros Hnd. apply NoDup_cons in Hnd as [Hi Hnd].
  change (List.filter P ((i, x) :: l))
    with (if P (i, x) then (i, x) :: List.filter P l else List.filter P l).
  destruct (P (i, x)); [|by apply IH].
  rewrite fmap_cons. apply NoDup_cons. split; [|by apply IH].
  intros Hin. apply Hi. apply list_elem_of_fmap in Hin as ([j y] & -> & Hin).
  apply list_elem_of_fmap. exists (j, y). split; [done|].
  apply list_elem_of_In, List.filter_In in Hin as [Hin _]. by apply list_elem_of_In.
Qed.

Lemma handleIncrementChange_ids (id : string) (field : IncrementChangeField)
    (l : list (string * AnnualIncrementChange)) :
  (handleIncrementChange id field l).*1 = l.*1.
Proof.
  unfold handleIncrementChange. induction l as [|[i x] l IH]; [done|].
  cbn [map fmap list_fmap fst]. cbn [fmap list_fmap] in IH.
  f_equal; [|exact IH]. by destruct (String.eqb i id).
Qed.

(** X29. When the entries of the schedule have distinct ids and the new id
    is fresh, an action of the form on the schedule (following the joining
    date, adding, removing or changing an entry) leaves distinct ids,
    removes at most one entry and never empties a schedule that has an
    entry. *)
Theorem X29_schedule_never_emptied (a : ScheduleAction) (now : string)
    (rows : list (string * AnnualIncrementChange)) :
  NoDup rows.*1 ->
  now ∉ rows.*1 ->
  NoDup (scheduleAfter a now rows).*1
  /\ (rows <> [] -> scheduleAfter a now rows <> [])
  /\ (length rows - 1 <= length (scheduleAfter a now rows))%nat.
Proof.
  intros Hnd Hnow. destruct a as [doj| |id|id field]; cbn [scheduleAfter].
  - unfold syncFirstChange. destruct rows as [|[i c] rest]; cbn.
    + split; [apply NoDup_singleton|]. split; [done|lia].
    + split; [exact Hnd|]. split; [done|lia].
  - unfold addIncrementChange. rewrite fmap_app, length_app. cbn. split; [|split].
    + apply NoDup_app. split; [exact Hnd|]. split; [|apply NoDup_singleton].
      intros x Hx Hin. apply list_elem_of_singleton in Hin as ->. by apply Hnow.
    + by destruct rows.
    + lia.
  - unfold removeIncrementChange.
    destruct (Nat.ltb_spec 1 (length rows)) as [Hlen|Hlen].
    + pose proof (filter_unique_length id rows Hnd) as Hf.
      split; [by apply filter_ids_NoDup|]. split; [|lia].
      intros _ Hnil. rewrite Hnil in Hf. cbn in Hf. lia.
    + split; [exact Hnd|]. split; [done|lia].
  - rewrite handleIncrementChange_ids. split; [exact Hnd|].
    unfold handleIncrementChange. rewrite length_map. split; [|lia].
    by destruct rows.
Qed.

(** X29, at a concrete input. *)
Lemma X29_schedule_never_emptied_witness :
  NoDup Cases.rows.*1
  /\ scheduleAfter (RemoveIncrementChange "2") "3" Cases.rows <> [].
Proof.
  assert (Hnd : NoDup Cases.rows.*1) by (by apply (bool_decide_unpack _)).
  assert (Hnow : "3"%string ∉ Cases.rows.*1) by (by apply (bool_decide_unpack _)).
  split; [exact Hnd|].
  destruct (X29_schedule_never_emptied (RemoveIncrementChange "2") "3" Cases.rows Hnd Hnow)
    as (_ & Hne & _).
  by apply Hne.
Defined.

(** X30. After the form has set the first entry of the schedule to the
    joining date, the service finds an earliest entry, dated on or before
    the joining date, and computes a first scheduled increment date. *)
Theorem X30_form_schedule_starts_at_joining (data : EmployeeInput) (doj d : Date)
    (now : string) (prev : list (string * AnnualIncrementChange)) :
  annualIncrementChanges data = submittedChanges (syncFirstChange (Some doj) now prev) ->
  (exists first, head (sortedIncrementChanges data) = Some first
                 /\ effectiveTime first <= doj)
  /\ is_Some (firstScheduledIncrementDate data d).
Proof.
  intros Hdata.
  assert (Hin : exists c, c ∈ annualIncrementChanges data /\ effectiveDate c = Some doj).
  { rewrite Hdata. unfold submittedChanges, syncFirstChange.
    destruct prev as [|[i c] rest]; cbn; eexists; (split; [by left|done]). }
  destruct Hin as (c & Hc & Hd).
  destruct (sort_by_head effectiveTime
              (List.filter hasEffectiveDate (annualIncrementChanges data)))
    as (first & Hhead & _ & Hmin).
  { intros Hnil. assert (c ∈ List.filter hasEffectiveDate (annualIncrementChanges data))
      as Hc' by (apply filter_dated_elem; split; [done|by eexists]).
    rewrite Hnil in Hc'. inversion Hc'. }
  assert (Hle : effectiveTime first <= doj).
  { specialize (Hmin c). unfold effectiveTime at 2 in Hmin. rewrite Hd in Hmin.
    apply Hmin. apply filter_dated_elem. split; [done|by eexists]. }
  split; [by exists first|].
  unfold firstScheduledIncrementDate.
  change (Js.sort_by effectiveTime (List.filter hasEffectiveDate (annualIncrementChanges data)))
    with (sortedIncrementChanges data) in Hhead.
  destruct (sortedIncrementChanges data); [discriminate Hhead|]. by eexists.
Qed.

(** X30, at a concrete input. *)
Lemma X30_form_schedule_starts_at_joining_witness :
  is_Some (firstScheduledIncrementDate Sample.withBreak (ymd 2020 7 1)).
Proof.
  exact (proj2 (X30_form_schedule_starts_at_joining Sample.withBreak (ymd 2020 7 1)
                  (ymd 2020 7 1) "1" [] eq_refl)).
Defined.
